(** * mapping_utils: field metadata, conflict detection and resolution

    A shallow embedding of
    [streamlit_app/app/data_unificator/utils/mapping_utils.py].

    Python dictionaries are finite maps ([gmap]), Python sets are [gset]s,
    a pandas table is a list of column names with a list of rows, and the
    module-level logger is a list of reports returned next to the result. *)

From Stdlib Require Import ZArith Ascii String List Permutation Sorted Lia.
From stdpp Require Import base decidable option list countable strings gmap sorting.

Local Open Scope string_scope.
Local Open Scope Z_scope.

(** ** Values *)

(** The scalar values that reach this module: what a JSON leaf or a table
    cell holds.  [VTime] is a parsed timestamp (a count of time units since
    the epoch); [VOther] stands for a value of any other runtime type (a
    float, a decimal, ...), known by its type name and an identity only. *)
Inductive value : Type :=
  | VNone
  | VBool (b : bool)
  | VInt (n : Z)
  | VStr (s : string)
  | VTime (t : Z)
  | VOther (ty : string) (id : positive).

#[global] Instance value_eq_dec : EqDecision value.
Proof. solve_decision. Defined.

Definition value_enc (v : value) : unit + bool + Z + string + Z + string * positive :=
  match v with
  | VNone => inl (inl (inl (inl (inl tt))))
  | VBool b => inl (inl (inl (inl (inr b))))
  | VInt n => inl (inl (inl (inr n)))
  | VStr s => inl (inl (inr s))
  | VTime t => inl (inr t)
  | VOther ty id => inr (ty, id)
  end.

Definition value_dec (x : unit + bool + Z + string + Z + string * positive) : value :=
  match x with
  | inl (inl (inl (inl (inl _)))) => VNone
  | inl (inl (inl (inl (inr b)))) => VBool b
  | inl (inl (inl (inr n))) => VInt n
  | inl (inl (inr s)) => VStr s
  | inl (inr t) => VTime t
  | inr (ty, id) => VOther ty id
  end.

#[global] Instance value_countable : Countable value.
Proof. refine (inj_countable' value_enc value_dec _). by intros []. Defined.

(** [type(value).__name__] *)
Definition type_name (v : value) : string :=
  match v with
  | VNone => "NoneType"
  | VBool _ => "bool"
  | VInt _ => "int"
  | VStr _ => "str"
  | VTime _ => "Timestamp"
  | VOther ty _ => ty
  end.

(** ** Nested data and field metadata *)

(** A non-tabular source: dictionaries (in insertion order), lists and
    scalar leaves. *)
#[local] Unset Elimination Schemes.
Inductive json : Type :=
  | JDict (kvs : list (string * json))
  | JList (items : list json)
  | JLeaf (v : value).
#[local] Set Elimination Schemes.

(** Induction over nested data, with the hypothesis for every value of a
    dictionary and every element of a list. *)
Section json_induction.
Variable P : json -> Prop.
Hypothesis Hdict : forall kvs, Forall (fun kv : string * json => P kv.2) kvs -> P (JDict kvs).
Hypothesis Hlist : forall l, Forall P l -> P (JList l).
Hypothesis Hleaf : forall v, P (JLeaf v).

Fixpoint json_ind (j : json) : P j :=
  match j with
  | JDict kvs =>
      Hdict kvs
        ((fix go (kvs : list (string * json)) : Forall (fun kv : string * json => P kv.2) kvs :=
            match kvs with
            | [] => List.Forall_nil _
            | (k, v) :: rest => List.Forall_cons (fun kv : string * json => P kv.2) (k, v) rest (json_ind v) (go rest)
            end) kvs)
  | JList l =>
      Hlist l
        ((fix go (l : list json) : Forall P l :=
            match l with
            | [] => List.Forall_nil _
            | x :: rest => List.Forall_cons P x rest (json_ind x) (go rest)
            end) l)
  | JLeaf v => Hleaf v
  end.
End json_induction.

(** One entry of the metadata dictionary. *)
Record field_meta : Type := FieldMeta {
  dtype : string;
  sample_values : list value
}.

#[global] Instance field_meta_eq_dec : EqDecision field_meta.
Proof. solve_decision. Defined.

Module Metadata.

Definition max_sample_values : nat := 5.

(** [f"{path}.{key}" if path else key] *)
Definition current_path (path key : string) : string :=
  match path with
  | EmptyString => key
  | _ => path ++ "." ++ key
  end.

(** The [else] branch of the loop over [data.items()]: a leaf under a
    key creates the entry of its path, or appends to the entry while it
    holds fewer than [max_sample_values] samples. *)
Definition record_leaf (p : string) (v : value)
    (metadata : gmap string field_meta) : gmap string field_meta :=
  match metadata !! p with
  | None => <[p := FieldMeta (type_name v) [v]]> metadata
  | Some fm =>
      if decide (length (sample_values fm) < max_sample_values)%nat
      then <[p := FieldMeta (dtype fm) (sample_values fm ++ [v])]> metadata
      else metadata
  end.

(** The inner function [traverse]; the enclosing [metadata] dictionary,
    which it updates in place, is passed through. *)
Fixpoint traverse (data : json) (path : string)
    (metadata : gmap string field_meta) : gmap string field_meta :=
  match data with
  | JDict kvs =>
      (fix items (kvs : list (string * json)) (metadata : gmap string field_meta) :=
         match kvs with
         | [] => metadata
         | (key, val) :: rest =>
             let cp := current_path path key in
             items rest
               match val with
               | JLeaf v => record_leaf cp v metadata
               | _ => traverse val cp metadata
               end
         end) kvs metadata
  | JList l =>
      (fix each (l : list json) (metadata : gmap string field_meta) :=
         match l with
         | [] => metadata
         | item :: rest => each rest (traverse item path metadata)
         end) l metadata
  | JLeaf _ => metadata
  end.

End Metadata.

(** ** Tables *)

(** A pandas table: its column labels in order, and its rows.  A row maps
    a column label to the cell's value; a null cell (NaN, None, NaT) is a
    label the row does not bind.  Cells are compared with [=]: a value
    stands for everything Python holds equal to it. *)
Record DataFrame : Type := mkDataFrame {
  columns : list string;
  rows : list (gmap string value)
}.

(** The ['data'] of an aligned item is a table or a nested structure. *)
Inductive source_data : Type :=
  | Tabular (df : DataFrame)
  | Nested (j : json).

(** [{'file': ..., 'data': ...}] *)
Record aligned_item : Type := mkItem {
  file : string;
  data : source_data
}.

(** What this module takes from pandas without fixing it: the sorting
    algorithm behind [sort_values] (whose order among equal keys the
    default algorithm leaves open), timestamp parsing, and the dtype
    pandas infers for a column. *)
Class Pandas : Type := {
  sort_rows : string -> bool -> list (gmap string value) -> list (gmap string value);
  to_datetime : list (option value) -> list (option Z);
  series_dtype : list (option value) -> string
}.

Module Frame.

(** [Series.unique()] and [Index.union] order: first occurrences, in
    order of appearance. *)
Fixpoint unique {A} `{EqDecision A} (l : list A) : list A :=
  match l with
  | [] => []
  | x :: l => x :: filter (fun y => y <> x) (unique l)
  end.

(** [Series.dropna()] *)
Definition dropna (s : list (option value)) : list value := omap id s.

(** [df[c]] as a sequence of cells *)
Definition column (c : string) (rs : list (gmap string value)) : list (option value) :=
  map (fun r : gmap string value => r !! c) rs.

(** [df[c] = v] for a scalar [v]: a new last column, or an existing
    column overwritten in place. *)
Definition set_column (c : string) (v : value) (df : DataFrame) : DataFrame :=
  {| columns := if decide (c ∈ columns df) then columns df else columns df ++ [c];
     rows := map (fun r : gmap string value => <[c := v]> r) (rows df) |}.

Definition set_cell (c : string) (r : gmap string value) (x : option value)
    : gmap string value :=
  match x with
  | Some v => <[c := v]> r
  | None => delete c r
  end.

(** [df[c] = series] for a column that [df] already has *)
Definition assign_column (c : string) (s : list (option value)) (df : DataFrame)
    : DataFrame :=
  {| columns := columns df;
     rows := zip_with (set_cell c) (rows df) s |}.

(** [pd.concat(frames, ignore_index=True, sort=False)] *)
Definition concat (frames : list DataFrame) : DataFrame :=
  {| columns := unique (List.concat (map columns frames));
     rows := List.concat (map rows frames) |}.

(** [set.intersection] applied to the unpacked list of sets; Python
    raises on an empty argument list, which every caller rules out
    beforehand. *)
Definition set_intersection (sets : list (gset string)) : gset string :=
  match sets with
  | [] => ∅
  | s :: ss => foldl (fun acc t : gset string => acc ∩ t) s ss
  end.

(** The intersection of [set(df.columns)] over [data_frames]. *)
Definition common_columns (data_frames : list DataFrame) : gset string :=
  set_intersection (map (fun df => list_to_set (columns df)) data_frames).

(** The cells of a row under the key columns. *)
Definition key_tuple (key_columns : list string) (r : gmap string value)
    : list (option value) :=
  map (fun c => r !! c) key_columns.

(** [df.drop_duplicates(subset=key_columns, keep='first')]: null cells
    of the subset compare equal. *)
Fixpoint drop_duplicate_rows (key_columns : list string)
    (rs : list (gmap string value)) : list (gmap string value) :=
  match rs with
  | [] => []
  | r :: rs =>
      r :: filter (fun r' => key_tuple key_columns r' <> key_tuple key_columns r)
             (drop_duplicate_rows key_columns rs)
  end.

Definition drop_duplicates (key_columns : list string) (df : DataFrame) : DataFrame :=
  {| columns := columns df;
     rows := drop_duplicate_rows key_columns (rows df) |}.

(** [df.drop(columns=cs)] *)
Definition drop (cs : list string) (df : DataFrame) : DataFrame :=
  {| columns := filter (fun c => c ∉ cs) (columns df);
     rows := map (fun r : gmap string value => foldr delete r cs) (rows df) |}.

(** [df.dropna(subset=[c])] *)
Definition dropna_rows (c : string) (df : DataFrame) : DataFrame :=
  {| columns := columns df;
     rows := filter (fun r : gmap string value => is_Some (r !! c)) (rows df) |}.

(** [df.sort_values(by, ascending=...)] *)
Definition sort_values `{Pandas} (by_ : string) (ascending : bool) (df : DataFrame)
    : DataFrame :=
  {| columns := columns df;
     rows := sort_rows by_ ascending (rows df) |}.

(** The key of the group a row falls in; a row with a null key cell
    falls in no group ([groupby] has [dropna=True]). *)
Definition group_key (key_columns : list string) (r : gmap string value)
    : option (list value) :=
  mapM (fun c => r !! c) key_columns.

Definition group_rows (key_columns : list string) (k : list value)
    (rs : list (gmap string value)) : list (gmap string value) :=
  filter (fun r => group_key key_columns r = Some k) rs.

(** [for group_keys, group in df.groupby(key_columns)]: the groups with
    their key tuples.  pandas walks the groups in key order; they are
    listed here by first appearance, which only the insertion order of a
    dictionary built from them could tell apart. *)
Definition groupby (key_columns : list string) (df : DataFrame)
    : list (list value * list (gmap string value)) :=
  map (fun k => (k, group_rows key_columns k (rows df)))
      (unique (omap (group_key key_columns) (rows df))).

End Frame.

(** ** Conflict detection *)

Module Conflicts.
Import Frame.

(** The loop over [aligned_data]: the tables, each a copy tagged with
    its source in column [_source], next to the source names. *)
Definition tagged_frames (aligned_data : list aligned_item)
    : list (string * DataFrame) :=
  omap (fun data_dict =>
          match data data_dict with
          | Tabular df =>
              Some (file data_dict,
                    set_column "_source" (VStr (file data_dict)) df)
          | Nested _ => None
          end) aligned_data.

(** [group[group['_source'] == source][column].dropna().unique()] *)
Definition source_values (source column : string)
    (group : list (gmap string value)) : list value :=
  unique (dropna (Frame.column column
    (filter (fun r : gmap string value => r !! "_source" = Some (VStr source)) group))).

(** The loop over [source_names] that fills [conflicting_values]. *)
Definition conflicting_values (source_names : list string) (column : string)
    (group : list (gmap string value)) : gmap string (list value) :=
  foldl (fun (acc : gmap string (list value)) source =>
           let vs := source_values source column group in
           if decide (0 < length vs)%nat then <[source := vs]> acc else acc)
        ∅ source_names.

(** The loop over [combined_df.columns] that fills [conflicting_fields]. *)
Definition conflicting_fields (source_names key_columns all_columns : list string)
    (group : list (gmap string value)) : gmap string (gmap string (list value)) :=
  foldl (fun (acc : gmap string (gmap string (list value))) column =>
           if decide (column ∈ key_columns \/ column = "_source") then acc
           else
             let values := unique (dropna (Frame.column column group)) in
             if decide (1 < length values)%nat
             then <[column := conflicting_values source_names column group]> acc
             else acc)
        ∅ all_columns.

Definition detect_conflicts (aligned_data : list aligned_item)
    : gmap (list value) (gmap string (gmap string (list value))) :=
  let tagged := tagged_frames aligned_data in
  let data_frames := tagged.*2 in
  let source_names := tagged.*1 in
  match data_frames with
  | [] => ∅
  | _ :: _ =>
      let common := common_columns data_frames ∖ {["_source"]} in
      let key_columns := elements common in
      match key_columns with
      | [] => ∅
      | _ :: _ =>
          let combined_df := concat data_frames in
          let grouped := groupby key_columns combined_df in
          foldl (fun (conflicts : gmap (list value) (gmap string (gmap string (list value))))
                     '(group_keys, group) =>
                   if decide (1 < length (unique (Frame.column "_source" group)))%nat
                   then
                     let cf := conflicting_fields source_names key_columns
                                 (columns combined_df) group in
                     if decide (cf <> ∅) then <[group_keys := cf]> conflicts
                     else conflicts
                   else conflicts)
                ∅ grouped
      end
  end.

End Conflicts.

(** ** Conflict resolution *)

Module Resolve.
Import Frame.

(** [{source: idx for idx, source in enumerate(source_hierarchy)}] *)
Definition source_priority (source_hierarchy : list string) : gmap string Z :=
  foldl (fun (acc : gmap string Z) '(idx, source) => <[source := Z.of_nat idx]> acc)
        ∅ (zip (seq 0 (length source_hierarchy)) source_hierarchy).

(** [source_priority.get(file_name, len(source_priority))] *)
Definition priority_of (source_hierarchy : list string) (file_name : string) : Z :=
  let sp := source_priority source_hierarchy in
  default (Z.of_nat (size sp)) (sp !! file_name).

(** The result of a strategy that went through. *)
Definition resolved_data (resolved_df : DataFrame) : list aligned_item :=
  [ {| file := "resolved_data"; data := Tabular resolved_df |} ].

Definition hierarchy_frames (aligned_data : list aligned_item)
    (source_hierarchy : list string) : list DataFrame :=
  omap (fun data_dict =>
          match data data_dict with
          | Tabular df =>
              Some (set_column "_priority"
                      (VInt (priority_of source_hierarchy (file data_dict)))
                      (set_column "_source" (VStr (file data_dict)) df))
          | Nested _ => None
          end) aligned_data.

Definition resolve_conflicts_hierarchy `{Pandas} (aligned_data : list aligned_item)
    (source_hierarchy : list string) : list aligned_item :=
  let data_frames := hierarchy_frames aligned_data source_hierarchy in
  match data_frames with
  | [] => aligned_data
  | _ :: _ =>
      let combined_df := concat data_frames in
      let common := common_columns data_frames ∖ {["_source"]} ∖ {["_priority"]} in
      let key_columns := elements common in
      match key_columns with
      | [] => aligned_data
      | _ :: _ =>
          let combined_df := sort_values "_priority" true combined_df in
          let resolved_df := drop_duplicates key_columns combined_df in
          let resolved_df := drop ["_source"; "_priority"] resolved_df in
          resolved_data resolved_df
      end
  end.

(** [source_weights.get(file_name, 0)]; the weights are taken to be
    integers. *)
Definition weight_of (source_weights : gmap string Z) (file_name : string) : Z :=
  default 0 (source_weights !! file_name).

Definition weighted_frames (aligned_data : list aligned_item)
    (source_weights : gmap string Z) : list DataFrame :=
  omap (fun data_dict =>
          let weight := weight_of source_weights (file data_dict) in
          match data data_dict with
          | Tabular df =>
              Some (set_column "_weight" (VInt weight)
                      (set_column "_source" (VStr (file data_dict)) df))
          | Nested _ => None
          end) aligned_data.

Definition resolve_conflicts_weighted `{Pandas} (aligned_data : list aligned_item)
    (source_weights : gmap string Z) : list aligned_item :=
  let data_frames := weighted_frames aligned_data source_weights in
  match data_frames with
  | [] => aligned_data
  | _ :: _ =>
      let combined_df := concat data_frames in
      let common := common_columns data_frames ∖ {["_source"]} ∖ {["_weight"]} in
      let key_columns := elements common in
      match key_columns with
      | [] => aligned_data
      | _ :: _ =>
          let combined_df := sort_values "_weight" false combined_df in
          let resolved_df := drop_duplicates key_columns combined_df in
          let resolved_df := drop ["_source"; "_weight"] resolved_df in
          resolved_data resolved_df
      end
  end.

Definition timed_frames (aligned_data : list aligned_item) : list DataFrame :=
  omap (fun data_dict =>
          match data data_dict with
          | Tabular df =>
              if decide ("timestamp" ∈ columns df)
              then Some (set_column "_source" (VStr (file data_dict)) df)
              else None
          | Nested _ => None
          end) aligned_data.

(** [pd.to_datetime(df['timestamp'], errors='coerce')] as a column of
    cells: a timestamp that does not parse is a null cell. *)
Definition parsed_timestamps `{Pandas} (df : DataFrame) : list (option value) :=
  map (fmap VTime) (to_datetime (column "timestamp" (rows df))).

Definition resolve_conflicts_time_based `{Pandas} (aligned_data : list aligned_item)
    : list aligned_item :=
  let data_frames := timed_frames aligned_data in
  match data_frames with
  | [] => aligned_data
  | _ :: _ =>
      let combined_df := concat data_frames in
      let combined_df :=
        assign_column "timestamp" (parsed_timestamps combined_df) combined_df in
      let combined_df := dropna_rows "timestamp" combined_df in
      let common := common_columns data_frames ∖ {["_source"]} ∖ {["timestamp"]} in
      let key_columns := elements common in
      match key_columns with
      | [] => aligned_data
      | _ :: _ =>
          let combined_df := sort_values "timestamp" false combined_df in
          let resolved_df := drop_duplicates key_columns combined_df in
          let resolved_df := drop ["_source"; "timestamp"] resolved_df in
          resolved_data resolved_df
      end
  end.

Definition resolve_conflicts `{Pandas} (aligned_data : list aligned_item)
    (conflicts : gmap (list value) (gmap string (gmap string (list value))))
    (strategy : string) (source_weights : gmap string Z)
    (source_hierarchy : list string) : list aligned_item :=
  if decide (strategy = "Manual") then aligned_data
  else if decide (strategy = "Hierarchy-based")
    then resolve_conflicts_hierarchy aligned_data source_hierarchy
  else if decide (strategy = "Weight-based")
    then resolve_conflicts_weighted aligned_data source_weights
  else if decide (strategy = "Time-based")
    then resolve_conflicts_time_based aligned_data
  else aligned_data.

End Resolve.

(** ** Metadata extraction *)

Module Extract.
Import Frame Metadata.

Definition extract_fields_metadata `{Pandas} (data : source_data)
    : gmap string field_meta :=
  match data with
  | Tabular df =>
      foldl (fun (metadata : gmap string field_meta) c =>
               let s := column c (rows df) in
               <[c := FieldMeta (series_dtype s)
                        (take max_sample_values (unique (dropna s)))]> metadata)
            ∅ (columns df)
  | Nested j => traverse j "" ∅
  end.

End Extract.

(** ** Value conversion *)

Module Convert.

(** An exception, by class and message (the message of [int] is kept
    without the literal it quotes). *)
Inductive exn : Type :=
  | ValueError (msg : string)
  | TypeError (msg : string)
  | OtherError (cls msg : string).

(** What [log_error] receives from [convert_value_to_type]: the message
    is formatted from the value, the target type and the exception. *)
Record report : Type := Report {
  report_value : value;
  report_type : string;
  report_error : exn
}.

(** The conversions this module calls but does not pin down: [float],
    [datetime.strptime], and [int] and [str] on the values that [value]
    keeps opaque. *)
Class Builtins : Type := {
  py_float : value -> exn + value;
  py_strptime : value -> string -> exn + value;
  int_opaque : value -> exn + Z;
  str_opaque : value -> string
}.

Definition digit_char (d : Z) : ascii := ascii_of_nat (48 + Z.to_nat d).

Definition digit_val (c : ascii) : option Z :=
  let n := Z.of_nat (nat_of_ascii c) in
  if decide (48 <= n <= 57) then Some (n - 48) else None.

(** Decimal digits of a non-negative number, most significant first,
    in front of [acc]. *)
Fixpoint digits_go (fuel : nat) (n : Z) (acc : string) : string :=
  match fuel with
  | O => acc
  | S fuel =>
      let acc := String (digit_char (n mod 10)) acc in
      if decide (n / 10 = 0) then acc else digits_go fuel (n / 10) acc
  end.

Definition digits (n : Z) : string :=
  digits_go (S (Z.to_nat (Z.log2 n))) n "".

(** [str(n)] for an [int] *)
Definition str_of_int (n : Z) : string :=
  if decide (n < 0) then String "-" (digits (- n)) else digits n.

(** The characters [int] strips around a literal. *)
Definition is_space (c : ascii) : bool :=
  let n := nat_of_ascii c in
  ((9 <=? n) && (n <=? 13) || (28 <=? n) && (n <=? 32))%nat.

Fixpoint lstrip (s : string) : string :=
  match s with
  | String c s' => if is_space c then lstrip s' else s
  | EmptyString => EmptyString
  end.

Fixpoint rstrip (s : string) : string :=
  match s with
  | String c s' =>
      match rstrip s' with
      | EmptyString => if is_space c then EmptyString else String c EmptyString
      | t => String c t
      end
  | EmptyString => EmptyString
  end.

(** Digits with single underscores between them; [after_digit] tells
    whether the previous character was a digit. *)
Fixpoint parse_digits (s : string) (acc : Z) (after_digit : bool) : option Z :=
  match s with
  | EmptyString => if after_digit then Some acc else None
  | String c s' =>
      match digit_val c with
      | Some d => parse_digits s' (10 * acc + d) true
      | None =>
          if decide (c = "_"%char) then
            if after_digit then parse_digits s' acc false else None
          else None
      end
  end.

(** [int(s)] for a [str], base 10: [None] where Python raises
    [ValueError]. *)
Definition int_of_str (s : string) : option Z :=
  match rstrip (lstrip s) with
  | String c t =>
      if decide (c = "-"%char) then Z.opp <$> parse_digits t 0 false
      else if decide (c = "+"%char) then parse_digits t 0 false
      else parse_digits (String c t) 0 false
  | EmptyString => None
  end.

(** [int(value)] *)
Definition py_int `{Builtins} (v : value) : exn + Z :=
  match v with
  | VNone => inl (TypeError "int() argument must be a string, a bytes-like object or a real number, not 'NoneType'")
  | VBool b => inr (if b then 1 else 0)
  | VInt n => inr n
  | VStr s =>
      match int_of_str s with
      | Some n => inr n
      | None => inl (ValueError "invalid literal for int() with base 10")
      end
  | VTime _ | VOther _ _ => int_opaque v
  end.

(** [str(value)] *)
Definition py_str `{Builtins} (v : value) : string :=
  match v with
  | VNone => "None"
  | VBool b => if b then "True" else "False"
  | VInt n => str_of_int n
  | VStr s => s
  | VTime _ | VOther _ _ => str_opaque v
  end.

(** The body of the [try]. *)
Definition convert `{Builtins} (v : value) (new_type : string) : exn + value :=
  if decide (new_type = "int") then
    match py_int v with inr n => inr (VInt n) | inl e => inl e end
  else if decide (new_type = "float") then py_float v
  else if decide (new_type = "str") then inr (VStr (py_str v))
  else if decide (new_type = "datetime") then py_strptime v "%Y-%m-%d"
  else inr v.

(** The converted value, or the original value after one report, with
    the reports sent to [log_error]. *)
Definition convert_value_to_type `{Builtins} (v : value) (new_type : string)
    : value * list report :=
  match convert v new_type with
  | inr v' => (v', [])
  | inl e => (v, [Report v new_type e])
  end.

End Convert.

(** ** What is assumed of pandas *)

(** The number a cell is ordered by, for the columns this module sorts
    on: ranks, weights and parsed timestamps. *)
Definition sort_key (c : option value) : option Z :=
  match c with
  | Some (VInt n) => Some n
  | Some (VTime t) => Some t
  | _ => None
  end.

(** [a] may stand before [b] after sorting on column [by_]. *)
Definition row_le (by_ : string) (ascending : bool) (a b : gmap string value) : Prop :=
  forall x y, sort_key (a !! by_) = Some x -> sort_key (b !! by_) = Some y ->
    if ascending then x <= y else y <= x.

(** [sort_values] rearranges the rows and leaves them in key order;
    nothing is assumed on the order among rows of equal key.
    [to_datetime] answers cell by cell. *)
Class PandasSpec (P : Pandas) : Prop := {
  sort_rows_perm : forall by_ asc l, sort_rows by_ asc l ≡ₚ l;
  sort_rows_sorted : forall by_ asc l, StronglySorted (row_le by_ asc) (sort_rows by_ asc l);
  to_datetime_length : forall s, length (to_datetime s) = length s
}.

(** A stand-in for pandas on which examples run: a merge sort, and ISO
    dates ([YYYY-MM-DD]) counted in days since 1970-01-01. *)
Module Reference.

Definition key_leb (ascending : bool) (a b : option Z) : bool :=
  match a, b with
  | Some x, Some y => if ascending then x <=? y else y <=? x
  | _, None => true
  | None, Some _ => false
  end.

(** The order [sort_rows] sorts by: the keys in the direction asked
    for, rows without a key last. *)
Definition key_le (by_ : string) (ascending : bool) (a b : gmap string value) : Prop :=
  key_leb ascending (sort_key (a !! by_)) (sort_key (b !! by_)) = true.

#[export] Instance key_le_dec by_ ascending a b : Decision (key_le by_ ascending a b).
Proof. unfold key_le. apply _. Defined.

Definition sort (by_ : string) (ascending : bool)
    (l : list (gmap string value)) : list (gmap string value) :=
  merge_sort (key_le by_ ascending) l.

Definition two_digits (a b : ascii) : option Z :=
  match Convert.digit_val a, Convert.digit_val b with
  | Some x, Some y => Some (10 * x + y)
  | _, _ => None
  end.

Definition is_leap (y : Z) : bool :=
  ((y mod 4 =? 0) && negb (y mod 100 =? 0)) || (y mod 400 =? 0).

Definition days_in_month (y m : Z) : Z :=
  if m =? 2 then (if is_leap y then 29 else 28)
  else if (m =? 4) || (m =? 6) || (m =? 9) || (m =? 11) then 30
  else 31.

(** Days from 1970-01-01 to the given civil date. *)
Definition days_from_civil (y m d : Z) : Z :=
  let y' := if m <=? 2 then y - 1 else y in
  let era := y' / 400 in
  let yoe := y' - era * 400 in
  let mp := if m <=? 2 then m + 9 else m - 3 in
  let doy := (153 * mp + 2) / 5 + d - 1 in
  let doe := yoe * 365 + yoe / 4 - yoe / 100 + doy in
  era * 146097 + doe - 719468.

Definition parse_iso_date (s : string) : option Z :=
  match s with
  | String y1 (String y2 (String y3 (String y4 (String "-"
      (String m1 (String m2 (String "-" (String d1 (String d2 EmptyString))))))))) =>
      match two_digits y1 y2, two_digits y3 y4, two_digits m1 m2, two_digits d1 d2 with
      | Some yh, Some yl, Some m, Some d =>
          let y := 100 * yh + yl in
          if (1 <=? m) && (m <=? 12) && (1 <=? d) && (d <=? days_in_month y m)
          then Some (days_from_civil y m d)
          else None
      | _, _, _, _ => None
      end
  | _ => None
  end.

Definition parse_cell (c : option value) : option Z :=
  match c with
  | Some (VStr s) => parse_iso_date s
  | Some (VTime t) => Some t
  | _ => None
  end.

Definition is_int (c : option value) : bool :=
  match c with Some (VInt _) => true | _ => false end.

Definition infer_dtype (s : list (option value)) : string :=
  if forallb is_int s then "int64" else "object".

#[export] Instance pandas : Pandas := {|
  sort_rows := sort;
  to_datetime := map parse_cell;
  series_dtype := infer_dtype
|}.

(** The conversions left open are refused here. *)
#[export] Instance builtins : Convert.Builtins := {|
  Convert.py_float := fun _ => inl (Convert.OtherError "NotImplementedError" "float");
  Convert.py_strptime := fun _ _ => inl (Convert.OtherError "NotImplementedError" "strptime");
  Convert.int_opaque := fun _ => inl (Convert.TypeError "int() argument");
  Convert.str_opaque := fun v => type_name v
|}.

End Reference.

(** ** Notions the properties are stated with *)

Module Spec.
Import Metadata.

(** A string without any character that [int] strips. *)
Fixpoint no_space (s : string) : bool :=
  match s with
  | EmptyString => true
  | String c s' => negb (Convert.is_space c) && no_space s'
  end.

(** The leaves that are the value of a dictionary key, each with its
    accumulated path, in the order the traversal meets them. *)
Fixpoint keyed_leaves (data : json) (path : string) : list (string * value) :=
  match data with
  | JDict kvs =>
      (fix items (kvs : list (string * json)) : list (string * value) :=
         match kvs with
         | [] => []
         | (key, val) :: rest =>
             let cp := current_path path key in
             (match val with
              | JLeaf v => [(cp, v)]
              | _ => keyed_leaves val cp
              end ++ items rest)%list
         end) kvs
  | JList l =>
      (fix each (l : list json) : list (string * value) :=
         match l with
         | [] => []
         | item :: rest => (keyed_leaves item path ++ each rest)%list
         end) l
  | JLeaf _ => []
  end.

(** Every leaf the traversal reaches, with the path accumulated on the
    way to it: a dictionary key extends the path, a list position does
    not. *)
Fixpoint reached_leaves (data : json) (path : string) : list (string * value) :=
  match data with
  | JDict kvs =>
      (fix items (kvs : list (string * json)) : list (string * value) :=
         match kvs with
         | [] => []
         | (key, val) :: rest =>
             (reached_leaves val (current_path path key) ++ items rest)%list
         end) kvs
  | JList l =>
      (fix each (l : list json) : list (string * value) :=
         match l with
         | [] => []
         | item :: rest => (reached_leaves item path ++ each rest)%list
         end) l
  | JLeaf v => [(path, v)]
  end.

(** The values met at path [p], in order. *)
Definition values_at (p : string) (leaves : list (string * value)) : list value :=
  (filter (fun pv : string * value => pv.1 = p) leaves).*2.

Definition record (metadata : gmap string field_meta) (pv : string * value)
    : gmap string field_meta :=
  record_leaf pv.1 pv.2 metadata.

(** An entry after the values [vs] were met at its path. *)
Definition add_samples (o : option field_meta) (vs : list value) : option field_meta :=
  match o, vs with
  | None, [] => None
  | None, v :: _ => Some (FieldMeta (type_name v) (take max_sample_values vs))
  | Some fm, _ =>
      Some (FieldMeta (dtype fm)
              (sample_values fm
               ++ take (max_sample_values - length (sample_values fm)) vs)%list)
  end.

(** The tables among the aligned items, each with its source name. *)
Definition tables (aligned_data : list aligned_item) : list (string * DataFrame) :=
  omap (fun it => match data it with
                  | Tabular df => Some (file it, df)
                  | Nested _ => None
                  end) aligned_data.

(** The tables that carry a [timestamp] column. *)
Definition timed_tables (aligned_data : list aligned_item) : list (string * DataFrame) :=
  filter (fun sd : string * DataFrame => "timestamp" ∈ columns sd.2) (tables aligned_data).

(** Every row of every table, in order, with the name of its source. *)
Definition source_rows (srcs : list (string * DataFrame))
    : list (string * gmap string value) :=
  List.concat (map (fun sd : string * DataFrame => map (pair sd.1) (rows sd.2)) srcs).

(** The common key columns: the labels every table has, the
    bookkeeping labels excluded. *)
Definition key_set (bookkeeping : gset string) (srcs : list (string * DataFrame))
    : gset string :=
  Frame.common_columns srcs.*2 ∖ bookkeeping.

(** Two rows agree on the columns [K], null cells included. *)
Definition same_key (K : gset string) (r r' : gmap string value) : Prop :=
  forall c, c ∈ K -> r !! c = r' !! c.

(** A row without the cells of the columns [cs]. *)
Definition strip (cs : list string) (r : gmap string value) : gmap string value :=
  foldr delete r cs.

(** The tables as a strategy tags them before putting them together. *)
Definition tag_all (tag : string -> DataFrame -> DataFrame)
    (srcs : list (string * DataFrame)) : list DataFrame :=
  map (fun sd : string * DataFrame => tag sd.1 sd.2) srcs.

(** Tagging a table with its source and with the rank of the source
    in column [col], and the same on one row. *)
Definition rank_tag (col : string) (rank : string -> Z) (s : string)
    (df : DataFrame) : DataFrame :=
  Frame.set_column col (VInt (rank s)) (Frame.set_column "_source" (VStr s) df).

Definition rank_tag_row (col : string) (rank : string -> Z) (s : string)
    (r : gmap string value) : gmap string value :=
  <[col := VInt (rank s)]> (<["_source" := VStr s]> r).

(** [a] does not come after [b] in the order of the sort. *)
Definition before (ascending : bool) (a b : Z) : Prop :=
  if ascending then a <= b else b <= a.

(** [a] comes strictly before [b]. *)
Definition strictly_before (ascending : bool) (a b : Z) : Prop :=
  if ascending then a < b else b < a.

Definition source_tag (s : string) (df : DataFrame) : DataFrame :=
  Frame.set_column "_source" (VStr s) df.

Definition source_tag_row (s : string) (r : gmap string value) : gmap string value :=
  <["_source" := VStr s]> r.

(** The rows of the tables that carry a [timestamp] column, each with
    its source and with what [to_datetime] makes of its timestamp within
    the column of all of them: [None] for a timestamp that does not
    parse. *)
Definition timed_rows `{Pandas} (aligned_data : list aligned_item)
    : list ((string * gmap string value) * option Z) :=
  let srs := source_rows (timed_tables aligned_data) in
  zip srs (to_datetime
             (map (fun sr : string * gmap string value => sr.2 !! "timestamp") srs)).

(** A row tagged with its source and carrying its parsed timestamp. *)
Definition stamped (s : string) (r : gmap string value) (t : Z) : gmap string value :=
  <["timestamp" := VTime t]> (source_tag_row s r).

(** The table the time-based strategy makes when it goes through. *)
Definition time_resolved `{Pandas} (aligned_data : list aligned_item) : DataFrame :=
  let srcs := timed_tables aligned_data in
  let combined := Frame.concat (tag_all source_tag srcs) in
  Frame.drop ["_source"; "timestamp"]
    (Frame.drop_duplicates (elements (key_set {["_source"; "timestamp"]} srcs))
       (Frame.sort_values "timestamp" false
          (Frame.dropna_rows "timestamp"
             (Frame.assign_column "timestamp"
                (Resolve.parsed_timestamps combined) combined)))).

(** The rows of the group with key tuple [k], as source rows: the
    cells of the row under the key columns, none of them null, are [k]. *)
Definition in_group (srcs : list (string * DataFrame)) (K : gset string)
    (k : list value) (s : string) (r : gmap string value) : Prop :=
  (s, r) ∈ source_rows srcs /\ Frame.group_key (elements K) r = Some k.

(** A column on which the group with key tuple [k] disagrees: a column
    of some table, neither a key column nor the source label, with two
    different non-null values among the rows of the group. *)
Definition disputed (srcs : list (string * DataFrame)) (K : gset string)
    (k : list value) (c : string) : Prop :=
  (exists s df, (s, df) ∈ srcs /\ c ∈ columns df)
  /\ (c ∉ K) /\ c <> "_source"
  /\ exists x y, x <> y
       /\ (exists s r, in_group srcs K k s r /\ r !! c = Some x)
       /\ (exists s r, in_group srcs K k s r /\ r !! c = Some y).

(** The test of the detection loop on one group: more than one source
    label, and some conflicting field. *)
Definition flagged (names keys cols : list string) (g : list (gmap string value))
    : Prop :=
  (1 < length (Frame.unique (Frame.column "_source" g)))%nat
  /\ Conflicts.conflicting_fields names keys cols g <> ∅.

End Spec.

(** ** Inputs for worked examples *)

Module Examples.

(** [{"items": [{"tag": 1}, {"tag": 1}, {"tag": 2}, {"tag": 3},
    {"tag": 1}, {"tag": 4}, {"tag": 5}]}]: seven leaves under the one
    path [items.tag]. *)
Definition seven_tags : json :=
  JDict [("items",
          JList (map (fun n => JDict [("tag", JLeaf (VInt n))]) [1; 1; 2; 3; 1; 4; 5]))].

(** [{"a": [1, 2]}]: leaves that are elements of a list. *)
Definition leaves_in_list : json :=
  JDict [("a", JList [JLeaf (VInt 1); JLeaf (VInt 2)])].

(** Three sources that share the column [id]; [A] and [B] also have
    [v], on which they disagree for [id = 1], and [C] does not. *)
Definition row_a : gmap string value := {[ "id" := VInt 1; "v" := VStr "a" ]}.
Definition row_b : gmap string value := {[ "id" := VInt 1; "v" := VStr "b" ]}.
Definition row_c : gmap string value := {[ "id" := VInt 1 ]}.

Definition item_a : aligned_item :=
  {| file := "A"; data := Tabular (mkDataFrame ["id"; "v"] [row_a]) |}.
Definition item_b : aligned_item :=
  {| file := "B"; data := Tabular (mkDataFrame ["id"; "v"] [row_b]) |}.
Definition item_c : aligned_item :=
  {| file := "C"; data := Tabular (mkDataFrame ["id"] [row_c]) |}.

(** [B] with the value of [A] in [v]. *)
Definition item_b_agreeing : aligned_item :=
  {| file := "B"; data := Tabular (mkDataFrame ["id"; "v"] [row_a]) |}.

(** The same sources with a [timestamp] column; the timestamp of [C]
    is no date. *)
Definition row_ta : gmap string value :=
  {[ "id" := VInt 1; "v" := VStr "a"; "timestamp" := VStr "2024-01-01" ]}.
Definition row_tb : gmap string value :=
  {[ "id" := VInt 1; "v" := VStr "b"; "timestamp" := VStr "2024-02-01" ]}.
Definition row_tc : gmap string value :=
  {[ "id" := VInt 1; "timestamp" := VStr "yesterday" ]}.

Definition item_ta : aligned_item :=
  {| file := "A"; data := Tabular (mkDataFrame ["id"; "v"; "timestamp"] [row_ta]) |}.
Definition item_tb : aligned_item :=
  {| file := "B"; data := Tabular (mkDataFrame ["id"; "v"; "timestamp"] [row_tb]) |}.
Definition item_tc : aligned_item :=
  {| file := "C"; data := Tabular (mkDataFrame ["id"; "timestamp"] [row_tc]) |}.

End Examples.

(** ** Type verification *)

Module Types.
Import Metadata.

(** [if current_path not in field_types: field_types[current_path] = set()]
    followed by [field_types[current_path].add(dtype)]. *)
Definition add_type (p dtype : string) (field_types : gmap string (gset string))
    : gmap string (gset string) :=
  <[p := default ∅ (field_types !! p) ∪ {[dtype]}]> field_types.

(** The dictionary [field_types], which the function updates in place, is
    passed through. *)
Fixpoint collect_field_types_in_data_structure (data : json)
    (field_types : gmap string (gset string)) (path : string)
    : gmap string (gset string) :=
  match data with
  | JDict kvs =>
      (fix items (kvs : list (string * json)) (field_types : gmap string (gset string)) :=
         match kvs with
         | [] => field_types
         | (key, val) :: rest =>
             let cp := current_path path key in
             items rest
               match val with
               | JLeaf v => add_type cp (type_name v) field_types
               | _ => collect_field_types_in_data_structure val field_types cp
               end
         end) kvs field_types
  | JList l =>
      (fix each (l : list json) (field_types : gmap string (gset string)) :=
         match l with
         | [] => field_types
         | item :: rest =>
             each rest (collect_field_types_in_data_structure item field_types path)
         end) l field_types
  | JLeaf _ => field_types
  end.

(** The first loop of [verify_data_types]: the types seen for every
    field over all fragments. *)
Definition field_types_of `{Pandas} (resolved_data : list aligned_item)
    : gmap string (gset string) :=
  foldl (fun (field_types : gmap string (gset string)) item =>
           match data item with
           | Tabular df =>
               foldl (fun (field_types : gmap string (gset string)) c =>
                        add_type c (series_dtype (Frame.column c (rows df))) field_types)
                     field_types (columns df)
           | Nested j => collect_field_types_in_data_structure j field_types ""
           end)
        ∅ resolved_data.

(** [list(types)] lists a set in an order of its own. *)
Definition verify_data_types `{Pandas} (resolved_data : list aligned_item)
    : gmap string (list string) :=
  (fun types : gset string => elements types)
    <$> filter (fun ft : string * gset string => (1 < size ft.2)%nat)
               (field_types_of resolved_data).

End Types.

(** ** More notions the properties are stated with *)

Module SpecMore.
Import Metadata Spec.

(** Type [t] is seen for field [p] in one fragment: as the dtype of the
    column [p] of a table, or as the type of a leaf under the path [p] of
    a nested structure. *)
Definition seen_in `{Pandas} (item : aligned_item) (p t : string) : Prop :=
  match data item with
  | Tabular df => p ∈ columns df /\ t = series_dtype (Frame.column p (rows df))
  | Nested j => exists v, (p, v) ∈ keyed_leaves j "" /\ t = type_name v
  end.

(** The types recorded for field [p]. *)
Definition types_at (field_types : gmap string (gset string)) (p : string)
    : gset string :=
  default ∅ (field_types !! p).

Definition note (field_types : gmap string (gset string)) (pv : string * value)
    : gmap string (gset string) :=
  Types.add_type pv.1 (type_name pv.2) field_types.

(** No field is recorded with an empty set of types. *)
Definition populated (field_types : gmap string (gset string)) : Prop :=
  forall p s, field_types !! p = Some s -> s <> ∅.

(** What one column, and one fragment, adds to the recorded types. *)
Definition note_column `{Pandas} (rs : list (gmap string value))
    (ft : gmap string (gset string)) (c : string) : gmap string (gset string) :=
  Types.add_type c (series_dtype (Frame.column c rs)) ft.

Definition note_item `{Pandas} (ft : gmap string (gset string)) (item : aligned_item)
    : gmap string (gset string) :=
  match data item with
  | Tabular df => foldl (note_column (rows df)) ft (columns df)
  | Nested j => Types.collect_field_types_in_data_structure j ft ""
  end.

End SpecMore.

(** ** More notions on resolution *)

Module ResolveSpec.
Import Spec.

(** The table a ranking strategy makes when it goes through: the tables
    tagged with source and rank in column [col], put together, sorted on
    [col], the first row of every key kept, the two tags dropped. *)
Definition ranked_out `{Pandas} (col : string) (ascending : bool) (rank : string -> Z)
    (srcs : list (string * DataFrame)) : DataFrame :=
  Frame.drop ["_source"; col]
    (Frame.drop_duplicates (elements (key_set {["_source"; col]} srcs))
       (Frame.sort_values col ascending
          (Frame.concat (tag_all (rank_tag col rank) srcs)))).

(** Two fragments that differ at most in the order of the rows of a
    table, and two lists of such fragments. *)
Definition same_rows (x y : aligned_item) : Prop :=
  file x = file y
  /\ match data x, data y with
     | Tabular d, Tabular d' => columns d = columns d' /\ rows d ≡ₚ rows d'
     | Nested j, Nested j' => j = j'
     | _, _ => False
     end.

Definition same_up_to_row_order (a b : list aligned_item) : Prop :=
  Forall2 same_rows a b.

End ResolveSpec.

(** ** Dictionaries in insertion order *)

(** A Python dictionary whose order is observed, as the list of its
    items in insertion order. *)
Module Dict.
Section dict.
Context {V : Type}.

(** [d[k] = v]: the value of an existing key is replaced where it
    stands, a new key goes last. *)
Fixpoint setitem (k : string) (v : V) (d : list (string * V)) : list (string * V) :=
  match d with
  | [] => [(k, v)]
  | (k', v') :: d =>
      if decide (k' = k) then (k, v) :: d else (k', v') :: setitem k v d
  end.

(** [d.get(k)] *)
Fixpoint getitem (k : string) (d : list (string * V)) : option V :=
  match d with
  | [] => None
  | (k', v') :: d => if decide (k' = k) then Some v' else getitem k d
  end.

(** The dictionary filled with the items of [l], one after the other. *)
Definition from_items (l : list (string * V)) : list (string * V) :=
  foldl (fun d kv => setitem kv.1 kv.2 d) [] l.

End dict.
End Dict.

(** ** Renaming and converting the fields of nested data *)

Module Structure.
Import Metadata.

Fixpoint rename_fields_in_data_structure (data : json)
    (field_name_mapping : gmap string string) : json :=
  match data with
  | JDict kvs =>
      JDict
        ((fix items (kvs : list (string * json)) (new_data : list (string * json)) :=
            match kvs with
            | [] => new_data
            | (key, value) :: rest =>
                let new_key := default key (field_name_mapping !! key) in
                items rest
                  (Dict.setitem new_key
                     (rename_fields_in_data_structure value field_name_mapping)
                     new_data)
            end) kvs [])
  | JList l =>
      JList
        ((fix each (l : list json) : list json :=
            match l with
            | [] => []
            | item :: rest =>
                rename_fields_in_data_structure item field_name_mapping :: each rest
            end) l)
  | JLeaf _ => data
  end.

(** The text [str] makes of a dictionary or of a list is not pinned
    down here. *)
Class Containers : Type := {
  str_container : json -> string
}.

(** [type(data).__name__] *)
Definition node_type_name (data : json) : string :=
  match data with
  | JDict _ => "dict"
  | JList _ => "list"
  | JLeaf v => type_name v
  end.

(** What [log_error] receives when the value is any node of a
    structure. *)
Record report : Type := Report {
  report_data : json;
  report_type : string;
  report_error : Convert.exn
}.

Definition of_value_report (r : Convert.report) : report :=
  {| report_data := JLeaf (Convert.report_value r);
     report_type := Convert.report_type r;
     report_error := Convert.report_error r |}.

(** [convert_value_to_type] on a node of a structure.  A leaf goes
    through [Convert.convert_value_to_type]; on a dictionary or a list
    [int], [float] and [strptime] raise [TypeError], which is reported,
    and [str] gives its text. *)
Definition convert_value_to_type `{Convert.Builtins} `{Containers}
    (data : json) (new_type : string) : json * list report :=
  match data with
  | JLeaf v =>
      let r := Convert.convert_value_to_type v new_type in
      (JLeaf r.1, map of_value_report r.2)
  | _ =>
      let not_a := ", not '" ++ node_type_name data ++ "'" in
      if decide (new_type = "int") then
        (data, [Report data new_type
                  (Convert.TypeError ("int() argument must be a string, a bytes-like object or a real number" ++ not_a))])
      else if decide (new_type = "float") then
        (data, [Report data new_type
                  (Convert.TypeError ("float() argument must be a string or a real number" ++ not_a))])
      else if decide (new_type = "str") then
        (JLeaf (VStr (str_container data)), [])
      else if decide (new_type = "datetime") then
        (data, [Report data new_type
                  (Convert.TypeError ("strptime() argument 1 must be str" ++ not_a))])
      else (data, [])
  end.

(** The new structure, with the reports sent to [log_error] on the
    way. *)
Fixpoint convert_field_types_in_data_structure `{Convert.Builtins} `{Containers}
    (data : json) (field_type_mapping : gmap string string) (path : string)
    : json * list report :=
  match data with
  | JDict kvs =>
      let r :=
        (fix items (kvs : list (string * json))
                   (acc : list (string * json) * list report) :=
           match kvs with
           | [] => acc
           | (key, value) :: rest =>
               let cp := current_path path key in
               let new_value :=
                 match field_type_mapping !! cp with
                 | Some new_type => convert_value_to_type value new_type
                 | None =>
                     convert_field_types_in_data_structure value field_type_mapping cp
                 end in
               items rest (Dict.setitem key new_value.1 acc.1, (acc.2 ++ new_value.2)%list)
           end) kvs ([], []) in
      (JDict r.1, r.2)
  | JList l =>
      let r :=
        (fix each (l : list json) : list json * list report :=
           match l with
           | [] => ([], [])
           | item :: rest =>
               let new_item :=
                 convert_field_types_in_data_structure item field_type_mapping path in
               let new_rest := each rest in
               (new_item.1 :: new_rest.1, (new_item.2 ++ new_rest.2)%list)
           end) l in
      (JList r.1, r.2)
  | JLeaf _ => (data, [])
  end.

End Structure.

(** ** Converting the types of resolved data *)

Module DataTypes.

(** [Series.astype], which this module calls and does not pin down. *)
Class Astype : Type := {
  series_astype : list (option value) -> string -> Convert.exn + list (option value)
}.

(** A conversion that goes through answers cell by cell. *)
Class AstypeSpec (A : Astype) : Prop := {
  series_astype_length : forall s new_type s',
    series_astype s new_type = inr s' -> length s' = length s
}.

(** What [log_error] receives: the failed conversion of a column, or
    the report of a failed conversion inside a structure. *)
Inductive log_entry : Type :=
  | FieldError (field new_type : string) (e : Convert.exn)
  | ValueError (r : Structure.report).

(** [df[field] = df[field].astype(new_type)] inside its [try]: a table
    without the column raises [KeyError]. *)
Definition convert_column `{Astype} (df : DataFrame) (field new_type : string)
    : DataFrame * list log_entry :=
  if decide (field ∈ columns df) then
    match series_astype (Frame.column field (rows df)) new_type with
    | inr s => (Frame.assign_column field s df, [])
    | inl e => (df, [FieldError field new_type e])
    end
  else (df, [FieldError field new_type (Convert.OtherError "KeyError" field)]).

(** The loop over [user_conversions.items()] on one table. *)
Definition convert_table `{Astype} (df : DataFrame)
    (user_conversions : list (string * string)) : DataFrame * list log_entry :=
  foldl (fun (acc : DataFrame * list log_entry) '(field, new_type) =>
           let r := convert_column acc.1 field new_type in
           (r.1, (acc.2 ++ r.2)%list))
        (df, []) user_conversions.

(** The body of the loop over [resolved_data]. *)
Definition convert_item `{Astype} `{Convert.Builtins} `{Structure.Containers}
    (user_conversions : list (string * string)) (item : aligned_item)
    : aligned_item * list log_entry :=
  match data item with
  | Tabular df =>
      let r := convert_table df user_conversions in
      ({| file := file item; data := Tabular r.1 |}, r.2)
  | Nested j =>
      let r := Structure.convert_field_types_in_data_structure j
                 (list_to_map user_conversions) "" in
      ({| file := file item; data := Nested r.1 |}, map ValueError r.2)
  end.

(** [user_conversions] is the list of the items of the dictionary, in
    its order.  The fragments are updated in place and the list handed
    back; here the updated list is returned with the reports. *)
Definition convert_data_types `{Astype} `{Convert.Builtins} `{Structure.Containers}
    (resolved_data : list aligned_item) (user_conversions : list (string * string))
    : list aligned_item * list log_entry :=
  let rs := map (convert_item user_conversions) resolved_data in
  (rs.*1, List.concat rs.*2).

End DataTypes.

Module DataTypesSpec.

(** What the conversions of the columns [fields] leave of a table: the
    column labels, the number of rows, and the cells of every other
    column. *)
Definition framed (fields : list string) (df df' : DataFrame) : Prop :=
  columns df' = columns df
  /\ length (rows df') = length (rows df)
  /\ forall c, c ∉ fields -> Frame.column c (rows df') = Frame.column c (rows df).

End DataTypesSpec.

(** ** Notions on nested data *)

Module StructureSpec.
Import Metadata.

(** The same structure with every dictionary key [k] replaced by
    [f k]. *)
Fixpoint rename_keys (f : string -> string) (data : json) : json :=
  match data with
  | JDict kvs =>
      JDict
        ((fix items (kvs : list (string * json)) : list (string * json) :=
            match kvs with
            | [] => []
            | (k, v) :: rest => (f k, rename_keys f v) :: items rest
            end) kvs)
  | JList l =>
      JList
        ((fix each (l : list json) : list json :=
            match l with
            | [] => []
            | item :: rest => rename_keys f item :: each rest
            end) l)
  | JLeaf v => JLeaf v
  end.

(** In every dictionary of the structure, the keys are still pairwise
    different after [f]. *)
Fixpoint distinct_after (f : string -> string) (data : json) : Prop :=
  match data with
  | JDict kvs =>
      NoDup (f <$> kvs.*1)
      /\ (fix all (kvs : list (string * json)) : Prop :=
            match kvs with
            | [] => True
            | (_, v) :: rest => distinct_after f v /\ all rest
            end) kvs
  | JList l =>
      (fix all (l : list json) : Prop :=
         match l with
         | [] => True
         | item :: rest => distinct_after f item /\ all rest
         end) l
  | JLeaf _ => True
  end.

(** What every Python structure is: no dictionary has a key twice. *)
Definition well_formed (data : json) : Prop := distinct_after (fun k => k) data.

(** Every dictionary key of the structure, at any depth. *)
Fixpoint all_keys (data : json) : list string :=
  match data with
  | JDict kvs =>
      (fix items (kvs : list (string * json)) : list string :=
         match kvs with
         | [] => []
         | (k, v) :: rest => (k :: all_keys v ++ items rest)%list
         end) kvs
  | JList l =>
      (fix each (l : list json) : list string :=
         match l with
         | [] => []
         | item :: rest => (all_keys item ++ each rest)%list
         end) l
  | JLeaf _ => []
  end.

(** Every dictionary key of the structure with its accumulated path
    and the value it holds, a leaf or not. *)
Fixpoint keyed_nodes (data : json) (path : string) : list (string * json) :=
  match data with
  | JDict kvs =>
      (fix items (kvs : list (string * json)) : list (string * json) :=
         match kvs with
         | [] => []
         | (k, v) :: rest =>
             let cp := current_path path k in
             ((cp, v) :: keyed_nodes v cp ++ items rest)%list
         end) kvs
  | JList l =>
      (fix each (l : list json) : list (string * json) :=
         match l with
         | [] => []
         | item :: rest => (keyed_nodes item path ++ each rest)%list
         end) l
  | JLeaf _ => []
  end.

(** The value a leaf at path [p] is to become, and the reports of
    getting there. *)
Definition converted_leaf `{Convert.Builtins} (field_type_mapping : gmap string string)
    (pv : string * value) : value * list Convert.report :=
  match field_type_mapping !! pv.1 with
  | Some new_type => Convert.convert_value_to_type pv.2 new_type
  | None => (pv.2, [])
  end.

(** What the conversion puts under a key of a dictionary met at
    [path]. *)
Definition new_value `{Convert.Builtins} `{Structure.Containers}
    (field_type_mapping : gmap string string) (path : string) (kv : string * json)
    : json * list Structure.report :=
  match field_type_mapping !! current_path path kv.1 with
  | Some new_type => Structure.convert_value_to_type kv.2 new_type
  | None =>
      Structure.convert_field_types_in_data_structure kv.2 field_type_mapping
        (current_path path kv.1)
  end.

(** The name a key gets under a mapping. *)
Definition new_name (field_name_mapping : gmap string string) (key : string) : string :=
  default key (field_name_mapping !! key).

End StructureSpec.

(** ** Overlapping fields *)

Module Overlaps.

(** One element of the list [overlaps]. *)
Record overlap : Type := Overlap {
  field_name : string;
  sources : list string;
  data_types : list (string * string);
  value_patterns : list (string * list string)
}.

(** The body of the inner loop of the first pass:
    [field_info[field_name][source] = field_meta], after an empty
    dictionary was put under a field name that is new. *)
Definition add_field (source : string)
    (field_info : list (string * list (string * field_meta)))
    (field : string * field_meta) : list (string * list (string * field_meta)) :=
  let field_info :=
    match Dict.getitem field.1 field_info with
    | None => Dict.setitem field.1 [] field_info
    | Some _ => field_info
    end in
  Dict.setitem field.1
    (Dict.setitem source field.2 (default [] (Dict.getitem field.1 field_info)))
    field_info.

(** The first pass.  [field_metadata] lists every source with the
    dictionary found under its ['metadata']. *)
Definition collect_field_info
    (field_metadata : list (string * list (string * field_meta)))
    : list (string * list (string * field_meta)) :=
  foldl (fun field_info (meta : string * list (string * field_meta)) =>
           foldl (add_field meta.1) field_info meta.2)
        [] field_metadata.

(** The record made for a field name that more than one source has. *)
Definition overlap_of (field_name : string) (sources : list (string * field_meta))
    : overlap :=
  let r :=
    foldl (fun (acc : list (string * string) * list (string * list string))
               (source : string * field_meta) =>
             let pattern := map type_name (sample_values source.2) in
             (Dict.setitem source.1 (dtype source.2) acc.1,
              Dict.setitem source.1 pattern acc.2))
          ([], []) sources in
  {| field_name := field_name;
     sources := sources.*1;
     data_types := r.1;
     value_patterns := r.2 |}.

Definition identify_overlaps
    (field_metadata : list (string * list (string * field_meta))) : list overlap :=
  omap (fun field : string * list (string * field_meta) =>
          if decide (1 < length field.2)%nat
          then Some (overlap_of field.1 field.2)
          else None)
       (collect_field_info field_metadata).

End Overlaps.

Module OverlapsSpec.

(** The sources that have field [f], in order, each with its entry for
    the field. *)
Definition holders (field_metadata : list (string * list (string * field_meta)))
    (f : string) : list (string * field_meta) :=
  omap (fun meta : string * list (string * field_meta) =>
          pair meta.1 <$> Dict.getitem f meta.2) field_metadata.

(** Every field name of every source, in the order of the sources and
    of their fields. *)
Definition field_names (field_metadata : list (string * list (string * field_meta)))
    : list string :=
  List.concat (map (fun meta : string * list (string * field_meta) => meta.2.*1)
                 field_metadata).

(** What the first pass meets, one after the other: a field name with
    the source it is met in and its entry there. *)
Definition entries (field_metadata : list (string * list (string * field_meta)))
    : list (string * (string * field_meta)) :=
  List.concat
    (map (fun meta : string * list (string * field_meta) =>
            map (fun field : string * field_meta => (field.1, (meta.1, field.2))) meta.2)
       field_metadata).

(** One step of the first pass on such a pair. *)
Definition add_entry (field_info : list (string * list (string * field_meta)))
    (e : string * (string * field_meta)) : list (string * list (string * field_meta)) :=
  Overlaps.add_field e.2.1 field_info (e.1, e.2.2).

(** The entries met for field [f]. *)
Definition entries_of (f : string) (es : list (string * (string * field_meta)))
    : list (string * field_meta) :=
  (filter (fun e : string * (string * field_meta) => e.1 = f) es).*2.

(** The dictionaries are what Python dictionaries are: no source is
    listed twice, and no source lists a field twice. *)
Definition proper (field_metadata : list (string * list (string * field_meta))) : Prop :=
  NoDup field_metadata.*1
  /\ Forall (fun meta : string * list (string * field_meta) => NoDup meta.2.*1)
       field_metadata.

End OverlapsSpec.

(** ** Saving and loading the mapping dictionary *)

Module Mappings.
Import Convert.

(** What this module takes from the operating system and from the YAML
    library without fixing it: the order in which a directory lists its
    entries, and the text of a document. *)
Class OS : Type := {
  listdir : gmap string string -> list string
}.

Class Yaml : Type := {
  document : Type;
  dump : document -> string;
  safe_load : string -> exn + document
}.

(** The directory [mappings]: [None] while it does not exist, else its
    files, each a name with a text. *)
Definition directory : Type := option (gmap string string).

(** A failure stops the function; a result is handed on. *)
Definition and_then {A B} (m : exn + A) (k : A -> exn + B) : exn + B :=
  match m with
  | inl e => inl e
  | inr x => k x
  end.

Notation "'let*' x := m 'in' k" := (and_then m (fun x => k))
  (at level 10, x name, m at level 100, k at level 200, only parsing).

Definition file_prefix : string := "mapping_dictionary_v".
Definition file_suffix : string := ".yaml".

(** [x.startswith(p)] and [x.endswith(p)] *)
Definition startswith (x p : string) : bool := String.prefix p x.

Definition endswith (x p : string) : bool :=
  (String.length p <=? String.length x)%nat
  && String.eqb (substring (String.length x - String.length p) (String.length p) x) p.

(** [x[len(a):-len(b)]] *)
Definition between (a b x : string) : string :=
  substring (String.length a) (String.length x - String.length b - String.length a) x.

Definition is_mapping_file (f : string) : Prop :=
  startswith f file_prefix && endswith f file_suffix = true.

#[export] Instance is_mapping_file_dec f : Decision (is_mapping_file f).
Proof. unfold is_mapping_file. apply _. Defined.

(** The comprehension over [os.listdir('mappings')], which raises when
    the directory does not exist. *)
Definition list_mapping_files `{OS} (d : directory) : exn + list string :=
  match d with
  | None => inl (OtherError "FileNotFoundError" "No such file or directory: 'mappings'")
  | Some files => inr (filter is_mapping_file (listdir files))
  end.

(** The sort key: [int(x[len('mapping_dictionary_v'):-len('.yaml')])] *)
Definition version_key (x : string) : option Z :=
  int_of_str (between file_prefix file_suffix x).

(** A stable sort on the keys, as [list.sort] is: among equal keys the
    earlier element stays first. *)
Fixpoint insert_by_key (kx : Z * string) (l : list (Z * string)) : list (Z * string) :=
  match l with
  | [] => [kx]
  | ky :: l' => if decide (kx.1 <= ky.1) then kx :: l else ky :: insert_by_key kx l'
  end.

Definition sort_by_key (l : list (Z * string)) : list (Z * string) :=
  foldr insert_by_key [] l.

(** [mapping_files.sort(key=...)]: the keys are computed first, and a
    name whose version is no integer literal makes [int] raise. *)
Definition sort_mapping_files (mapping_files : list string) : exn + list string :=
  match mapM (fun x => (fun k => (k, x)) <$> version_key x) mapping_files with
  | Some keyed => inr (sort_by_key keyed).*2
  | None => inl (ValueError "invalid literal for int() with base 10")
  end.

(** [mapping_files[-1]] *)
Definition latest (mapping_files : list string) : exn + string :=
  match last mapping_files with
  | Some f => inr f
  | None => inl (OtherError "IndexError" "list index out of range")
  end.

(** The directory after the call. *)
Definition save_mapping_dictionary `{Yaml} (mapping_dictionary : document) (version : Z)
    (d : directory) : directory :=
  let file_name := file_prefix ++ str_of_int version ++ file_suffix in
  Some (<[file_name := dump mapping_dictionary]> (default ∅ d)).

Definition load_mapping_dictionary `{OS} `{Yaml} (d : directory) : exn + document :=
  let* mapping_files := list_mapping_files d in
  match mapping_files with
  | [] => inl (OtherError "FileNotFoundError" "No mapping dictionary found.")
  | _ :: _ =>
      let* mapping_files := sort_mapping_files mapping_files in
      let* latest_file := latest mapping_files in
      match default ∅ d !! latest_file with
      | Some text => safe_load text
      | None => inl (OtherError "FileNotFoundError" latest_file)
      end
  end.

Definition version_mapping_dictionary `{OS} (d : directory) : exn + Z :=
  let* mapping_files := list_mapping_files d in
  match mapping_files with
  | [] => inr 1
  | _ :: _ =>
      let* mapping_files := sort_mapping_files mapping_files in
      let* latest_file := latest mapping_files in
      match version_key latest_file with
      | Some version => inr (version + 1)
      | None => inl (ValueError "invalid literal for int() with base 10")
      end
  end.

End Mappings.

Module MappingsSpec.
Import Mappings.

(** A directory lists each of its entries once. *)
Class OSSpec (O : OS) : Prop := {
  listdir_elem : forall files name, name ∈ listdir files <-> is_Some (files !! name);
  listdir_NoDup : forall files, NoDup (listdir files)
}.

(** A document that was dumped loads as it was. *)
Class YamlSpec (Y : Yaml) : Prop := {
  load_dump : forall doc : document, safe_load (dump doc) = inr doc
}.

(** The name [save_mapping_dictionary] gives the file of a version. *)
Definition file_name (version : Z) : string :=
  file_prefix ++ Convert.str_of_int version ++ file_suffix.

(** The mapping files of a directory with their versions. *)
Definition stored_version (files : gmap string string) (name : string) (v : Z) : Prop :=
  is_Some (files !! name) /\ is_mapping_file name /\ version_key name = Some v.

(** A name with its version in front, for a name that has one. *)
Definition with_key (x : string) : Z * string := (default 0 (version_key x), x).

(** The names a directory lists that are names of mapping files. *)
Definition mapping_files `{OS} (files : gmap string string) : list string :=
  filter is_mapping_file (listdir files).

(** A list in the order of its keys. *)
Definition key_sorted (l : list (Z * string)) : Prop :=
  StronglySorted (fun a b : Z * string => a.1 <= b.1) l.

End MappingsSpec.

(** ** More inputs for worked examples *)

Module MoreExamples.

(** [{"a": {"b": 1}, "c": [{"a": 2}]}] *)
Definition nested_ab : json :=
  JDict [("a", JDict [("b", JLeaf (VInt 1))]);
         ("c", JList [JDict [("a", JLeaf (VInt 2))]])].

(** [{"a": "x", "b": "y"}] and its reverse. *)
Definition a_to_x : gmap string string := {[ "a" := "x"; "b" := "y" ]}.
Definition x_to_a : gmap string string := {[ "x" := "a"; "y" := "b" ]}.

(** [{"id": "7", "tags": [{"n": "12"}, {"n": "twelve"}]}], and the
    mapping [{"id": "int", "tags.n": "int"}]. *)
Definition readings : json :=
  JDict [("id", JLeaf (VStr "7"));
         ("tags", JList [JDict [("n", JLeaf (VStr "12"))];
                         JDict [("n", JLeaf (VStr "twelve"))]])].

Definition to_int : gmap string string := {[ "id" := "int"; "tags.n" := "int" ]}.

(** [{"id": "str", "tags": "str"}] *)
Definition to_str : gmap string string := {[ "id" := "str"; "tags" := "str" ]}.

(** Two sources that both have a field [id], with different types. *)
Definition two_sources : list (string * list (string * field_meta)) :=
  [("A", [("id", FieldMeta "int64" [VInt 1]); ("v", FieldMeta "object" [VStr "a"])]);
   ("B", [("id", FieldMeta "object" [VStr "1"; VNone])])].

(** Stand-ins on which examples run: the text of a container is its
    type name, and [astype] knows the one target ["str"], on columns of
    integers. *)
#[export] Instance containers : Structure.Containers := {|
  Structure.str_container := Structure.node_type_name
|}.

Definition cell_to_str (c : option value) : option value :=
  match c with
  | Some (VInt n) => Some (VStr (Convert.str_of_int n))
  | c => c
  end.

#[export] Instance astype : DataTypes.Astype := {|
  DataTypes.series_astype := fun s new_type =>
    if decide (new_type = "str") then inr (map cell_to_str s)
    else inl (Convert.TypeError "data type not understood")
|}.

(** A directory that lists its entries in the order of their names,
    and documents that are their own text. *)
#[export] Instance os : Mappings.OS := {|
  Mappings.listdir := fun files => elements (dom files)
|}.

#[export] Instance yaml : Mappings.Yaml := {|
  Mappings.document := string;
  Mappings.dump := fun doc => doc;
  Mappings.safe_load := fun text => inr text
|}.

(** Versions 2 and 10, and a file that is no mapping file. *)
Definition two_versions : gmap string string :=
  {[ "mapping_dictionary_v2.yaml" := "two";
     "mapping_dictionary_v10.yaml" := "ten";
     "notes.txt" := "" ]}.

End MoreExamples.

(** * Properties *)

(** ** The stand-in meets what is assumed of pandas *)

Module ReferenceFacts.
Import Reference.

Lemma key_leb_total asc a b : key_leb asc a b = true \/ key_leb asc b a = true.
Proof.
  destruct a as [x|], b as [y|]; cbn; auto.
  destruct asc; rewrite !Z.leb_le; lia.
Qed.

Lemma key_leb_trans asc a b c :
  key_leb asc a b = true -> key_leb asc b c = true -> key_leb asc a c = true.
Proof.
  destruct a as [x|], b as [y|], c as [z|]; cbn; try done.
  destruct asc; rewrite !Z.leb_le; lia.
Qed.

#[export] Instance key_le_total by_ asc : Total (key_le by_ asc).
Proof. intros a b. apply key_leb_total. Qed.

#[export] Instance key_le_transitive by_ asc : Transitive (key_le by_ asc).
Proof. intros a b c. apply key_leb_trans. Qed.

Lemma key_le_row_le by_ asc a b : key_le by_ asc a b -> row_le by_ asc a b.
Proof.
  unfold key_le, row_le. intros Hle x y Hx Hy. rewrite Hx, Hy in Hle. cbn in Hle.
  destruct asc; by apply Z.leb_le.
Qed.

#[export] Instance pandas_spec : PandasSpec pandas.
Proof.
  split.
  - intros by_ asc l. apply merge_sort_Permutation.
  - intros by_ asc l. cbn [sort_rows pandas]. unfold sort.
    pose proof (StronglySorted_merge_sort (key_le by_ asc) l) as Hs.
    induction Hs as [|x t Ht IH Hx]; constructor; [done|].
    eapply Forall_impl; [exact Hx|]. intros b. apply key_le_row_le.
  - intros s. apply length_map.
Qed.

End ReferenceFacts.

(** ** Value conversion *)

Module ConvertFacts.
Import Convert Spec.

Lemma lstrip_no_space s : no_space s = true -> lstrip s = s.
Proof.
  destruct s as [|c s]; simpl; [done|].
  intros [Hc _]%andb_true_iff. by destruct (is_space c).
Qed.

Lemma rstrip_no_space s : no_space s = true -> rstrip s = s.
Proof.
  induction s as [|c s IH]; simpl; [done|].
  intros [Hc Hs]%andb_true_iff. rewrite (IH Hs).
  destruct s; [|done]. by destruct (is_space c).
Qed.

Lemma digit_cases d :
  0 <= d <= 9 ->
  d = 0 \/ d = 1 \/ d = 2 \/ d = 3 \/ d = 4 \/ d = 5 \/ d = 6 \/ d = 7 \/ d = 8 \/ d = 9.
Proof. lia. Qed.

Lemma digit_val_char d : 0 <= d <= 9 -> digit_val (digit_char d) = Some d.
Proof. intros Hd. destruct (digit_cases d Hd) as [->|[->|[->|[->|[->|[->|[->|[->|[->| ->]]]]]]]]]; reflexivity. Qed.

Lemma digit_char_no_space d : 0 <= d <= 9 -> is_space (digit_char d) = false.
Proof. intros Hd. destruct (digit_cases d Hd) as [->|[->|[->|[->|[->|[->|[->|[->|[->| ->]]]]]]]]]; reflexivity. Qed.

Lemma digit_char_not_sign d :
  0 <= d <= 9 -> digit_char d <> "-"%char /\ digit_char d <> "+"%char.
Proof. intros Hd. destruct (digit_cases d Hd) as [->|[->|[->|[->|[->|[->|[->|[->|[->| ->]]]]]]]]]; by split. Qed.

Lemma mod10_digit n : 0 <= n mod 10 <= 9.
Proof. pose proof (Z.mod_pos_bound n 10). lia. Qed.

(** Reading back the digits written in front of [acc] continues on
    [acc] with the number written. *)
Lemma parse_digits_go fuel : forall n acc b,
  0 <= n < 2 ^ Z.of_nat (S fuel) ->
  parse_digits (digits_go (S fuel) n acc) 0 b = parse_digits acc n true.
Proof.
  induction fuel as [|fuel IH]; intros n acc b Hn.
  - cbn [digits_go]. change (2 ^ Z.of_nat 1) with 2 in Hn.
    assert (n / 10 = 0) as Hq by (apply Z.div_small; lia).
    destruct (decide (n / 10 = 0)); [|done].
    cbn [parse_digits]. rewrite digit_val_char by apply mod10_digit.
    f_equal. rewrite Z.mod_small; lia.
  - remember (S fuel) as f eqn:Hf. cbn [digits_go].
    destruct (decide (n / 10 = 0)) as [Hq|Hq].
    + cbn [parse_digits]. rewrite digit_val_char by apply mod10_digit.
      f_equal. pose proof (Z.div_mod n 10). lia.
    + subst f. rewrite IH.
      * cbn [parse_digits]. rewrite digit_val_char by apply mod10_digit.
        f_equal. pose proof (Z.div_mod n 10). lia.
      * rewrite (Nat2Z.inj_succ (S fuel)), Z.pow_succ_r in Hn by lia.
        split; [apply Z.div_pos; lia|].
        apply Z.div_lt_upper_bound; lia.
Qed.

Lemma digits_go_head fuel : forall n acc,
  exists d t, 0 <= d <= 9 /\ digits_go (S fuel) n acc = String (digit_char d) t.
Proof.
  induction fuel as [|fuel IH]; intros n acc.
  - cbn [digits_go]. exists (n mod 10), acc. split; [apply mod10_digit|].
    by destruct (decide (n / 10 = 0)).
  - remember (S fuel) as f eqn:Hf. cbn [digits_go].
    destruct (decide (n / 10 = 0)) as [Hq|Hq].
    + exists (n mod 10), acc. split; [apply mod10_digit|done].
    + subst f. apply IH.
Qed.

Lemma digits_go_no_space fuel : forall n acc,
  no_space acc = true -> no_space (digits_go fuel n acc) = true.
Proof.
  induction fuel as [|fuel IH]; intros n acc Hacc; [done|].
  cbn [digits_go].
  assert (no_space (String (digit_char (n mod 10)) acc) = true) as H1.
  { cbn [no_space]. by rewrite digit_char_no_space, Hacc by apply mod10_digit. }
  destruct (decide (n / 10 = 0)); [done|]. by apply IH.
Qed.

Lemma digits_bound n : 0 <= n -> 0 <= n < 2 ^ Z.of_nat (S (Z.to_nat (Z.log2 n))).
Proof.
  intros Hn. split; [done|].
  rewrite Nat2Z.inj_succ, Z2Nat.id by apply Z.log2_nonneg.
  destruct (decide (n = 0)) as [->|Hz]; [done|].
  apply Z.log2_spec. lia.
Qed.

Lemma parse_digits_digits n b : 0 <= n -> parse_digits (digits n) 0 b = Some n.
Proof.
  intros Hn. unfold digits. by rewrite parse_digits_go by by apply digits_bound.
Qed.

(** [int(str(n)) == n] *)
Lemma int_of_str_of_int n : int_of_str (str_of_int n) = Some n.
Proof.
  unfold int_of_str, str_of_int. destruct (decide (n < 0)) as [Hneg|Hpos].
  - assert (no_space (String "-" (digits (- n))) = true) as Hns.
    { cbn [no_space]. apply andb_true_iff. split; [reflexivity|].
      by apply digits_go_no_space. }
    rewrite (lstrip_no_space _ Hns), (rstrip_no_space _ Hns).
    destruct (decide ("-"%char = "-"%char)); [|done].
    rewrite parse_digits_digits by lia. simpl. f_equal. lia.
  - assert (no_space (digits n) = true) as Hns by by apply digits_go_no_space.
    rewrite (lstrip_no_space _ Hns), (rstrip_no_space _ Hns).
    pose proof (parse_digits_digits n false ltac:(lia)) as Hp.
    unfold digits in *.
    destruct (digits_go_head (Z.to_nat (Z.log2 n)) n "") as (d & t & Hd & Heq).
    rewrite Heq in *. destruct (digit_char_not_sign d Hd) as [H1 H2].
    destruct (decide (digit_char d = "-"%char)); [done|].
    destruct (decide (digit_char d = "+"%char)); done.
Qed.

Example str_of_int_negative : str_of_int (-1203) = "-1203".
Proof. reflexivity. Qed.

Example int_of_str_padded : int_of_str " +1_000 " = Some 1000.
Proof. reflexivity. Qed.

Example int_of_str_double_underscore : int_of_str "1__0" = None.
Proof. reflexivity. Qed.

Example convert_bool_to_int :
  convert_value_to_type (H := Reference.builtins) (VBool true) "int" = (VInt 1, []).
Proof. reflexivity. Qed.

Example convert_none_to_int_reports :
  exists e, convert_value_to_type (H := Reference.builtins) VNone "int"
            = (VNone, [Report VNone "int" (TypeError e)]).
Proof. eexists. reflexivity. Qed.


End ConvertFacts.

(** ** Metadata extraction *)

Module MetadataFacts.
Import Metadata Extract Spec.

(** The traversal records the keyed leaves, one after the other, and
    does nothing else. *)
Lemma traverse_fold data : forall path metadata,
  traverse data path metadata = foldl record metadata (keyed_leaves data path).
Proof.
  induction data as [kvs IH|l IH|v] using json_ind; intros path metadata; [| |done].
  - cbn [traverse keyed_leaves]. revert metadata.
    induction IH as [|[k val] rest Hval _ IHrest]; intros metadata; [done|].
    rewrite foldl_app, <- IHrest. f_equal.
    destruct val; [apply Hval|apply Hval|done].
  - cbn [traverse keyed_leaves]. revert metadata.
    induction IH as [|item rest Hitem _ IHrest]; intros metadata; [done|].
    by rewrite foldl_app, <- IHrest, <- Hitem.
Qed.

Lemma record_leaf_lookup_ne p q v (metadata : gmap string field_meta) :
  q <> p -> record_leaf q v metadata !! p = metadata !! p.
Proof.
  intros Hne. unfold record_leaf. destruct (metadata !! q) as [fm|].
  - case_decide; [by rewrite lookup_insert_ne|done].
  - by rewrite lookup_insert_ne.
Qed.

Lemma record_leaf_lookup p v (metadata : gmap string field_meta) :
  record_leaf p v metadata !! p = add_samples (metadata !! p) [v].
Proof.
  unfold record_leaf, add_samples, max_sample_values.
  destruct (metadata !! p) as [fm|] eqn:Hp.
  - case_decide as Hlen.
    + rewrite lookup_insert_eq. do 2 f_equal.
      destruct (5 - length (sample_values fm))%nat eqn:E; [exfalso; lia|].
      simpl. by rewrite take_nil.
    + rewrite Hp. destruct fm as [dt sv]. simpl in *. do 2 f_equal.
      replace (5 - length sv)%nat with 0%nat by lia.
      by rewrite app_nil_r.
  - by rewrite lookup_insert_eq.
Qed.

Lemma add_samples_cons o v vs :
  add_samples (add_samples o [v]) vs = add_samples o (v :: vs).
Proof.
  unfold add_samples, max_sample_values. destruct o as [[dt sv]|]; simpl; [|done].
  do 2 f_equal. destruct (le_lt_dec 5 (length sv)) as [Hge|Hlt].
  - replace (5 - length sv)%nat with 0%nat by lia. simpl. rewrite app_nil_r.
    replace (5 - length sv)%nat with 0%nat by lia. simpl. by rewrite app_nil_r.
  - destruct (5 - length sv)%nat as [|k] eqn:E; [exfalso; lia|].
    simpl. rewrite take_nil, <- app_assoc. simpl. do 3 f_equal.
    rewrite length_app. simpl. lia.
Qed.

Lemma values_at_cons p q v leaves :
  values_at p ((q, v) :: leaves)
  = if decide (q = p) then v :: values_at p leaves else values_at p leaves.
Proof.
  unfold values_at. rewrite filter_cons. simpl. by case_decide.
Qed.

Lemma foldl_record_lookup leaves : forall (metadata : gmap string field_meta) p,
  foldl record metadata leaves !! p = add_samples (metadata !! p) (values_at p leaves).
Proof.
  induction leaves as [|[q v] leaves IH]; intros metadata p.
  - unfold values_at. simpl. destruct (metadata !! p) as [[dt sv]|]; simpl; [|done].
    by rewrite take_nil, app_nil_r.
  - cbn [foldl]. rewrite IH, values_at_cons. unfold record. simpl.
    case_decide as Hq.
    + subst q. by rewrite record_leaf_lookup, add_samples_cons.
    + by rewrite record_leaf_lookup_ne.
Qed.

(** The entry of every path, in closed form. *)
Lemma extract_nested_lookup `{Pandas} data p :
  extract_fields_metadata (Nested data) !! p
  = add_samples None (values_at p (keyed_leaves data "")).
Proof.
  unfold extract_fields_metadata. by rewrite traverse_fold, foldl_record_lookup, lookup_empty.
Qed.

Example extract_seven_tags :
  extract_fields_metadata (H := Reference.pandas) (Nested Examples.seven_tags)
  = {[ "items.tag" := FieldMeta "int" [VInt 1; VInt 1; VInt 2; VInt 3; VInt 1] ]}.
Proof. vm_compute. reflexivity. Qed.

(** C7. In the metadata of a nested input, the samples of a field path
    are the first five of the values met under that path, in the order
    the traversal met them and with repetitions kept; so there are never
    more than five, however many leaves share the path. *)
Theorem nested_sample_values_bounded `{Pandas} data p fm :
  extract_fields_metadata (Nested data) !! p = Some fm ->
  (length (sample_values fm) <= 5)%nat
  /\ sample_values fm = take 5 (values_at p (keyed_leaves data "")).
Proof.
  rewrite extract_nested_lookup. unfold add_samples.
  destruct (values_at p (keyed_leaves data "")) as [|v vs]; [done|].
  intros [= <-]. cbn [sample_values]. split; [|done].
  cbn [length]. rewrite length_take. lia.
Qed.

(** Seven leaves under [items.tag]: the first five are kept, the value 1
    three times among them. *)
Lemma nested_sample_values_bounded_witness :
  (length [VInt 1; VInt 1; VInt 2; VInt 3; VInt 1] <= 5)%nat
  /\ [VInt 1; VInt 1; VInt 2; VInt 3; VInt 1]
     = take 5 (values_at "items.tag" (keyed_leaves Examples.seven_tags "")).
Proof.
  apply (nested_sample_values_bounded (H := Reference.pandas) Examples.seven_tags
           "items.tag" (FieldMeta "int" [VInt 1; VInt 1; VInt 2; VInt 3; VInt 1])).
  vm_compute. reflexivity.
Defined.

(** C8, as stated, fails: in [{"a": [1, 2]}] the traversal reaches the
    leaves [1] and [2] with accumulated path [a], and no entry for [a]
    is made. *)
Lemma list_leaves_not_recorded :
  ~ (forall p v,
       (p, v) ∈ reached_leaves Examples.leaves_in_list "" ->
       is_Some (extract_fields_metadata (H := Reference.pandas)
                  (Nested Examples.leaves_in_list) !! p)).
Proof.
  intros Hall. specialize (Hall "a" (VInt 1)).
  destruct Hall as [fm Hfm]; [|by vm_compute in Hfm].
  vm_compute. left.
Qed.

Lemma values_at_elem p v leaves : (p, v) ∈ leaves -> v ∈ values_at p leaves.
Proof.
  intros Hin. unfold values_at. apply list_elem_of_fmap.
  exists (p, v). split; [done|]. by apply list_elem_of_filter.
Qed.

Lemma traverse_list l : forall path metadata,
  traverse (JList l) path metadata
  = foldl (fun md item => traverse item path md) metadata l.
Proof.
  intros path. cbn [traverse]. induction l as [|item rest IH]; intros metadata; [done|].
  cbn [foldl]. by rewrite <- IH.
Qed.

(** C8, amended. The leaves that are the value of a dictionary key are
    the ones recorded, one after the other: each creates the entry of its
    accumulated path or updates the entry that is there, appending its
    value while the entry holds fewer than five samples, and leaves every
    other path alone; so every such leaf finds or makes an entry for its
    path.  The elements of a list are visited under the path of the list
    itself.  A leaf that is itself an element of a list, or the whole
    input, is visited and recorded nowhere. *)
Theorem keyed_leaves_recorded `{Pandas} :
  (forall data,
     extract_fields_metadata (Nested data)
     = foldl (fun md pv => record_leaf pv.1 pv.2 md) ∅ (keyed_leaves data ""))
  /\ (forall p v (md : gmap string field_meta),
        (md !! p = None ->
         record_leaf p v md !! p = Some (FieldMeta (type_name v) [v]))
        /\ (forall fm, md !! p = Some fm ->
             record_leaf p v md !! p
             = Some (FieldMeta (dtype fm)
                       (if decide (length (sample_values fm) < 5)%nat
                        then sample_values fm ++ [v]
                        else sample_values fm)))
        /\ (forall q, q <> p -> record_leaf p v md !! q = md !! q))
  /\ (forall data p v,
        (p, v) ∈ keyed_leaves data "" ->
        exists fm, extract_fields_metadata (Nested data) !! p = Some fm
                   /\ (v ∈ sample_values fm \/ length (sample_values fm) = 5%nat))
  /\ (forall l path md,
        traverse (JList l) path md = foldl (fun md item => traverse item path md) md l)
  /\ (forall v path md, traverse (JLeaf v) path md = md)
  /\ (forall vs path md, traverse (JList (map JLeaf vs)) path md = md).
Proof.
  split; [|split; [|split; [|split; [|split]]]].
  - intros data. unfold extract_fields_metadata. apply traverse_fold.
  - intros p v md. split; [|split].
    + intros Hp. unfold record_leaf. rewrite Hp. apply lookup_insert_eq.
    + intros [dt sv] Hp. unfold record_leaf, max_sample_values. rewrite Hp.
      cbn [sample_values dtype]. case_decide; [apply lookup_insert_eq|done].
    + intros q Hq. by apply record_leaf_lookup_ne.
  - intros data p v Hin. rewrite extract_nested_lookup.
    apply values_at_elem in Hin. unfold add_samples, max_sample_values.
    destruct (values_at p (keyed_leaves data "")) as [|v0 vs] eqn:E.
    { by apply not_elem_of_nil in Hin. }
    eexists. split; [done|]. cbn [sample_values].
    destruct (le_lt_dec (length (v0 :: vs)) 5) as [Hle|Hgt].
    + left. by rewrite take_ge.
    + right. rewrite length_take. lia.
  - intros l path md. apply traverse_list.
  - done.
  - intros vs path md. rewrite traverse_list.
    induction vs as [|v vs IH]; [done|]. apply IH.
Qed.

End MetadataFacts.

(** ** Tables *)

Module FrameFacts.
Import Frame Spec.

Section unique.
Context {A : Type} `{EqDecision A}.
Implicit Types l : list A.

Lemma elem_of_unique l x : x ∈ unique l <-> x ∈ l.
Proof.
  induction l as [|y l IH]; [done|]. cbn [unique].
  rewrite !elem_of_cons, list_elem_of_filter, IH.
  destruct (decide (x = y)); naive_solver.
Qed.

Lemma NoDup_unique l : NoDup (unique l).
Proof.
  induction l as [|y l IH]; cbn [unique]; [constructor|].
  constructor; [|by apply NoDup_filter].
  rewrite list_elem_of_filter. naive_solver.
Qed.

(** More than one value after [unique]: two different members. *)
Lemma unique_two l :
  (1 < length (unique l))%nat <-> exists x y, x ∈ l /\ y ∈ l /\ x <> y.
Proof.
  split.
  - pose proof (NoDup_unique l) as Hnd.
    destruct (unique l) as [|x [|y t]] eqn:E; cbn [length]; [lia|lia|].
    intros _. exists x, y. rewrite <- !(elem_of_unique l), E.
    split; [left|]. split; [right; left|].
    intros ->. apply NoDup_cons in Hnd as [Hx _]. apply Hx. left.
  - intros (x & y & Hx & Hy & Hne).
    apply elem_of_unique in Hx, Hy.
    destruct (unique l) as [|a [|b t]]; cbn [length]; [|exfalso|lia].
    + by apply not_elem_of_nil in Hx.
    + apply list_elem_of_singleton in Hx, Hy. congruence.
Qed.
End unique.

Lemma key_tuple_eq (keys : list string) (r r' : gmap string value) :
  key_tuple keys r = key_tuple keys r' <-> forall c, c ∈ keys -> r !! c = r' !! c.
Proof.
  unfold key_tuple. induction keys as [|k keys IH]; cbn [map].
  - split; [|done]. intros _ c Hc. by apply not_elem_of_nil in Hc.
  - split.
    + intros [= Hk Hrest] c [->|Hc]%elem_of_cons; [done|]. by apply IH.
    + intros Hall. f_equal; [apply Hall; left|].
      apply IH. intros c Hc. apply Hall. by right.
  Qed.

Section drop_duplicates.
Variable keys : list string.
Implicit Types l : list (gmap string value).

Lemma elem_of_drop_duplicate_rows l r : r ∈ drop_duplicate_rows keys l -> r ∈ l.
Proof.
  revert r. induction l as [|x l IH]; intros r; cbn [drop_duplicate_rows]; [done|].
  rewrite !elem_of_cons, list_elem_of_filter. naive_solver.
Qed.

Lemma NoDup_drop_duplicate_rows l :
  NoDup (map (key_tuple keys) (drop_duplicate_rows keys l)).
Proof.
  induction l as [|x l IH]; cbn [drop_duplicate_rows map]; [constructor|].
  constructor.
  - intros (r & Hk & Hr)%(list_elem_of_fmap_1 (key_tuple keys)).
    apply list_elem_of_filter in Hr as [Hne _]. congruence.
  - clear -IH. induction (drop_duplicate_rows keys l) as [|y t IHt]; [constructor|].
    rewrite filter_cons. cbn [map] in IH. apply NoDup_cons in IH as [Hy Ht].
    case_decide; [|by apply IHt].
    cbn [map]. constructor; [|by apply IHt].
    intros (r & Hk & Hr)%(list_elem_of_fmap_1 (key_tuple keys)). apply Hy.
    apply list_elem_of_filter in Hr as [_ Hr].
    rewrite Hk. by apply (list_elem_of_fmap_2 (key_tuple keys)).
Qed.

(** In a sorted table, the row kept for a key stands before every
    other row of that key. *)
Lemma drop_duplicate_rows_first (R : relation (gmap string value)) l :
  StronglySorted R l ->
  forall r, r ∈ l ->
    exists w, w ∈ drop_duplicate_rows keys l
              /\ key_tuple keys w = key_tuple keys r /\ (w = r \/ R w r).
Proof.
  induction 1 as [|x l Hl IH Hx]; intros r Hr; [by apply not_elem_of_nil in Hr|].
  cbn [drop_duplicate_rows].
  destruct (decide (key_tuple keys r = key_tuple keys x)) as [Heq|Hne].
  - exists x. split; [left|]. split; [done|].
    apply elem_of_cons in Hr as [->|Hr]; [by left|right].
    rewrite Forall_forall in Hx. by apply Hx.
  - apply elem_of_cons in Hr as [->|Hr]; [done|].
    destruct (IH r Hr) as (w & Hw & Hk & Hor).
    exists w. split; [|done]. right. apply list_elem_of_filter. split; [congruence|done].
Qed.
End drop_duplicates.

Lemma NoDup_map_inj {A B} (f : A -> B) (l : list A) x y :
  NoDup (map f l) -> x ∈ l -> y ∈ l -> f x = f y -> x = y.
Proof.
  induction l as [|a l IH]; cbn [map]; intros Hnd Hx Hy Hf.
  { by apply not_elem_of_nil in Hx. }
  apply NoDup_cons in Hnd as [Ha Hnd].
  apply elem_of_cons in Hx as [->|Hx]; apply elem_of_cons in Hy as [->|Hy]; [done| | |by apply IH].
  - exfalso. apply Ha. rewrite Hf. by apply (list_elem_of_fmap_2 f).
  - exfalso. apply Ha. rewrite <- Hf. by apply (list_elem_of_fmap_2 f).
Qed.

Lemma elem_of_columns_set_column c v df c' :
  c' ∈ columns (set_column c v df) <-> c' = c \/ c' ∈ columns df.
Proof.
  unfold set_column. cbn [columns]. case_decide as Hc.
  - split; [by right|]. by intros [->|?].
  - rewrite elem_of_app, list_elem_of_singleton. tauto.
Qed.

Lemma elem_of_set_intersection (sets : list (gset string)) c :
  sets <> [] -> c ∈ set_intersection sets <-> forall t, t ∈ sets -> c ∈ t.
Proof.
  destruct sets as [|s0 ss]; [done|]. intros _. cbn [set_intersection].
  revert s0. induction ss as [|t ss IH]; intros s0; cbn [foldl].
  - split; [by intros ? ? ->%list_elem_of_singleton|]. intros Hall. apply Hall. left.
  - rewrite IH. split.
    + intros Hall u [->|[->|Hu]%elem_of_cons]%elem_of_cons.
      * specialize (Hall (s0 ∩ t)). set_solver.
      * specialize (Hall (s0 ∩ t)). set_solver.
      * apply Hall. by right.
    + intros Hall u [->|Hu]%elem_of_cons.
      * apply elem_of_intersection. split; apply Hall; [left|right; left].
      * apply Hall. right. by right.
Qed.

Lemma elem_of_common_columns (dfs : list DataFrame) c :
  dfs <> [] -> c ∈ common_columns dfs <-> forall df, df ∈ dfs -> c ∈ columns df.
Proof.
  intros Hne. unfold common_columns. rewrite elem_of_set_intersection.
  - split.
    + intros Hall df Hdf. apply (elem_of_list_to_set (C := gset string)).
      apply Hall. by apply (list_elem_of_fmap_2 (fun df => list_to_set (columns df))).
    + intros Hall t (df & -> & Hdf)%list_elem_of_fmap.
      apply elem_of_list_to_set. by apply Hall.
  - by destruct dfs.
Qed.

Lemma elem_of_list_concat {A} (ls : list (list A)) x :
  x ∈ List.concat ls <-> exists l, l ∈ ls /\ x ∈ l.
Proof.
  induction ls as [|l ls IH]; cbn [List.concat].
  - split; [by intros ?%not_elem_of_nil|]. by intros (l & ?%not_elem_of_nil & _).
  - rewrite elem_of_app, IH. split.
    + intros [Hx|(l' & Hl' & Hx)]; [exists l; split; [left|done]|].
      exists l'. split; [by right|done].
    + intros (l' & [->|Hl']%elem_of_cons & Hx); [by left|]. right. by exists l'.
Qed.

Lemma elem_of_source_rows srcs s r :
  (s, r) ∈ source_rows srcs <-> exists df, (s, df) ∈ srcs /\ r ∈ rows df.
Proof.
  unfold source_rows. rewrite elem_of_list_concat. split.
  - intros (l & ([s' df] & -> & Hsd)%list_elem_of_fmap & Hin).
    cbn [fst snd] in Hin. apply list_elem_of_fmap in Hin as (r' & [= -> ->] & Hr').
    by exists df.
  - intros (df & Hsd & Hr). exists (map (pair s) (rows df)). split.
    + apply list_elem_of_fmap. by exists (s, df).
    + by apply (list_elem_of_fmap_2 (pair s)).
Qed.

Lemma lookup_strip cs (r : gmap string value) c :
  strip cs r !! c = if decide (c ∈ cs) then None else r !! c.
Proof.
  unfold strip. induction cs as [|d cs IH]; cbn [foldr]; [done|].
  destruct (decide (c = d)) as [->|Hne].
  - rewrite lookup_delete_eq. by rewrite decide_True by left.
  - rewrite lookup_delete_ne, IH by done.
    destruct (decide (c ∈ cs)) as [Hin|Hin].
    + by rewrite decide_True by by right.
    + rewrite decide_False; [done|]. by intros [?|?]%elem_of_cons.
Qed.

Lemma strip_unbound cs (r : gmap string value) :
  (forall c, c ∈ cs -> r !! c = None) -> strip cs r = r.
Proof.
  intros Hcs. apply map_eq. intros c. rewrite lookup_strip.
  case_decide as Hc; [|done]. symmetry. by apply Hcs.
Qed.

(** What a strategy does once the tables are tagged and put together:
    sort, keep the first row of every key, drop the bookkeeping
    columns. *)
Section resolve_rows.
Context {P : Pandas} {HP : PandasSpec P}.
Variables (by_ : string) (ascending : bool) (drops : list string) (K : gset string).
Hypothesis K_kept : forall c, c ∈ K -> c ∉ drops.

Lemma same_key_key_tuple (r r' : gmap string value) :
  key_tuple (elements K) r = key_tuple (elements K) r' <-> same_key K r r'.
Proof.
  rewrite key_tuple_eq. unfold same_key.
  split; intros Hall c Hc; apply Hall; by apply elem_of_elements.
Qed.

Lemma same_key_strip (r : gmap string value) : same_key K (strip drops r) r.
Proof.
  intros c Hc. rewrite lookup_strip. case_decide; [|done]. by apply K_kept in Hc.
Qed.

Lemma row_le_refl (r : gmap string value) : row_le by_ ascending r r.
Proof. intros x y Hx Hy. rewrite Hx in Hy. injection Hy as ->. destruct ascending; lia. Qed.

Lemma resolve_rows cols (l : list (gmap string value)) :
  let out := rows (drop drops (drop_duplicates (elements K)
                     (sort_values by_ ascending (mkDataFrame cols l)))) in
  (forall w, w ∈ out ->
     exists r, r ∈ l /\ w = strip drops r
               /\ forall r', r' ∈ l -> same_key K r' r -> row_le by_ ascending r r')
  /\ (forall r, r ∈ l -> exists w, w ∈ out /\ same_key K w r)
  /\ (forall i j w w',
        out !! i = Some w -> out !! j = Some w' -> same_key K w w' -> i = j).
Proof.
  cbn [drop drop_duplicates sort_values rows columns].
  set (sorted := sort_rows by_ ascending l).
  set (kept := drop_duplicate_rows (elements K) sorted).
  assert (forall r, r ∈ sorted <-> r ∈ l) as Hperm.
  { intros r. unfold sorted. by rewrite sort_rows_perm. }
  assert (StronglySorted (row_le by_ ascending) sorted) as Hsorted
    by apply sort_rows_sorted.
  pose proof (NoDup_drop_duplicate_rows (elements K) sorted) as Hnd.
  fold kept in Hnd.
  assert (forall r, r ∈ l -> exists w, w ∈ kept /\ same_key K w r
            /\ row_le by_ ascending w r) as Hfirst.
  { intros r Hr%Hperm.
    destruct (drop_duplicate_rows_first (elements K) _ sorted Hsorted r Hr)
      as (w & Hw & Hk & Hor).
    exists w. split; [done|]. split; [by apply same_key_key_tuple|].
    destruct Hor as [->|?]; [apply row_le_refl|done]. }
  split; [|split].
  - intros w' (w & -> & Hw)%list_elem_of_fmap. exists w.
    split; [by apply Hperm, (elem_of_drop_duplicate_rows (elements K))|].
    split; [done|]. intros r' Hr' Hsame.
    destruct (Hfirst r' Hr') as (w2 & Hw2 & Hk2 & Hle).
    assert (w2 = w) as ->; [|done].
    apply (NoDup_map_inj (key_tuple (elements K)) kept); [done..|].
    apply same_key_key_tuple. intros c Hc. by rewrite Hk2, Hsame.
  - intros r Hr. destruct (Hfirst r Hr) as (w & Hw & Hk & _).
    exists (strip drops w). split.
    + by apply (list_elem_of_fmap_2 (fun r => foldr delete r drops)).
    + intros c Hc. by rewrite same_key_strip, Hk.
  - intros i j w w' Hi Hj Hsame.
    apply list_lookup_fmap_Some in Hi as (u & -> & Hi).
    apply list_lookup_fmap_Some in Hj as (u' & -> & Hj).
    assert (key_tuple (elements K) u = key_tuple (elements K) u') as Hk.
    { apply same_key_key_tuple. intros c Hc.
      rewrite <- (same_key_strip u c Hc), <- (same_key_strip u' c Hc). by apply Hsame. }
    apply (NoDup_alt (map (key_tuple (elements K)) kept)) with (key_tuple (elements K) u);
      [done| |].
    + change (map ?f ?l) with (f <$> l). by rewrite list_lookup_fmap, Hi.
    + change (map ?f ?l) with (f <$> l). by rewrite list_lookup_fmap, Hj, Hk.
Qed.
End resolve_rows.

End FrameFacts.

(** ** Conflict resolution *)

Module ResolveFacts.
Import Frame Resolve Spec FrameFacts.

(** Tagging the tables with bookkeeping columns [B]. *)
Section tagged.
Variables (tag : string -> DataFrame -> DataFrame)
          (tag_row : string -> gmap string value -> gmap string value)
          (B : gset string).
Hypothesis tag_columns :
  forall s df c, c ∈ columns (tag s df) <-> c ∈ B \/ c ∈ columns df.
Hypothesis tag_rows : forall s df, rows (tag s df) = map (tag_row s) (rows df).

Lemma key_set_tagged srcs : common_columns (tag_all tag srcs) ∖ B = key_set B srcs.
Proof.
  unfold key_set. destruct srcs as [|sd srcs]; [done|].
  apply set_eq. intros c. rewrite !elem_of_difference.
  rewrite !elem_of_common_columns by done.
  split; intros [Hall HB]; (split; [|done]).
  - intros df (sd' & -> & Hsd)%list_elem_of_fmap.
    specialize (Hall (tag sd'.1 sd'.2)). rewrite tag_columns in Hall.
    destruct Hall as [?|?]; [|done..].
    apply (list_elem_of_fmap_2 (fun sd : string * DataFrame => tag sd.1 sd.2)). done.
  - intros df (sd' & -> & Hsd)%list_elem_of_fmap. apply tag_columns. right.
    apply Hall. by apply (list_elem_of_fmap_2 snd).
Qed.

Lemma rows_concat_tagged srcs :
  rows (concat (tag_all tag srcs))
  = map (fun sr : string * gmap string value => tag_row sr.1 sr.2) (source_rows srcs).
Proof.
  unfold concat, source_rows, tag_all. cbn [rows].
  induction srcs as [|[s df] srcs IH]; [done|].
  cbn [map List.concat fst snd]. rewrite map_app, IH, tag_rows. f_equal.
  by rewrite map_map.
Qed.
End tagged.

Lemma hierarchy_frames_tables aligned h :
  hierarchy_frames aligned h
  = tag_all (rank_tag "_priority" (priority_of h)) (tables aligned).
Proof.
  unfold hierarchy_frames, tables, tag_all.
  induction aligned as [|[f [df|j]] aligned IH]; cbn; [done| |done]. by rewrite IH.
Qed.

Lemma weighted_frames_tables aligned ws :
  weighted_frames aligned ws
  = tag_all (rank_tag "_weight" (weight_of ws)) (tables aligned).
Proof.
  unfold weighted_frames, tables, tag_all.
  induction aligned as [|[f [df|j]] aligned IH]; cbn; [done| |done]. by rewrite IH.
Qed.

Lemma timed_frames_tables aligned :
  timed_frames aligned = tag_all source_tag (timed_tables aligned).
Proof.
  unfold timed_frames, timed_tables, tables, tag_all.
  induction aligned as [|[f [df|j]] aligned IH]; cbn; [done| |done].
  destruct (decide ("timestamp" ∈ columns df)); cbn; by rewrite IH.
Qed.

Lemma two_tags_columns a b x y df c :
  c ∈ columns (set_column b y (set_column a x df))
  <-> c ∈ ({[a; b]} : gset string) \/ c ∈ columns df.
Proof. rewrite !elem_of_columns_set_column. set_solver. Qed.

Lemma one_tag_columns a x df c :
  c ∈ columns (set_column a x df) <-> c ∈ ({[a]} : gset string) \/ c ∈ columns df.
Proof. rewrite !elem_of_columns_set_column. set_solver. Qed.

Lemma difference_twice (X : gset string) a b : X ∖ {[a]} ∖ {[b]} = X ∖ {[a; b]}.
Proof. set_solver. Qed.

Lemma hierarchy_key_set aligned h :
  common_columns (hierarchy_frames aligned h) ∖ {["_source"]} ∖ {["_priority"]}
  = key_set {["_source"; "_priority"]} (tables aligned).
Proof.
  rewrite difference_twice, hierarchy_frames_tables.
  apply key_set_tagged. intros s df c. apply two_tags_columns.
Qed.

Lemma weighted_key_set aligned ws :
  common_columns (weighted_frames aligned ws) ∖ {["_source"]} ∖ {["_weight"]}
  = key_set {["_source"; "_weight"]} (tables aligned).
Proof.
  rewrite difference_twice, weighted_frames_tables.
  apply key_set_tagged. intros s df c. apply two_tags_columns.
Qed.

Lemma timed_key_set aligned :
  common_columns (timed_frames aligned) ∖ {["_source"]} ∖ {["timestamp"]}
  = key_set {["_source"; "timestamp"]} (timed_tables aligned).
Proof.
  rewrite timed_frames_tables.
  assert (forall X : gset string, X ∖ {["_source"]} ∖ {["timestamp"]}
            = X ∖ {["_source"]} ∖ {["_source"; "timestamp"]}) as -> by set_solver.
  rewrite (key_set_tagged source_tag {["_source"]}).
  - unfold key_set. set_solver.
  - intros s df c. apply one_tag_columns.
Qed.

Lemma tag_all_nil tag srcs : tag_all tag srcs = [] <-> srcs = [].
Proof. unfold tag_all. by destruct srcs. Qed.

Lemma same_key_sym K (r r' : gmap string value) : same_key K r r' -> same_key K r' r.
Proof. intros Hs c Hc. symmetry. by apply Hs. Qed.

Lemma same_key_trans K (r1 r2 r3 : gmap string value) :
  same_key K r1 r2 -> same_key K r2 r3 -> same_key K r1 r3.
Proof. intros H12 H23 c Hc. by rewrite H12, H23. Qed.

(** A strategy that ranks the sources: hierarchy and weights. *)
Section ranked.
Context {P : Pandas} {HP : PandasSpec P}.
Variables (col : string) (asc : bool) (rank : string -> Z).
Hypothesis col_not_source : col <> "_source".
Variable srcs : list (string * DataFrame).

Let B : gset string := {["_source"; col]}.
Let K : gset string := key_set B srcs.
Let drops : list string := ["_source"; col].

Lemma K_kept c : c ∈ K -> c ∉ drops.
Proof.
  unfold K, key_set, B, drops. intros [_ Hc]%elem_of_difference Hin.
  apply Hc. apply elem_of_cons in Hin as [->|Hin]; [set_solver|].
  apply list_elem_of_singleton in Hin as ->. set_solver.
Qed.

Lemma strip_rank_tag_row s r :
  strip drops (rank_tag_row col rank s r) = strip drops r.
Proof.
  apply map_eq. intros c. rewrite !lookup_strip. case_decide as Hc; [done|].
  assert (c <> "_source" /\ c <> col) as [H1 H2].
  { split; intros ->; apply Hc; unfold drops; set_solver. }
  unfold rank_tag_row. by rewrite !lookup_insert_ne by done.
Qed.

Lemma same_key_rank_tag s r : same_key K (rank_tag_row col rank s r) r.
Proof.
  intros c Hc%K_kept.
  assert (c <> "_source" /\ c <> col) as [H1 H2].
  { split; intros ->; apply Hc; unfold drops; set_solver. }
  unfold rank_tag_row. by rewrite !lookup_insert_ne by done.
Qed.

Lemma row_le_rank_tag s r s' r' :
  row_le col asc (rank_tag_row col rank s r) (rank_tag_row col rank s' r')
  -> before asc (rank s) (rank s').
Proof.
  intros Hle. apply (Hle (rank s) (rank s')); unfold rank_tag_row;
    by rewrite lookup_insert_eq.
Qed.

Lemma rows_rank_tag s df :
  rows (rank_tag col rank s df) = map (rank_tag_row col rank s) (rows df).
Proof. unfold rank_tag, set_column. cbn [rows]. by rewrite map_map. Qed.

Lemma ranked_resolution :
  let out := drop drops (drop_duplicates (elements K)
               (sort_values col asc (concat (tag_all (rank_tag col rank) srcs)))) in
  (forall w, w ∈ rows out ->
     exists s r, (s, r) ∈ source_rows srcs /\ w = strip drops r
       /\ forall s' r', (s', r') ∈ source_rows srcs -> same_key K r' r ->
             before asc (rank s) (rank s'))
  /\ (forall s r, (s, r) ∈ source_rows srcs ->
        exists w, w ∈ rows out /\ same_key K w r)
  /\ (forall i j w w',
        rows out !! i = Some w -> rows out !! j = Some w' -> same_key K w w' -> i = j)
  /\ (forall s r, (s, r) ∈ source_rows srcs ->
        (forall s' r', (s', r') ∈ source_rows srcs -> same_key K r' r ->
           r' = r \/ strictly_before asc (rank s) (rank s')) ->
        strip drops r ∈ rows out
        /\ forall w, w ∈ rows out -> same_key K w r -> w = strip drops r).
Proof.
  intros out.
  pose proof (rows_concat_tagged (rank_tag col rank) (rank_tag_row col rank)
                rows_rank_tag srcs) as Hrows.
  destruct (concat (tag_all (rank_tag col rank) srcs)) as [cols l] eqn:E.
  cbn [rows] in Hrows.
  destruct (resolve_rows col asc drops K K_kept cols l) as (Ha & Hb & Hc).
  fold out in Ha, Hb, Hc.
  assert (forall w, w ∈ rows out ->
     exists s r, (s, r) ∈ source_rows srcs /\ w = strip drops r
       /\ forall s' r', (s', r') ∈ source_rows srcs -> same_key K r' r ->
             before asc (rank s) (rank s')) as Ha'.
  { intros w Hw. destruct (Ha w Hw) as (rt & Hrt & -> & Hmin).
    rewrite Hrows in Hrt. apply list_elem_of_fmap in Hrt as ([s r] & -> & Hsr).
    cbn [fst snd] in *. exists s, r. split; [done|].
    split; [apply strip_rank_tag_row|].
    intros s' r' Hsr' Hsame. apply (row_le_rank_tag s r s' r'). apply Hmin.
    - rewrite Hrows.
      by apply (list_elem_of_fmap_2
                  (fun sr : string * gmap string value => rank_tag_row col rank sr.1 sr.2)
                  _ (s', r')).
    - eapply same_key_trans; [apply same_key_rank_tag|].
      eapply same_key_trans; [apply Hsame|]. apply same_key_sym, same_key_rank_tag. }
  assert (forall s r, (s, r) ∈ source_rows srcs ->
        exists w, w ∈ rows out /\ same_key K w r) as Hb'.
  { intros s r Hsr. destruct (Hb (rank_tag_row col rank s r)) as (w & Hw & Hsame).
    - rewrite Hrows.
      by apply (list_elem_of_fmap_2
                  (fun sr : string * gmap string value => rank_tag_row col rank sr.1 sr.2)
                  _ (s, r)).
    - exists w. split; [done|]. eapply same_key_trans; [apply Hsame|].
      apply same_key_rank_tag. }
  split; [done|]. split; [done|]. split; [done|].
  intros s r Hsr Hstrict.
  assert (forall w, w ∈ rows out -> same_key K w r -> w = strip drops r) as Huniq.
  { intros w Hw Hsame. destruct (Ha' w Hw) as (s0 & r0 & Hsr0 & -> & Hmin).
    assert (same_key K r0 r) as H0.
    { eapply same_key_trans; [|apply Hsame].
      apply same_key_sym, (same_key_strip drops K K_kept). }
    destruct (Hstrict s0 r0 Hsr0 H0) as [->|Hlt]; [done|].
    specialize (Hmin s r Hsr (same_key_sym _ _ _ H0)).
    unfold before, strictly_before in *. destruct asc; lia. }
  split; [|done].
  destruct (Hb' s r Hsr) as (w & Hw & Hsame).
  by rewrite <- (Huniq w Hw Hsame).
Qed.

Lemma ranked_columns :
  columns (drop drops (drop_duplicates (elements K)
             (sort_values col asc (concat (tag_all (rank_tag col rank) srcs)))))
  = filter (fun c => c ∉ drops)
      (unique (List.concat (map columns (tag_all (rank_tag col rank) srcs)))).
Proof. done. Qed.
End ranked.

(** The rank dictionary, entry by entry. *)
Lemma source_priority_snoc h s :
  source_priority (h ++ [s]) = <[s := Z.of_nat (length h)]> (source_priority h).
Proof.
  unfold source_priority. rewrite length_app. cbn [length].
  rewrite seq_app. cbn [seq].
  change (zip ?a ?b) with (zip_with pair a b).
  rewrite zip_with_app by by rewrite length_seq.
  by rewrite foldl_app.
Qed.

Lemma source_priority_dom h : dom (source_priority h) = list_to_set h.
Proof.
  induction h as [|s h IH] using rev_ind; [done|].
  rewrite source_priority_snoc, dom_insert_L, IH, list_to_set_app_L. set_solver.
Qed.

Lemma source_priority_lookup h i s :
  NoDup h -> h !! i = Some s -> source_priority h !! s = Some (Z.of_nat i).
Proof.
  revert i. induction h as [|x h IH] using rev_ind; intros i Hnd Hi; [done|].
  rewrite source_priority_snoc.
  apply NoDup_app in Hnd as (Hnd & Hx & _).
  apply lookup_app_Some in Hi as [Hi|[Hlen Hi]].
  - rewrite lookup_insert_ne; [by apply IH|].
    intros ->. apply (Hx s); [|left]. by apply list_elem_of_lookup_2 in Hi.
  - destruct (i - length h)%nat eqn:E; [|done]. cbn in Hi. injection Hi as ->.
    rewrite lookup_insert_eq. do 2 f_equal. lia.
Qed.

Lemma source_priority_size h : NoDup h -> size (source_priority h) = length h.
Proof.
  intros Hnd. rewrite <- size_dom, source_priority_dom. by apply size_list_to_set.
Qed.

Lemma priority_of_ranked h i s :
  NoDup h -> h !! i = Some s -> priority_of h s = Z.of_nat i.
Proof. intros Hnd Hi. unfold priority_of. by rewrite (source_priority_lookup h i s). Qed.

Lemma priority_of_unranked h s :
  NoDup h -> s ∉ h -> priority_of h s = Z.of_nat (length h).
Proof.
  intros Hnd Hs. unfold priority_of.
  rewrite (proj1 (not_elem_of_dom (source_priority h) s)).
  - cbn. by rewrite source_priority_size.
  - rewrite source_priority_dom. by rewrite elem_of_list_to_set.
Qed.

Lemma key_set_elements_nonempty (K : gset string) : K <> ∅ -> elements K <> [].
Proof. intros HK Hnil. apply HK. by apply leibniz_equiv, elements_empty_iff. Qed.

(** C3. On tables with a common key column, weight-based resolution
    gives every source the weight the caller supplied for it, and 0 when
    the mapping has none; it returns one table, with one row for every
    common-key tuple found in the sources, and that row is a source row
    (its bookkeeping cells taken off) whose source has the greatest
    weight among all rows of that key.  In particular a row whose rivals
    on its key all come from sources of strictly smaller weight is the
    resolved row of its key, whole. *)
Theorem resolve_conflicts_weighted_spec {P : Pandas} {HP : PandasSpec P}
    aligned (source_weights : gmap string Z) :
  let srcs := tables aligned in
  let K := key_set {["_source"; "_weight"]} srcs in
  let weight s := match source_weights !! s with Some x => x | None => 0 end in
  srcs <> [] -> K <> ∅ ->
  exists out,
    resolve_conflicts_weighted aligned source_weights = resolved_data out
    /\ (forall w, w ∈ rows out ->
          exists s r, (s, r) ∈ source_rows srcs /\ w = strip ["_source"; "_weight"] r
            /\ forall s' r', (s', r') ∈ source_rows srcs -> same_key K r' r ->
                  weight s' <= weight s)
    /\ (forall s r, (s, r) ∈ source_rows srcs ->
          exists w, w ∈ rows out /\ same_key K w r)
    /\ (forall i j w w',
          rows out !! i = Some w -> rows out !! j = Some w' -> same_key K w w' -> i = j)
    /\ (forall s r, (s, r) ∈ source_rows srcs ->
          (forall s' r', (s', r') ∈ source_rows srcs -> same_key K r' r ->
             r' = r \/ weight s' < weight s) ->
          strip ["_source"; "_weight"] r ∈ rows out
          /\ forall w, w ∈ rows out -> same_key K w r ->
               w = strip ["_source"; "_weight"] r)
    /\ (forall r : gmap string value,
          r !! "_source" = None -> r !! "_weight" = None ->
          strip ["_source"; "_weight"] r = r).
Proof.
  intros srcs K weight Hsrcs HK.
  eexists. split.
  - unfold resolve_conflicts_weighted. rewrite weighted_key_set.
    fold srcs. fold K.
    destruct (weighted_frames aligned source_weights) eqn:E.
    { rewrite weighted_frames_tables in E. by apply tag_all_nil in E. }
    rewrite <- E. clear E.
    destruct (elements K) eqn:E; [by apply key_set_elements_nonempty in E|].
    rewrite <- E. rewrite weighted_frames_tables. reflexivity.
  - destruct (ranked_resolution "_weight" false (weight_of source_weights)
                ltac:(done) srcs) as (Ha & Hb & Hc & Hd).
    split; [exact Ha|]. split; [exact Hb|]. split; [exact Hc|]. split; [exact Hd|].
    intros r H1 H2. apply strip_unbound.
    intros c [->|[->|?%not_elem_of_nil]%elem_of_cons]%elem_of_cons; done.
Qed.

(** With weights [{A: 1, B: 5}], and [C] unweighted, the row kept for
    [id = 1] is the row of [B], whole. *)
Lemma resolve_conflicts_weighted_witness :
  exists out,
    resolve_conflicts_weighted (H := Reference.pandas)
      [Examples.item_a; Examples.item_b; Examples.item_c] {[ "A" := 1; "B" := 5 ]} = resolved_data out
    /\ rows out = [Examples.row_b].
Proof.
  assert (tables [Examples.item_a; Examples.item_b; Examples.item_c] <> []) as H1 by done.
  assert (key_set {["_source"; "_weight"]} (tables [Examples.item_a; Examples.item_b; Examples.item_c]) <> ∅)
    as H2 by by vm_compute.
  destruct (resolve_conflicts_weighted_spec (P := Reference.pandas) (HP := ReferenceFacts.pandas_spec)
              [Examples.item_a; Examples.item_b; Examples.item_c] {[ "A" := 1; "B" := 5 ]} H1 H2)
    as (out & Heq & _ & _ & _ & _).
  exists out. split; [exact Heq|].
  vm_compute in Heq. by injection Heq as <-.
Defined.

(** C2, amended. On tables with a common key column and for a
    hierarchy list without repeated names, hierarchy-based resolution
    ranks a listed source by the index of its name in the list and every
    unlisted source by the length of the list, which is behind every
    listed one; it returns one table, with one row for every common-key
    tuple found in the sources, and that row is a source row (its
    bookkeeping cells taken off) whose source has the lowest rank among
    all rows of that key.  In particular a row whose rivals on its key
    all come from sources ranked strictly behind is the resolved row of
    its key, whole. *)
Theorem resolve_conflicts_hierarchy_spec {P : Pandas} {HP : PandasSpec P}
    aligned (source_hierarchy : list string) :
  let srcs := tables aligned in
  let K := key_set {["_source"; "_priority"]} srcs in
  let rank := priority_of source_hierarchy in
  NoDup source_hierarchy -> srcs <> [] -> K <> ∅ ->
  (forall i s, source_hierarchy !! i = Some s -> rank s = Z.of_nat i)
  /\ (forall s, s ∉ source_hierarchy ->
        rank s = Z.of_nat (length source_hierarchy)
        /\ forall s', s' ∈ source_hierarchy -> rank s' < rank s)
  /\ exists out,
    resolve_conflicts_hierarchy aligned source_hierarchy = resolved_data out
    /\ (forall w, w ∈ rows out ->
          exists s r, (s, r) ∈ source_rows srcs /\ w = strip ["_source"; "_priority"] r
            /\ forall s' r', (s', r') ∈ source_rows srcs -> same_key K r' r ->
                  rank s <= rank s')
    /\ (forall s r, (s, r) ∈ source_rows srcs ->
          exists w, w ∈ rows out /\ same_key K w r)
    /\ (forall i j w w',
          rows out !! i = Some w -> rows out !! j = Some w' -> same_key K w w' -> i = j)
    /\ (forall s r, (s, r) ∈ source_rows srcs ->
          (forall s' r', (s', r') ∈ source_rows srcs -> same_key K r' r ->
             r' = r \/ rank s < rank s') ->
          strip ["_source"; "_priority"] r ∈ rows out
          /\ forall w, w ∈ rows out -> same_key K w r ->
               w = strip ["_source"; "_priority"] r)
    /\ (forall r : gmap string value,
          r !! "_source" = None -> r !! "_priority" = None ->
          strip ["_source"; "_priority"] r = r).
Proof.
  intros srcs K rank Hnd Hsrcs HK.
  split; [intros i s; by apply priority_of_ranked|].
  split.
  { intros s Hs. split; [by apply priority_of_unranked|].
    intros s' [i Hi]%list_elem_of_lookup. unfold rank.
    rewrite (priority_of_ranked _ i s'), priority_of_unranked by done.
    apply lookup_lt_Some in Hi. lia. }
  eexists. split.
  - unfold resolve_conflicts_hierarchy. rewrite hierarchy_key_set.
    fold srcs. fold K.
    destruct (hierarchy_frames aligned source_hierarchy) eqn:E.
    { rewrite hierarchy_frames_tables in E. by apply tag_all_nil in E. }
    rewrite <- E. clear E.
    destruct (elements K) eqn:E; [by apply key_set_elements_nonempty in E|].
    rewrite <- E. rewrite hierarchy_frames_tables. reflexivity.
  - destruct (ranked_resolution "_priority" true rank ltac:(done) srcs)
      as (Ha & Hb & Hc & Hd).
    split; [exact Ha|]. split; [exact Hb|]. split; [exact Hc|]. split; [exact Hd|].
    intros r H1 H2. apply strip_unbound.
    intros c [->|[->|?%not_elem_of_nil]%elem_of_cons]%elem_of_cons; done.
Qed.

(** With hierarchy [["A"; "B"]] the ranks are 0 for [A], 1 for [B] and 2
    for the unlisted [C], and the row kept for [id = 1] is the row of [A],
    whole. *)
Lemma resolve_conflicts_hierarchy_witness :
  exists out,
    resolve_conflicts_hierarchy (H := Reference.pandas)
      [Examples.item_a; Examples.item_b; Examples.item_c] ["A"; "B"] = resolved_data out
    /\ rows out = [Examples.row_a]
    /\ priority_of ["A"; "B"] "A" = 0 /\ priority_of ["A"; "B"] "B" = 1
    /\ priority_of ["A"; "B"] "C" = 2.
Proof.
  assert (NoDup ["A"; "B"]) as H0 by compute_done.
  assert (tables [Examples.item_a; Examples.item_b; Examples.item_c] <> []) as H1 by done.
  assert (key_set {["_source"; "_priority"]} (tables [Examples.item_a; Examples.item_b; Examples.item_c]) <> ∅)
    as H2 by by vm_compute.
  destruct (resolve_conflicts_hierarchy_spec (P := Reference.pandas) (HP := ReferenceFacts.pandas_spec)
              [Examples.item_a; Examples.item_b; Examples.item_c] ["A"; "B"] H0 H1 H2)
    as (Hranked & Hunranked & out & Heq & _).
  exists out. split; [exact Heq|]. split.
  - vm_compute in Heq. by injection Heq as <-.
  - split; [exact (Hranked 0%nat "A" eq_refl)|].
    split; [exact (Hranked 1%nat "B" eq_refl)|].
    apply (Hunranked "C"). compute_done.
Defined.

(** C2, as stated, fails on a hierarchy list that repeats a name: with
    [["A"; "A"; "A"]] the listed source [A] gets rank 2 and the unlisted
    source [C] gets rank 1, so [C] is not ranked last, and on a shared
    key the row of [C] is the one kept. *)
Lemma repeated_names_outrank :
  ~ (forall s s', s ∉ ["A"; "A"; "A"] -> s' ∈ ["A"; "A"; "A"] ->
       priority_of ["A"; "A"; "A"] s' <= priority_of ["A"; "A"; "A"] s)
  /\ resolve_conflicts_hierarchy (H := Reference.pandas)
       [Examples.item_a; Examples.item_c] ["A"; "A"; "A"]
     = resolved_data (mkDataFrame ["id"; "v"] [Examples.row_c]).
Proof.
  split; [|by vm_compute].
  intros Hall. specialize (Hall "C" "A").
  assert (priority_of ["A"; "A"; "A"] "A" <= priority_of ["A"; "A"; "A"] "C") as Hle.
  { apply Hall; [compute_done|left]. }
  by vm_compute in Hle.
Qed.

(** The time-based strategy. *)
Section timed.
Context {P : Pandas} {HP : PandasSpec P}.
Variable aligned : list aligned_item.

Let srcs := timed_tables aligned.
Let K : gset string := key_set {["_source"; "timestamp"]} srcs.
Let drops : list string := ["_source"; "timestamp"].
Let combined : DataFrame := concat (tag_all source_tag srcs).

Lemma rows_combined :
  rows combined
  = map (fun sr : string * gmap string value => source_tag_row sr.1 sr.2)
        (source_rows srcs).
Proof. apply (rows_concat_tagged source_tag source_tag_row). done. Qed.

Lemma timestamp_column :
  column "timestamp" (rows combined)
  = map (fun sr : string * gmap string value => sr.2 !! "timestamp") (source_rows srcs).
Proof.
  unfold column. rewrite rows_combined, map_map. apply map_ext.
  intros [s r]. unfold source_tag_row. cbn. by rewrite lookup_insert_ne.
Qed.

Lemma elem_of_prepared w :
  w ∈ rows (dropna_rows "timestamp"
              (assign_column "timestamp" (parsed_timestamps combined) combined))
  <-> exists s r t, ((s, r), Some t) ∈ timed_rows aligned /\ w = stamped s r t.
Proof.
  cbn [rows dropna_rows assign_column]. rewrite list_elem_of_filter.
  unfold parsed_timestamps. rewrite timestamp_column, rows_combined.
  change (map ?f ?l) with (f <$> l).
  rewrite zip_with_fmap_l, zip_with_fmap_r, zip_with_zip, list_elem_of_fmap.
  fold srcs. unfold timed_rows. fold srcs. cbn zeta.
  change (map ?f ?l) with (f <$> l).
  split.
  - intros (Hsome & [[s r] [t|]] & -> & Hin); cbn in *.
    + by exists s, r, t.
    + rewrite lookup_delete_eq in Hsome. by destruct Hsome.
  - intros (s & r & t & Hin & ->). split.
    + unfold stamped. rewrite lookup_insert_eq. by eexists.
    + by exists ((s, r), Some t).
Qed.

Lemma timed_K_kept c : c ∈ K -> c ∉ drops.
Proof.
  unfold K, key_set, drops. intros [_ Hc]%elem_of_difference Hin.
  apply Hc. apply elem_of_cons in Hin as [->|Hin]; [set_solver|].
  apply list_elem_of_singleton in Hin as ->. set_solver.
Qed.

Lemma strip_stamped s r t : strip drops (stamped s r t) = strip drops r.
Proof.
  apply map_eq. intros c. rewrite !lookup_strip. case_decide as Hc; [done|].
  assert (c <> "_source" /\ c <> "timestamp") as [H1 H2].
  { split; intros ->; apply Hc; unfold drops; set_solver. }
  unfold stamped, source_tag_row. by rewrite !lookup_insert_ne by done.
Qed.

Lemma same_key_stamped s r t : same_key K (stamped s r t) r.
Proof.
  intros c Hc%timed_K_kept.
  assert (c <> "_source" /\ c <> "timestamp") as [H1 H2].
  { split; intros ->; apply Hc; unfold drops; set_solver. }
  unfold stamped, source_tag_row. by rewrite !lookup_insert_ne by done.
Qed.

Lemma row_le_stamped s r t s' r' t' :
  row_le "timestamp" false (stamped s r t) (stamped s' r' t') -> t' <= t.
Proof.
  intros Hle. apply (Hle t t'); unfold stamped; by rewrite lookup_insert_eq.
Qed.

Lemma timed_resolution :
  let out := time_resolved aligned in
  (forall w, w ∈ rows out ->
     exists s r t, ((s, r), Some t) ∈ timed_rows aligned /\ w = strip drops r
       /\ forall s' r' t', ((s', r'), Some t') ∈ timed_rows aligned ->
             same_key K r' r -> t' <= t)
  /\ (forall s r t, ((s, r), Some t) ∈ timed_rows aligned ->
        exists w, w ∈ rows out /\ same_key K w r)
  /\ (forall i j w w',
        rows out !! i = Some w -> rows out !! j = Some w' -> same_key K w w' -> i = j)
  /\ (forall s r t, ((s, r), Some t) ∈ timed_rows aligned ->
        (forall s' r' t', ((s', r'), Some t') ∈ timed_rows aligned ->
           same_key K r' r -> strip drops r' = strip drops r \/ t' < t) ->
        strip drops r ∈ rows out
        /\ forall w, w ∈ rows out -> same_key K w r -> w = strip drops r).
Proof.
  intros out. unfold time_resolved in out. fold srcs K combined in out.
  pose proof elem_of_prepared as Hprep.
  destruct (dropna_rows "timestamp"
              (assign_column "timestamp" (parsed_timestamps combined) combined))
    as [cols l] eqn:E.
  cbn [rows] in Hprep.
  destruct (resolve_rows "timestamp" false drops K timed_K_kept cols l)
    as (Ha & Hb & Hc).
  fold out in Ha, Hb, Hc.
  assert (forall w, w ∈ rows out ->
     exists s r t, ((s, r), Some t) ∈ timed_rows aligned /\ w = strip drops r
       /\ forall s' r' t', ((s', r'), Some t') ∈ timed_rows aligned ->
             same_key K r' r -> t' <= t) as Ha'.
  { intros w Hw. destruct (Ha w Hw) as (rt & Hrt & -> & Hmin).
    apply Hprep in Hrt as (s & r & t & Hin & ->).
    exists s, r, t. split; [done|]. split; [apply strip_stamped|].
    intros s' r' t' Hin' Hsame. apply (row_le_stamped s r t s' r' t'). apply Hmin.
    - apply Hprep. by exists s', r', t'.
    - eapply same_key_trans; [apply same_key_stamped|].
      eapply same_key_trans; [apply Hsame|]. apply same_key_sym, same_key_stamped. }
  assert (forall s r t, ((s, r), Some t) ∈ timed_rows aligned ->
        exists w, w ∈ rows out /\ same_key K w r) as Hb'.
  { intros s r t Hin. destruct (Hb (stamped s r t)) as (w & Hw & Hsame).
    - apply Hprep. by exists s, r, t.
    - exists w. split; [done|]. eapply same_key_trans; [apply Hsame|].
      apply same_key_stamped. }
  split; [done|]. split; [done|]. split; [done|].
  intros s r t Hin Hstrict.
  assert (forall w, w ∈ rows out -> same_key K w r -> w = strip drops r) as Huniq.
  { intros w Hw Hsame. destruct (Ha' w Hw) as (s0 & r0 & t0 & Hin0 & -> & Hmin).
    assert (same_key K r0 r) as H0.
    { eapply same_key_trans; [|apply Hsame].
      apply same_key_sym, (same_key_strip drops K timed_K_kept). }
    destruct (Hstrict s0 r0 t0 Hin0 H0) as [?|Hlt]; [done|].
    specialize (Hmin s r t Hin (same_key_sym _ _ _ H0)). lia. }
  split; [|done].
  destruct (Hb' s r t Hin) as (w & Hw & Hsame).
  by rewrite <- (Huniq w Hw Hsame).
Qed.

End timed.

(** The shape of what the time-based strategy returns. *)
Section timed_shape.
Context {P : Pandas}.
Variable aligned : list aligned_item.

Let srcs := timed_tables aligned.
Let K : gset string := key_set {["_source"; "timestamp"]} srcs.

Lemma resolve_conflicts_time_based_eq :
  srcs <> [] -> K <> ∅ ->
  resolve_conflicts_time_based aligned = resolved_data (time_resolved aligned).
Proof.
  intros Hsrcs HK. unfold resolve_conflicts_time_based. rewrite timed_key_set.
  fold srcs. fold K.
  destruct (timed_frames aligned) eqn:E.
  { rewrite timed_frames_tables in E. by apply tag_all_nil in E. }
  rewrite <- E. clear E.
  destruct (elements K) eqn:E; [by apply key_set_elements_nonempty in E|].
  rewrite <- E. by rewrite timed_frames_tables.
Qed.

Lemma elem_of_time_resolved_columns c :
  c ∈ columns (time_resolved aligned)
  <-> c <> "_source" /\ c <> "timestamp"
      /\ exists s df, (s, df) ∈ srcs /\ c ∈ columns df.
Proof.
  unfold time_resolved. fold srcs K.
  cbn [columns drop drop_duplicates sort_values dropna_rows assign_column concat].
  rewrite list_elem_of_filter, elem_of_unique, elem_of_list_concat.
  split.
  - intros (Hc & l & (df' & -> & ([s df] & -> & Hsd)%list_elem_of_fmap)%list_elem_of_fmap
            & Hin).
    assert (c <> "_source" /\ c <> "timestamp") as [H1 H2].
    { split; intros ->; apply Hc; set_solver. }
    split; [done|]. split; [done|]. exists s, df. split; [done|].
    cbn [fst snd] in Hin. unfold source_tag in Hin.
    apply elem_of_columns_set_column in Hin as [?|?]; done.
  - intros (H1 & H2 & s & df & Hsd & Hin). split.
    + intros [?|[?|?%not_elem_of_nil]%elem_of_cons]%elem_of_cons; done.
    + exists (columns (source_tag s df)). split.
      * apply list_elem_of_fmap. exists (source_tag s df). split; [done|].
        apply list_elem_of_fmap. by exists (s, df).
      * apply elem_of_columns_set_column. by right.
Qed.
End timed_shape.

(** C4, amended. On tables that carry a [timestamp] column and have
    another column in common, time-based resolution leaves out every row
    whose timestamp does not parse, and returns one table, with one row
    for every common-key tuple found in the remaining rows; that row is a
    source row, its source label and its timestamp taken off, whose
    parsed timestamp is the latest among the remaining rows of its key.
    In particular a row whose rivals on its key all have a strictly
    earlier timestamp is the resolved row of its key, without its
    timestamp. *)
Theorem resolve_conflicts_time_based_spec {P : Pandas} {HP : PandasSpec P} aligned :
  let K := key_set {["_source"; "timestamp"]} (timed_tables aligned) in
  timed_tables aligned <> [] -> K <> ∅ ->
  exists out,
    resolve_conflicts_time_based aligned = resolved_data out
    /\ (forall w, w ∈ rows out ->
          exists s r t, ((s, r), Some t) ∈ timed_rows aligned
            /\ w = strip ["_source"; "timestamp"] r
            /\ forall s' r' t', ((s', r'), Some t') ∈ timed_rows aligned ->
                  same_key K r' r -> t' <= t)
    /\ (forall s r t, ((s, r), Some t) ∈ timed_rows aligned ->
          exists w, w ∈ rows out /\ same_key K w r)
    /\ (forall i j w w',
          rows out !! i = Some w -> rows out !! j = Some w' -> same_key K w w' -> i = j)
    /\ (forall s r t, ((s, r), Some t) ∈ timed_rows aligned ->
          (forall s' r' t', ((s', r'), Some t') ∈ timed_rows aligned ->
             same_key K r' r ->
             strip ["_source"; "timestamp"] r' = strip ["_source"; "timestamp"] r
             \/ t' < t) ->
          strip ["_source"; "timestamp"] r ∈ rows out
          /\ forall w, w ∈ rows out -> same_key K w r ->
               w = strip ["_source"; "timestamp"] r)
    /\ (forall r : gmap string value,
          r !! "_source" = None -> strip ["_source"; "timestamp"] r = delete "timestamp" r).
Proof.
  intros K Hsrcs HK. exists (time_resolved aligned).
  split; [by apply resolve_conflicts_time_based_eq|].
  destruct (timed_resolution aligned) as (Ha & Hb & Hc & Hd).
  split; [exact Ha|]. split; [exact Hb|]. split; [exact Hc|]. split; [exact Hd|].
  intros r Hr. unfold strip. cbn [foldr]. apply delete_id.
  by rewrite lookup_delete_ne.
Qed.

(** Timestamps 2024-01-01 from [A], 2024-02-01 from [B] and one that is
    no date from [C]: the row kept for [id = 1] is the row of [B] without
    its timestamp. *)
Lemma resolve_conflicts_time_based_witness :
  exists out,
    resolve_conflicts_time_based (H := Reference.pandas)
      [Examples.item_ta; Examples.item_tb; Examples.item_tc] = resolved_data out
    /\ rows out = [delete "timestamp" Examples.row_tb].
Proof.
  assert (timed_tables [Examples.item_ta; Examples.item_tb; Examples.item_tc] <> [])
    as H1 by done.
  assert (key_set {["_source"; "timestamp"]}
            (timed_tables [Examples.item_ta; Examples.item_tb; Examples.item_tc]) <> ∅)
    as H2 by by vm_compute.
  destruct (resolve_conflicts_time_based_spec (P := Reference.pandas)
              (HP := ReferenceFacts.pandas_spec)
              [Examples.item_ta; Examples.item_tb; Examples.item_tc] H1 H2)
    as (out & Heq & _).
  exists out. split; [exact Heq|].
  vm_compute in Heq. by injection Heq as <-.
Defined.

(** C4, as stated, fails on its own example: the row kept for the key
    is the row of [B] with the later timestamp, but without the
    [timestamp] cell, so it is not the row of [B]. *)
Lemma resolved_row_lacks_timestamp :
  resolve_conflicts_time_based (H := Reference.pandas)
    [Examples.item_ta; Examples.item_tb; Examples.item_tc]
  = resolved_data (mkDataFrame ["id"; "v"] [delete "timestamp" Examples.row_tb])
  /\ delete "timestamp" Examples.row_tb <> Examples.row_tb
  /\ ~ (exists out,
          resolve_conflicts_time_based (H := Reference.pandas)
            [Examples.item_ta; Examples.item_tb; Examples.item_tc] = resolved_data out
          /\ Examples.row_tb ∈ rows out).
Proof.
  assert (delete "timestamp" Examples.row_tb <> Examples.row_tb) as Hne.
  { intros Heq. apply (f_equal (fun m : gmap string value => m !! "timestamp")) in Heq.
    by vm_compute in Heq. }
  split; [vm_compute; reflexivity|]. split; [done|].
  intros (out & Heq & Hin). vm_compute in Heq. injection Heq as <-.
  apply list_elem_of_singleton in Hin. by apply Hne.
Qed.

(** C10. When time-based resolution makes a table (some table carries
    a [timestamp] column, and those that do have another column in
    common), the table it returns has neither the [timestamp] column nor
    the source label, as column or as cell, although [timestamp] is a
    column of every table it was made from; every other column of those
    tables is kept. *)
Theorem time_based_drops_timestamp `{Pandas} aligned :
  timed_tables aligned <> [] ->
  key_set {["_source"; "timestamp"]} (timed_tables aligned) <> ∅ ->
  (forall s df, (s, df) ∈ timed_tables aligned -> "timestamp" ∈ columns df)
  /\ exists out,
    resolve_conflicts_time_based aligned = resolved_data out
    /\ ("timestamp" ∉ columns out) /\ ("_source" ∉ columns out)
    /\ (forall w, w ∈ rows out -> w !! "timestamp" = None /\ w !! "_source" = None)
    /\ (forall c, c <> "timestamp" -> c <> "_source" ->
          (c ∈ columns out)
          <-> (exists s df, (s, df) ∈ timed_tables aligned /\ c ∈ columns df)).
Proof.
  intros Hsrcs HK. split.
  { intros s df [Hts _]%list_elem_of_filter. done. }
  exists (time_resolved aligned).
  split; [by apply resolve_conflicts_time_based_eq|].
  split; [rewrite elem_of_time_resolved_columns; by intros (_ & ? & _)|].
  split; [rewrite elem_of_time_resolved_columns; by intros (? & _)|].
  split.
  - intros w (r & -> & _)%list_elem_of_fmap.
    change (foldr delete r ["_source"; "timestamp"])
      with (strip ["_source"; "timestamp"] r).
    rewrite !lookup_strip. split; by rewrite decide_True by set_solver.
  - intros c H1 H2. rewrite elem_of_time_resolved_columns. naive_solver.
Qed.

(** The columns of the result on the same input: [id] and [v]. *)
Lemma time_based_drops_timestamp_witness :
  exists out,
    resolve_conflicts_time_based (H := Reference.pandas)
      [Examples.item_ta; Examples.item_tb; Examples.item_tc] = resolved_data out
    /\ columns out = ["id"; "v"].
Proof.
  assert (timed_tables [Examples.item_ta; Examples.item_tb; Examples.item_tc] <> [])
    as H1 by done.
  assert (key_set {["_source"; "timestamp"]}
            (timed_tables [Examples.item_ta; Examples.item_tb; Examples.item_tc]) <> ∅)
    as H2 by by vm_compute.
  destruct (time_based_drops_timestamp (H := Reference.pandas)
              [Examples.item_ta; Examples.item_tb; Examples.item_tc] H1 H2)
    as (_ & out & Heq & _).
  exists out. split; [exact Heq|].
  vm_compute in Heq. by injection Heq as <-.
Defined.

Lemma time_based_no_op `{Pandas} aligned :
  tables aligned = [] \/ timed_tables aligned = []
  \/ key_set {["_source"; "timestamp"]} (timed_tables aligned) = ∅ ->
  resolve_conflicts_time_based aligned = aligned.
Proof.
  intros Hor. unfold resolve_conflicts_time_based.
  rewrite timed_key_set.
  destruct (timed_frames aligned) eqn:E; [done|].
  destruct Hor as [Hnil|[Hnil|Hkeys]].
  - rewrite timed_frames_tables in E. unfold timed_tables in E.
    rewrite Hnil in E. done.
  - rewrite timed_frames_tables, Hnil in E. done.
  - by rewrite Hkeys, elements_empty.
Qed.

Lemma timed_tables_all aligned :
  (forall s df, (s, df) ∈ tables aligned -> "timestamp" ∈ columns df) ->
  timed_tables aligned = tables aligned.
Proof.
  intros Hall. unfold timed_tables.
  induction (tables aligned) as [|[s df] l IH]; [done|].
  rewrite filter_cons. cbn [snd].
  rewrite decide_True by (apply (Hall s df); left).
  f_equal. apply IH. intros s' df' Hin. apply (Hall s' df'). by right.
Qed.


End ResolveFacts.

(** ** Conflict detection *)

Module ConflictFacts.
Import Frame Conflicts Spec FrameFacts ResolveFacts.

(** A loop that sets [acc[k] = F k] for the keys that pass a test. *)
Lemma lookup_foldl_insert_if `{Countable K} {V} (T : K -> Prop)
    `{forall k, Decision (T k)} (F : K -> V) (step : gmap K V -> K -> gmap K V) :
  (forall acc k, step acc k = if decide (T k) then <[k := F k]> acc else acc) ->
  forall ks acc k0,
    foldl step acc ks !! k0
    = if decide (k0 ∈ ks /\ T k0) then Some (F k0) else acc !! k0.
Proof.
  intros Hstep ks. induction ks as [|k ks IH]; intros acc k0; cbn [foldl].
  - rewrite decide_False; [done|]. by intros [?%not_elem_of_nil _].
  - rewrite IH, Hstep. destruct (decide (k0 ∈ ks /\ T k0)) as [[Hin HT]|Hno].
    + rewrite decide_True; [done|]. split; [by right|done].
    + destruct (decide (T k)) as [HT|HT].
      * destruct (decide (k = k0)) as [->|Hne].
        -- rewrite lookup_insert_eq, decide_True; [done|]. split; [left|done].
        -- rewrite lookup_insert_ne by done. rewrite decide_False; [done|].
           intros [[?|?]%elem_of_cons ?]; [congruence|tauto].
      * rewrite decide_False; [done|].
        intros [[->|?]%elem_of_cons ?]; tauto.
Qed.

Lemma tagged_frames_tables aligned :
  tagged_frames aligned
  = map (fun sd : string * DataFrame => (sd.1, source_tag sd.1 sd.2)) (tables aligned).
Proof.
  unfold tagged_frames, tables.
  induction aligned as [|[f [df|j]] aligned IH]; cbn; [done| |done]. by rewrite IH.
Qed.

Lemma tagged_frames_data aligned :
  (tagged_frames aligned).*2 = tag_all source_tag (tables aligned).
Proof.
  rewrite tagged_frames_tables. unfold tag_all.
  change (?l.*2) with (map snd l). by rewrite map_map.
Qed.

Lemma tagged_frames_names aligned :
  (tagged_frames aligned).*1 = (tables aligned).*1.
Proof.
  rewrite tagged_frames_tables.
  change (?l.*1) with (map fst l). by rewrite map_map.
Qed.

Lemma detect_key_set aligned :
  common_columns (tagged_frames aligned).*2 ∖ {["_source"]}
  = key_set {["_source"]} (tables aligned).
Proof.
  rewrite tagged_frames_data. apply key_set_tagged.
  intros s df c. apply one_tag_columns.
Qed.

Lemma group_key_agree keys (r r' : gmap string value) :
  (forall c, c ∈ keys -> r !! c = r' !! c) -> group_key keys r = group_key keys r'.
Proof.
  unfold group_key. induction keys as [|c keys IH]; intros Hall; [done|].
  cbn. rewrite (Hall c) by left. rewrite IH; [done|].
  intros c' Hc'. apply Hall. by right.
Qed.

Lemma two_of_unique {A} `{EqDecision A} (l : list A) :
  (1 < length (unique l))%nat <-> exists x y, x ∈ l /\ y ∈ l /\ x <> y.
Proof. apply unique_two. Qed.

Lemma elem_of_dropna_column c (g : list (gmap string value)) x :
  x ∈ dropna (column c g) <-> exists r, r ∈ g /\ r !! c = Some x.
Proof.
  unfold dropna, column. rewrite list_elem_of_omap. split.
  - intros (o & (r & -> & Hr)%list_elem_of_fmap & Ho). by exists r.
  - intros (r & Hr & Hx). exists (r !! c). split; [|done].
    by apply (list_elem_of_fmap_2 (fun r : gmap string value => r !! c)).
Qed.

Lemma elem_of_length_pos {A} (l : list A) x : x ∈ l -> (0 < length l)%nat.
Proof. destruct l; [by intros ?%not_elem_of_nil|cbn; lia]. Qed.

Lemma match_nonempty {A B} (l : list A) (x y : B) :
  l <> [] -> match l with [] => x | _ :: _ => y end = y.
Proof. by destruct l. Qed.

Lemma conflicting_values_lookup names c (g : list (gmap string value)) s :
  conflicting_values names c g !! s
  = if decide (s ∈ names /\ (0 < length (source_values s c g))%nat)
    then Some (source_values s c g) else None.
Proof.
  unfold conflicting_values.
  rewrite (lookup_foldl_insert_if
             (fun s => (0 < length (source_values s c g))%nat)
             (fun s => source_values s c g)); [by rewrite lookup_empty|].
  intros acc s'. cbn zeta. by case_decide.
Qed.

Lemma conflicting_fields_lookup names keys cols (g : list (gmap string value)) c :
  conflicting_fields names keys cols g !! c
  = if decide (c ∈ cols
               /\ (~ (c ∈ keys \/ c = "_source")
                   /\ (1 < length (unique (dropna (column c g))))%nat))
    then Some (conflicting_values names c g) else None.
Proof.
  unfold conflicting_fields.
  rewrite (lookup_foldl_insert_if
             (fun c => ~ (c ∈ keys \/ c = "_source")
                       /\ (1 < length (unique (dropna (column c g))))%nat)
             (fun c => conflicting_values names c g)); [by rewrite lookup_empty|].
  intros acc c'. cbn zeta. repeat case_decide; try done; tauto.
Qed.

(** Conflict detection, group by group. *)
Section detect.
Variable aligned : list aligned_item.

Let srcs := tables aligned.
Let K : gset string := key_set {["_source"]} srcs.
Let keys : list string := elements K.
Let names : list string := srcs.*1.
Let combined : DataFrame := concat (tag_all source_tag srcs).

Let conflicting (k : list value) : Prop :=
  flagged names keys (columns combined) (group_rows keys k (rows combined)).

Lemma detect_conflicts_lookup k :
  detect_conflicts aligned !! k
  = if decide (srcs <> [] /\ keys <> []
               /\ k ∈ omap (group_key keys) (rows combined) /\ conflicting k)
    then Some (conflicting_fields names keys (columns combined)
                 (group_rows keys k (rows combined)))
    else None.
Proof.
  unfold detect_conflicts. rewrite detect_key_set, tagged_frames_data, tagged_frames_names.
  fold srcs K keys names combined.
  destruct (decide (srcs = [])) as [Hnil|Hsrcs].
  { rewrite decide_False by by intros [? _]. by rewrite Hnil. }
  rewrite match_nonempty by by rewrite tag_all_nil.
  destruct (decide (keys = [])) as [Hk|Hk].
  { rewrite decide_False by by intros (_ & ? & _). by rewrite Hk. }
  rewrite match_nonempty by done.
  unfold groupby. rewrite foldl_fmap.
  rewrite (lookup_foldl_insert_if conflicting
             (fun k => conflicting_fields names keys (columns combined)
                         (group_rows keys k (rows combined)))).
  - rewrite lookup_empty.
    destruct (decide (k ∈ unique (omap (group_key keys) (rows combined))
                      /\ conflicting k)) as [[Hin Hc]|Hno].
    + rewrite decide_True; [done|]. rewrite elem_of_unique in Hin. done.
    + rewrite decide_False; [done|]. intros (_ & _ & Hin & Hc). apply Hno.
      split; [|done]. by rewrite elem_of_unique.
  - intros acc k'. unfold conflicting, flagged.
    repeat case_decide; try done; tauto.
Qed.

Lemma rows_combined_detect :
  rows combined
  = map (fun sr : string * gmap string value => source_tag_row sr.1 sr.2)
        (source_rows srcs).
Proof. apply (rows_concat_tagged source_tag source_tag_row). done. Qed.

Lemma keys_not_source c : c ∈ keys -> c <> "_source".
Proof.
  unfold keys, K, key_set. rewrite elem_of_elements, elem_of_difference.
  intros [_ Hc] ->. apply Hc. set_solver.
Qed.

Lemma group_key_tagged s r : group_key keys (source_tag_row s r) = group_key keys r.
Proof.
  apply group_key_agree. intros c Hc%keys_not_source.
  unfold source_tag_row. by rewrite lookup_insert_ne.
Qed.

Lemma elem_of_group k rt :
  rt ∈ group_rows keys k (rows combined)
  <-> exists s r, in_group srcs K k s r /\ rt = source_tag_row s r.
Proof.
  unfold group_rows, in_group. fold keys. rewrite list_elem_of_filter, rows_combined_detect.
  change (map ?f ?l) with (f <$> l). rewrite list_elem_of_fmap. split.
  - intros (Hk & [s r] & -> & Hin). cbn [fst snd] in *.
    exists s, r. by rewrite <- (group_key_tagged s).
  - intros (s & r & [Hin Hk] & ->). split; [by rewrite group_key_tagged|].
    by exists (s, r).
Qed.

Lemma group_exists k :
  k ∈ omap (group_key keys) (rows combined) <-> exists s r, in_group srcs K k s r.
Proof.
  rewrite list_elem_of_omap, rows_combined_detect. unfold in_group. fold keys.
  change (map ?f ?l) with (f <$> l). split.
  - intros (rt & ([s r] & -> & Hin)%list_elem_of_fmap & Hk). cbn [fst snd] in *.
    exists s, r. by rewrite <- (group_key_tagged s).
  - intros (s & r & Hin & Hk). exists (source_tag_row s r).
    split; [|by rewrite group_key_tagged].
    apply list_elem_of_fmap. by exists (s, r).
Qed.

Lemma sources_differ k :
  (1 < length (unique (column "_source" (group_rows keys k (rows combined)))))%nat
  <-> exists s1 r1 s2 r2, in_group srcs K k s1 r1 /\ in_group srcs K k s2 r2 /\ s1 <> s2.
Proof.
  rewrite unique_two. unfold column. change (map ?f ?l) with (f <$> l). split.
  - intros (x & y & (rx & -> & Hx)%list_elem_of_fmap
              & (ry & -> & Hy)%list_elem_of_fmap & Hne).
    apply elem_of_group in Hx as (s1 & r1 & H1 & ->).
    apply elem_of_group in Hy as (s2 & r2 & H2 & ->).
    exists s1, r1, s2, r2. split; [done|]. split; [done|]. intros ->. apply Hne.
    unfold source_tag_row. by rewrite !lookup_insert_eq.
  - intros (s1 & r1 & s2 & r2 & H1 & H2 & Hne).
    exists (Some (VStr s1)), (Some (VStr s2)). split; [|split; [|congruence]].
    + apply list_elem_of_fmap. exists (source_tag_row s1 r1).
      split; [unfold source_tag_row; by rewrite lookup_insert_eq|].
      apply elem_of_group. by exists s1, r1.
    + apply list_elem_of_fmap. exists (source_tag_row s2 r2).
      split; [unfold source_tag_row; by rewrite lookup_insert_eq|].
      apply elem_of_group. by exists s2, r2.
Qed.

Lemma group_value k c x :
  c <> "_source" ->
  x ∈ dropna (column c (group_rows keys k (rows combined)))
  <-> exists s r, in_group srcs K k s r /\ r !! c = Some x.
Proof.
  intros Hc. rewrite elem_of_dropna_column. split.
  - intros (rt & (s & r & Hg & ->)%elem_of_group & Hx).
    exists s, r. split; [done|]. unfold source_tag_row in Hx.
    by rewrite lookup_insert_ne in Hx.
  - intros (s & r & Hg & Hx). exists (source_tag_row s r). split.
    + apply elem_of_group. by exists s, r.
    + unfold source_tag_row. by rewrite lookup_insert_ne.
Qed.

Lemma source_value k c s x :
  c <> "_source" ->
  x ∈ source_values s c (group_rows keys k (rows combined))
  <-> exists r, in_group srcs K k s r /\ r !! c = Some x.
Proof.
  intros Hc. unfold source_values. rewrite elem_of_unique, elem_of_dropna_column.
  split.
  - intros (rt & [Hs (s' & r & Hg & ->)%elem_of_group]%list_elem_of_filter & Hx).
    unfold source_tag_row in Hs, Hx. rewrite lookup_insert_eq in Hs.
    injection Hs as ->. rewrite lookup_insert_ne in Hx by done. by exists r.
  - intros (r & Hg & Hx). exists (source_tag_row s r). split.
    + apply list_elem_of_filter. split.
      * unfold source_tag_row. by rewrite lookup_insert_eq.
      * apply elem_of_group. by exists s, r.
    + unfold source_tag_row. by rewrite lookup_insert_ne.
Qed.

Lemma elem_of_columns_combined c :
  c <> "_source" ->
  c ∈ columns combined <-> exists s df, (s, df) ∈ srcs /\ c ∈ columns df.
Proof.
  intros Hc. unfold combined, concat, tag_all. cbn [columns].
  rewrite elem_of_unique, elem_of_list_concat. split.
  - intros (l & (df' & -> & ([s df] & -> & Hsd)%list_elem_of_fmap)%list_elem_of_fmap
              & Hin).
    exists s, df. split; [done|]. cbn [fst snd] in Hin. unfold source_tag in Hin.
    apply elem_of_columns_set_column in Hin as [?|?]; done.
  - intros (s & df & Hsd & Hin). exists (columns (source_tag s df)). split.
    + apply list_elem_of_fmap. exists (source_tag s df). split; [done|].
      apply list_elem_of_fmap. by exists (s, df).
    + apply elem_of_columns_set_column. by right.
Qed.

Lemma field_flagged k c :
  is_Some (conflicting_fields names keys (columns combined)
             (group_rows keys k (rows combined)) !! c)
  <-> disputed srcs K k c.
Proof.
  rewrite conflicting_fields_lookup. unfold disputed. fold keys. split.
  - case_decide as Hd; [|by intros [? ?]]. intros _.
    destruct Hd as (Hcol & Hnk & Hlen).
    assert (c <> "_source") as Hc by tauto.
    split; [by apply elem_of_columns_combined|].
    split; [unfold keys in Hnk; rewrite elem_of_elements in Hnk; tauto|].
    split; [done|].
    apply unique_two in Hlen as (x & y & Hx & Hy & Hne).
    exists x, y. split; [done|]. split; by apply (group_value k c).
  - intros (Hcol & HK & Hc & x & y & Hne & Hx & Hy).
    rewrite decide_True; [done|].
    split; [by apply elem_of_columns_combined|]. split.
    + unfold keys. rewrite elem_of_elements. tauto.
    + apply unique_two. exists x, y.
      split; [by apply (group_value k c)|]. split; [by apply (group_value k c)|done].
Qed.

Lemma detect_conflicts_is_Some k :
  is_Some (detect_conflicts aligned !! k)
  <-> K <> ∅
      /\ (exists s1 r1 s2 r2, in_group srcs K k s1 r1 /\ in_group srcs K k s2 r2 /\ s1 <> s2)
      /\ exists c, disputed srcs K k c.
Proof.
  rewrite detect_conflicts_lookup. unfold conflicting, flagged. split.
  - case_decide as Hd; [|by intros [? ?]]. intros _.
    destruct Hd as (Hsrcs & Hk & Hin & Hlen & Hcf).
    split. { intros HK. apply Hk. unfold keys. by rewrite HK, elements_empty. }
    split; [by apply sources_differ|].
    apply map_choose in Hcf as (c & cv & Hc). exists c. apply field_flagged.
    by exists cv.
  - intros (HK & Hsrc & c & Hd).
    rewrite decide_True; [done|].
    destruct Hsrc as (s1 & r1 & s2 & r2 & H1 & H2 & Hne).
    split.
    { destruct H1 as [H1 _]. apply elem_of_source_rows in H1 as (df & H1 & _).
      intros Hnil. fold srcs in H1. rewrite Hnil in H1. by apply not_elem_of_nil in H1. }
    split; [by apply key_set_elements_nonempty|].
    split; [apply group_exists; by exists s1, r1|].
    split; [apply sources_differ; by exists s1, r1, s2, r2|].
    apply field_flagged in Hd as [cv Hcv]. intros Hempty.
    by rewrite Hempty, lookup_empty in Hcv.
Qed.

Lemma detect_conflicts_entry k cf :
  detect_conflicts aligned !! k = Some cf ->
  (forall c, is_Some (cf !! c) <-> disputed srcs K k c)
  /\ (forall c cv s vs, cf !! c = Some cv -> cv !! s = Some vs ->
        vs <> [] /\ NoDup vs
        /\ forall x, x ∈ vs <-> exists r, in_group srcs K k s r /\ r !! c = Some x)
  /\ (forall c cv s r x, cf !! c = Some cv -> in_group srcs K k s r -> r !! c = Some x ->
        is_Some (cv !! s)).
Proof.
  rewrite detect_conflicts_lookup. case_decide as Hd; [|done]. intros [= <-].
  split; [intros c; apply field_flagged|]. split.
  - intros c cv s vs Hc Hs.
    assert (disputed srcs K k c) as (_ & _ & Hns & _) by (apply field_flagged; by exists cv).
    rewrite conflicting_fields_lookup in Hc. case_decide; [|done].
    injection Hc as <-.
    rewrite conflicting_values_lookup in Hs. case_decide as Hv; [|done].
    injection Hs as <-. destruct Hv as [_ Hlen].
    split; [intros Hnil; rewrite Hnil in Hlen; cbn in Hlen; lia|].
    split; [apply NoDup_unique|]. intros x. by apply source_value.
  - intros c cv s r x Hc Hg Hx.
    assert (disputed srcs K k c) as (_ & _ & Hns & _) by (apply field_flagged; by exists cv).
    rewrite conflicting_fields_lookup in Hc. case_decide; [|done].
    injection Hc as <-.
    rewrite conflicting_values_lookup. rewrite decide_True; [done|]. split.
    + destruct Hg as [Hin _]. apply elem_of_source_rows in Hin as (df & Hin & _).
      unfold names. apply list_elem_of_fmap. by exists (s, df).
    + apply (elem_of_length_pos _ x). apply source_value; [done|by exists r].
Qed.
End detect.

(** C1, amended. A group of rows that agree on every column common to
    all tables contributes an entry exactly when two different sources
    have rows in it and some column of the tables, neither a key column
    nor the source label, has two different non-null values among its
    rows.  The entry lists every such column, and for it the distinct
    non-null values of each source that has any.  Every column that all
    tables share is a key column: so [A] and [B], both with columns [id]
    and [v] and rows [{id: 1, v: "a"}] and [{id: 1, v: "b"}], yield no
    entry; with a third source [C] that has [id] only and a row
    [{id: 1}], they yield exactly one entry, for key [(1,)], reporting
    [v] with [["a"]] for [A] and [["b"]] for [B]; and when [A] and [B]
    agree on [v] there is no entry. *)
Theorem detect_conflicts_entries :
  (forall aligned k,
     let srcs := tables aligned in
     let K := key_set {["_source"]} srcs in
     is_Some (detect_conflicts aligned !! k)
     <-> K <> ∅
         /\ (exists s1 r1 s2 r2,
               in_group srcs K k s1 r1 /\ in_group srcs K k s2 r2 /\ s1 <> s2)
         /\ exists c, disputed srcs K k c)
  /\ (forall aligned k cf,
        let srcs := tables aligned in
        let K := key_set {["_source"]} srcs in
        detect_conflicts aligned !! k = Some cf ->
        (forall c, is_Some (cf !! c) <-> disputed srcs K k c)
        /\ (forall c cv s vs, cf !! c = Some cv -> cv !! s = Some vs ->
              vs <> [] /\ NoDup vs
              /\ forall x, x ∈ vs <-> exists r, in_group srcs K k s r /\ r !! c = Some x)
        /\ (forall c cv s r x,
              cf !! c = Some cv -> in_group srcs K k s r -> r !! c = Some x ->
              is_Some (cv !! s)))
  /\ detect_conflicts [Examples.item_a; Examples.item_b] = ∅
  /\ detect_conflicts [Examples.item_a; Examples.item_b; Examples.item_c]
     = {[ [VInt 1] := {[ "v" := {[ "A" := [VStr "a"]; "B" := [VStr "b"] ]} ]} ]}
  /\ detect_conflicts [Examples.item_a; Examples.item_b_agreeing; Examples.item_c] = ∅.
Proof.
  split; [intros aligned k; apply detect_conflicts_is_Some|].
  split; [intros aligned k cf; apply detect_conflicts_entry|].
  split; [vm_compute; reflexivity|]. split; vm_compute; reflexivity.
Qed.

(** C1, as stated, fails on its own example: both tables have the
    columns [id] and [v], so both are key columns, the two rows fall in
    different groups, and no entry is made for key [(1,)], nor any
    other. *)
Lemma shared_value_column_is_key :
  detect_conflicts [Examples.item_a; Examples.item_b] = ∅
  /\ detect_conflicts [Examples.item_a; Examples.item_b] !! [VInt 1] = None
  /\ key_set {["_source"]} (tables [Examples.item_a; Examples.item_b])
     = {["id"; "v"]}.
Proof. split; [|split]; vm_compute; reflexivity. Qed.

(** C6. With fewer than two tables among the items, no conflict is
    reported. *)
Theorem detect_conflicts_needs_two aligned :
  (length (tables aligned) < 2)%nat -> detect_conflicts aligned = ∅.
Proof.
  intros Hlen. apply map_empty. intros k.
  destruct (detect_conflicts aligned !! k) as [cf|] eqn:E; [exfalso|done].
  assert (is_Some (detect_conflicts aligned !! k)) as Hsome by by exists cf.
  apply detect_conflicts_is_Some in Hsome
    as (_ & (s1 & r1 & s2 & r2 & [H1 _] & [H2 _] & Hne) & _).
  apply elem_of_source_rows in H1 as (df1 & H1 & _).
  apply elem_of_source_rows in H2 as (df2 & H2 & _).
  destruct (tables aligned) as [|sd [|sd' rest]]; [| |cbn in Hlen; lia].
  - by apply not_elem_of_nil in H1.
  - apply list_elem_of_singleton in H1, H2. congruence.
Qed.

(** One table and one nested item. *)
Lemma detect_conflicts_needs_two_witness :
  (length (tables [Examples.item_a; mkItem "N" (Nested Examples.seven_tags)]) < 2)%nat
  /\ detect_conflicts [Examples.item_a; mkItem "N" (Nested Examples.seven_tags)] = ∅.
Proof.
  assert (length (tables [Examples.item_a; mkItem "N" (Nested Examples.seven_tags)]) < 2)%nat
    as Hlen by (cbn; lia).
  split; [exact Hlen|].
  exact (detect_conflicts_needs_two _ Hlen).
Defined.

End ConflictFacts.

(** ** Type verification *)

Module TypesFacts.
Import Metadata Extract Types Spec SpecMore.

Lemma types_at_add_type q t ft p :
  types_at (add_type q t ft) p
  = if decide (q = p) then types_at ft p ∪ {[t]} else types_at ft p.
Proof.
  unfold types_at, add_type. case_decide as Hq.
  - subst q. by rewrite lookup_insert_eq.
  - by rewrite lookup_insert_ne.
Qed.

Lemma populated_add_type q t ft : populated ft -> populated (add_type q t ft).
Proof.
  intros Hft p s. unfold add_type. destruct (decide (q = p)) as [->|Hq].
  - rewrite lookup_insert_eq. intros [= <-]. set_solver.
  - rewrite lookup_insert_ne by done. apply Hft.
Qed.

Lemma populated_lookup ft p :
  populated ft -> (is_Some (ft !! p) <-> exists t, t ∈ types_at ft p).
Proof.
  intros Hft. unfold types_at. split.
  - intros [s Hs]. rewrite Hs. simpl. apply set_choose_L. by eapply Hft.
  - intros [t Ht]. destruct (ft !! p); [done|]. simpl in Ht. set_solver.
Qed.

(** The collection notes the type of every keyed leaf, one after the
    other, and does nothing else. *)
Lemma collect_fold data : forall path ft,
  collect_field_types_in_data_structure data ft path
  = foldl note ft (keyed_leaves data path).
Proof.
  induction data as [kvs IH|l IH|v] using json_ind; intros path ft; [| |done].
  - cbn [collect_field_types_in_data_structure keyed_leaves]. revert ft.
    induction IH as [|[k val] rest Hval _ IHrest]; intros ft; [done|].
    rewrite foldl_app, <- IHrest. f_equal.
    destruct val; [apply Hval|apply Hval|done].
  - cbn [collect_field_types_in_data_structure keyed_leaves]. revert ft.
    induction IH as [|item rest Hitem _ IHrest]; intros ft; [done|].
    by rewrite foldl_app, <- IHrest, <- Hitem.
Qed.

Lemma populated_foldl_note leaves : forall ft,
  populated ft -> populated (foldl note ft leaves).
Proof.
  induction leaves as [|pv leaves IH]; intros ft Hft; [done|].
  cbn [foldl]. apply IH. by apply populated_add_type.
Qed.

Lemma types_at_foldl_note leaves : forall ft p t,
  t ∈ types_at (foldl note ft leaves) p
  <-> t ∈ types_at ft p \/ exists v, (p, v) ∈ leaves /\ t = type_name v.
Proof.
  induction leaves as [|[q v] leaves IH]; intros ft p t.
  - cbn [foldl]. split; [by left|]. intros [?|(v & Hv & _)]; [done|].
    by apply not_elem_of_nil in Hv.
  - cbn [foldl]. rewrite IH. unfold note at 1. cbn [fst snd].
    rewrite types_at_add_type. case_decide as Hq.
    + subst q. rewrite elem_of_union, elem_of_singleton. split.
      * intros [[?| ->]|(w & Hw & ->)]; [by left| |].
        -- right. exists v. split; [left|done].
        -- right. exists w. split; [by right|done].
      * intros [?|(w & Hw & ->)]; [by left; left|].
        apply elem_of_cons in Hw as [[= ->]|Hw]; [by left; right|].
        right. by exists w.
    + split.
      * intros [?|(w & Hw & ->)]; [by left|]. right. exists w. split; [by right|done].
      * intros [?|(w & Hw & ->)]; [by left|].
        apply elem_of_cons in Hw as [[= ? ?]|Hw]; [done|]. right. by exists w.
Qed.

Section tables.
Context `{Pandas}.

Lemma populated_foldl_columns rs cols : forall ft,
  populated ft -> populated (foldl (note_column rs) ft cols).
Proof.
  induction cols as [|c cols IH]; intros ft Hft; [done|].
  cbn [foldl]. apply IH. by apply populated_add_type.
Qed.

Lemma types_at_foldl_columns rs cols : forall ft p t,
  t ∈ types_at (foldl (note_column rs) ft cols) p
  <-> t ∈ types_at ft p \/ (p ∈ cols /\ t = series_dtype (Frame.column p rs)).
Proof.
  induction cols as [|c cols IH]; intros ft p t.
  - cbn [foldl]. split; [by left|]. intros [?|[Hp _]]; [done|].
    by apply not_elem_of_nil in Hp.
  - cbn [foldl]. rewrite IH. unfold note_column at 1.
    rewrite types_at_add_type, elem_of_cons. case_decide as Hc.
    + subst c. rewrite elem_of_union, elem_of_singleton. naive_solver.
    + naive_solver.
Qed.

Lemma field_types_of_fold items : field_types_of items = foldl note_item ∅ items.
Proof. done. Qed.

Lemma populated_foldl_items items : forall ft,
  populated ft -> populated (foldl note_item ft items).
Proof.
  induction items as [|item items IH]; intros ft Hft; [done|].
  cbn [foldl]. apply IH. unfold note_item. destruct (data item) as [df|j].
  - by apply populated_foldl_columns.
  - rewrite collect_fold. by apply populated_foldl_note.
Qed.

Lemma types_at_foldl_items items : forall ft p t,
  t ∈ types_at (foldl note_item ft items) p
  <-> t ∈ types_at ft p \/ exists item, item ∈ items /\ seen_in item p t.
Proof.
  induction items as [|item items IH]; intros ft p t.
  - cbn [foldl]. split; [by left|]. intros [?|(i & Hi & _)]; [done|].
    by apply not_elem_of_nil in Hi.
  - cbn [foldl]. rewrite IH.
    assert (t ∈ types_at (note_item ft item) p
            <-> t ∈ types_at ft p \/ seen_in item p t) as ->.
    { unfold note_item, seen_in. destruct (data item) as [df|j].
      - apply types_at_foldl_columns.
      - rewrite collect_fold. apply types_at_foldl_note. }
    split.
    + intros [[?|?]|(i & Hi & ?)]; [by left| |].
      * right. exists item. split; [left|done].
      * right. exists i. split; [by right|done].
    + intros [?|(i & Hi & ?)]; [by left; left|].
      apply elem_of_cons in Hi as [->|Hi]; [by left; right|].
      right. by exists i.
Qed.

Lemma types_at_field_types_of items p t :
  t ∈ types_at (field_types_of items) p
  <-> exists item, item ∈ items /\ seen_in item p t.
Proof.
  rewrite field_types_of_fold, types_at_foldl_items. unfold types_at at 1.
  rewrite lookup_empty. simpl. set_solver.
Qed.

Lemma populated_field_types_of items : populated (field_types_of items).
Proof.
  rewrite field_types_of_fold. apply populated_foldl_items.
  intros p s Hp. by rewrite lookup_empty in Hp.
Qed.

Lemma verify_data_types_lookup items p l :
  verify_data_types items !! p = Some l
  <-> exists s, field_types_of items !! p = Some s /\ (1 < size s)%nat /\ l = elements s.
Proof.
  unfold verify_data_types. rewrite lookup_fmap, fmap_Some. split.
  - intros (s & Hs & ->). apply map_lookup_filter_Some in Hs as [Hs Hsz].
    by exists s.
  - intros (s & Hs & Hsz & ->). exists s. split; [|done].
    by apply map_lookup_filter_Some.
Qed.

End tables.

Lemma size_two (s : gset string) :
  (1 < size s)%nat <-> exists x y, x ∈ s /\ y ∈ s /\ x <> y.
Proof.
  split.
  - intros Hsz. destruct (set_choose_L s) as [x Hx].
    { intros ->. rewrite size_empty in Hsz. lia. }
    destruct (set_choose_L (s ∖ {[x]})) as [y Hy].
    { intros He. assert (size (s ∖ {[x]}) = 0%nat) as Hz by (by rewrite He, size_empty).
      rewrite size_difference, size_singleton in Hz by set_solver. lia. }
    exists x, y. set_solver.
  - intros (x & y & Hx & Hy & Hne).
    assert (size ({[x]} ∪ {[y]} : gset string) = 2%nat) as H2.
    { rewrite size_union by set_solver. by rewrite !size_singleton. }
    assert (size ({[x]} ∪ {[y]} : gset string) <= size s)%nat.
    { apply subseteq_size. set_solver. }
    lia.
Qed.

Lemma elem_of_values_at p v leaves : v ∈ values_at p leaves <-> (p, v) ∈ leaves.
Proof.
  unfold values_at. rewrite list_elem_of_fmap. split.
  - intros ([q w] & -> & Hin). apply list_elem_of_filter in Hin as [Hq Hin].
    simpl in Hq. by subst q.
  - intros Hin. exists (p, v). split; [done|]. by apply list_elem_of_filter.
Qed.

(** X1. Type verification reports a field exactly when two different
    type names were seen for it, in two fragments or in one: for a table
    the dtype of the column of that name, for a nested structure the type
    of a leaf under that path.  What it reports for the field is the
    list of all type names seen for it, each once, so at least two. *)
Theorem verify_data_types_reports `{Pandas} resolved_data p :
  (is_Some (verify_data_types resolved_data !! p)
   <-> exists i1 i2 t1 t2,
         i1 ∈ resolved_data /\ i2 ∈ resolved_data
         /\ seen_in i1 p t1 /\ seen_in i2 p t2 /\ t1 <> t2)
  /\ (forall l, verify_data_types resolved_data !! p = Some l ->
        NoDup l /\ (1 < length l)%nat
        /\ forall t, t ∈ l <-> exists i, i ∈ resolved_data /\ seen_in i p t).
Proof.
  split.
  - split.
    + intros [l Hl]. apply verify_data_types_lookup in Hl as (s & Hs & Hsz & _).
      apply size_two in Hsz as (t1 & t2 & H1 & H2 & Hne).
      assert (types_at (field_types_of resolved_data) p = s) as Hat
        by (unfold types_at; by rewrite Hs).
      rewrite <- Hat in H1, H2.
      apply types_at_field_types_of in H1 as (i1 & Hi1 & Hs1).
      apply types_at_field_types_of in H2 as (i2 & Hi2 & Hs2).
      by exists i1, i2, t1, t2.
    + intros (i1 & i2 & t1 & t2 & Hi1 & Hi2 & Hs1 & Hs2 & Hne).
      assert (t1 ∈ types_at (field_types_of resolved_data) p) as H1
        by (apply types_at_field_types_of; by exists i1).
      assert (t2 ∈ types_at (field_types_of resolved_data) p) as H2
        by (apply types_at_field_types_of; by exists i2).
      unfold types_at in H1, H2.
      destruct (field_types_of resolved_data !! p) as [s|] eqn:Hs; [|set_solver].
      simpl in H1, H2. exists (elements s). apply verify_data_types_lookup.
      exists s. split; [done|]. split; [|done]. apply size_two. by exists t1, t2.
  - intros l Hl. apply verify_data_types_lookup in Hl as (s & Hs & Hsz & ->).
    split; [apply NoDup_elements|]. split; [done|]. intros t.
    rewrite elem_of_elements, <- types_at_field_types_of. unfold types_at.
    by rewrite Hs.
Qed.

(** The table of [A] has an integer column [id], and a nested
    structure has an integer leaf [id]: the field is reported. *)
Lemma verify_data_types_reports_witness :
  is_Some (verify_data_types (H := Reference.pandas)
             [Examples.item_a; mkItem "N" (Nested (JDict [("id", JLeaf (VInt 1))]))]
           !! "id").
Proof.
  apply (verify_data_types_reports (H := Reference.pandas)
           [Examples.item_a; mkItem "N" (Nested (JDict [("id", JLeaf (VInt 1))]))] "id").
  exists Examples.item_a, (mkItem "N" (Nested (JDict [("id", JLeaf (VInt 1))]))),
    "int64", "int".
  split; [left|]. split; [right; left|]. split; [|split; [|done]].
  - split; [left|vm_compute; reflexivity].
  - exists (VInt 1). split; [left|done].
Defined.

(** A table names the type of an integer column [int64], a nested
    structure names the type of an integer leaf [int]: the two are
    reported as incompatible. *)
Example integer_column_and_integer_leaf :
  exists l,
    verify_data_types (H := Reference.pandas)
      [Examples.item_a; mkItem "N" (Nested (JDict [("id", JLeaf (VInt 1))]))]
    = {[ "id" := l ]}
    /\ l ≡ₚ ["int64"; "int"].
Proof.
  eexists. split; [vm_compute; reflexivity|].
  apply NoDup_Permutation; [compute_done|compute_done|].
  intros t. rewrite !elem_of_cons. set_solver.
Qed.

(** X2. For a nested structure, type collection started from nothing
    knows exactly the field paths that metadata extraction has an entry
    for, and the dtype of the entry is one of the types collected for the
    path. *)
Theorem collected_fields_are_metadata_fields `{Pandas} j p :
  (is_Some (collect_field_types_in_data_structure j ∅ "" !! p)
   <-> is_Some (extract_fields_metadata (Nested j) !! p))
  /\ (forall fm, extract_fields_metadata (Nested j) !! p = Some fm ->
        dtype fm ∈ types_at (collect_field_types_in_data_structure j ∅ "") p).
Proof.
  assert (forall t, t ∈ types_at (collect_field_types_in_data_structure j ∅ "") p
                    <-> exists v, (p, v) ∈ keyed_leaves j "" /\ t = type_name v) as Hat.
  { intros t. rewrite collect_fold, types_at_foldl_note. unfold types_at at 1.
    rewrite lookup_empty. simpl. set_solver. }
  assert (populated (collect_field_types_in_data_structure j ∅ "")) as Hpop.
  { rewrite collect_fold. apply populated_foldl_note.
    intros q s Hq. by rewrite lookup_empty in Hq. }
  rewrite MetadataFacts.extract_nested_lookup. unfold add_samples.
  destruct (values_at p (keyed_leaves j "")) as [|v vs] eqn:E.
  - split; [|done]. rewrite (populated_lookup _ _ Hpop). split; [|by intros [? ?]].
    intros (t & Ht). apply Hat in Ht as (v & Hv & _).
    apply elem_of_values_at in Hv. rewrite E in Hv. by apply not_elem_of_nil in Hv.
  - assert ((p, v) ∈ keyed_leaves j "") as Hv.
    { apply elem_of_values_at. rewrite E. left. }
    split.
    + split; [by eexists|]. intros _. apply (populated_lookup _ _ Hpop).
      exists (type_name v). apply Hat. by exists v.
    + intros fm [= <-]. cbn [dtype]. apply Hat. by exists v.
Qed.

End TypesFacts.

(** ** More on ranks, the dispatcher and what resolution leaves behind *)

Module ResolveMoreFacts.
Import Frame Conflicts Resolve Types Spec SpecMore ResolveSpec FrameFacts.

Lemma source_priority_last h : forall i s,
  h !! i = Some s -> (forall j, (i < j)%nat -> h !! j <> Some s) ->
  source_priority h !! s = Some (Z.of_nat i).
Proof.
  induction h as [|x h IH] using rev_ind; intros i s Hi Hlast; [done|].
  rewrite ResolveFacts.source_priority_snoc.
  apply lookup_app_Some in Hi as [Hi|[Hlen Hi]].
  - assert (x <> s) as Hx.
    { intros ->. apply (Hlast (length h)).
      - by apply lookup_lt_Some in Hi.
      - by rewrite lookup_app_r, Nat.sub_diag. }
    rewrite lookup_insert_ne by done. apply IH; [done|].
    intros j Hj Hjs. apply (Hlast j Hj). by apply lookup_app_l_Some.
  - destruct (i - length h)%nat eqn:E; [|done]. cbn in Hi. injection Hi as ->.
    rewrite lookup_insert_eq. do 2 f_equal. lia.
Qed.

Lemma size_list_to_set_unique (h : list string) :
  size (list_to_set h : gset string) = length (unique h).
Proof.
  rewrite <- (size_list_to_set (C := gset string) (unique h)) by apply NoDup_unique.
  f_equal. apply set_eq. intros x. by rewrite !elem_of_list_to_set, elem_of_unique.
Qed.

Lemma source_priority_bound h s n :
  source_priority h !! s = Some n -> 0 <= n < Z.of_nat (length h).
Proof.
  revert n. induction h as [|x h IH] using rev_ind; intros n; [done|].
  rewrite ResolveFacts.source_priority_snoc, length_app. cbn [length].
  destruct (decide (x = s)) as [->|Hx].
  - rewrite lookup_insert_eq. intros [= <-]. lia.
  - rewrite lookup_insert_ne by done. intros Hn%IH. lia.
Qed.

(** X3. The rank of a source under any hierarchy list, repeated names
    included: a listed name is ranked by the index of its last occurrence,
    and every unlisted name by the number of distinct names in the list.
    With repetitions that number is smaller than the length of the list,
    so an unlisted source can outrank a listed one. *)
Theorem priority_of_any_list source_hierarchy :
  (forall i s, source_hierarchy !! i = Some s ->
     (forall j, (i < j)%nat -> source_hierarchy !! j <> Some s) ->
     priority_of source_hierarchy s = Z.of_nat i)
  /\ (forall s, s ∉ source_hierarchy ->
        priority_of source_hierarchy s = Z.of_nat (length (unique source_hierarchy)))
  /\ (length (unique source_hierarchy) <= length source_hierarchy)%nat
  /\ (forall s, s ∈ source_hierarchy ->
        0 <= priority_of source_hierarchy s < Z.of_nat (length source_hierarchy)).
Proof.
  split; [|split; [|split]].
  - intros i s Hi Hlast. unfold priority_of.
    by rewrite (source_priority_last _ i s).
  - intros s Hs. unfold priority_of.
    rewrite (proj1 (not_elem_of_dom (source_priority source_hierarchy) s)).
    + cbn. by rewrite <- size_dom, ResolveFacts.source_priority_dom, size_list_to_set_unique.
    + by rewrite ResolveFacts.source_priority_dom, elem_of_list_to_set.
  - rewrite <- size_list_to_set_unique.
    induction source_hierarchy as [|x h IH]; [done|].
    cbn [list_to_set length].
    pose proof (size_union_alt ({[x]} : gset string) (list_to_set h)) as Hsz.
    rewrite size_singleton in Hsz.
    assert (size (list_to_set h ∖ {[x]} : gset string) <= size (list_to_set h : gset string))%nat
      by (apply subseteq_size; set_solver).
    lia.
  - intros s Hs. unfold priority_of.
    destruct (source_priority source_hierarchy !! s) as [n|] eqn:E.
    + cbn. by apply source_priority_bound in E.
    + exfalso. apply not_elem_of_dom in E.
      rewrite ResolveFacts.source_priority_dom, elem_of_list_to_set in E. done.
Qed.

(** In [["A"; "B"; "A"]] the name [A] is ranked by its last index, 2,
    and the unlisted [C] by the number of distinct names, 2 as well. *)
Lemma priority_of_any_list_witness :
  priority_of ["A"; "B"; "A"] "A" = 2 /\ priority_of ["A"; "B"; "A"] "C" = 2.
Proof.
  destruct (priority_of_any_list ["A"; "B"; "A"]) as (Hlisted & Hunlisted & _).
  split.
  - apply (Hlisted 2%nat "A"); [done|].
    intros [|[|[|j]]] Hj; try lia. done.
  - apply (Hunlisted "C"). compute_done.
Defined.

(** The two ranking strategies in closed form. *)
Lemma hierarchy_cases `{Pandas} aligned h :
  resolve_conflicts_hierarchy aligned h
  = if decide (tables aligned = []
               \/ key_set {["_source"; "_priority"]} (tables aligned) = ∅)
    then aligned
    else resolved_data (ranked_out "_priority" true (priority_of h) (tables aligned)).
Proof.
  unfold resolve_conflicts_hierarchy, ranked_out.
  rewrite ResolveFacts.hierarchy_key_set, ResolveFacts.hierarchy_frames_tables.
  destruct (decide (tables aligned = [])) as [Hnil|Hsrcs].
  { rewrite decide_True by by left. by rewrite Hnil. }
  rewrite ConflictFacts.match_nonempty by by rewrite ResolveFacts.tag_all_nil.
  destruct (decide (key_set {["_source"; "_priority"]} (tables aligned) = ∅)) as [HK|HK].
  { rewrite decide_True by by right. by rewrite HK, elements_empty. }
  rewrite decide_False by tauto.
  by rewrite ConflictFacts.match_nonempty by by apply ResolveFacts.key_set_elements_nonempty.
Qed.

Lemma weighted_cases `{Pandas} aligned ws :
  resolve_conflicts_weighted aligned ws
  = if decide (tables aligned = []
               \/ key_set {["_source"; "_weight"]} (tables aligned) = ∅)
    then aligned
    else resolved_data (ranked_out "_weight" false (weight_of ws) (tables aligned)).
Proof.
  unfold resolve_conflicts_weighted, ranked_out.
  rewrite ResolveFacts.weighted_key_set, ResolveFacts.weighted_frames_tables.
  destruct (decide (tables aligned = [])) as [Hnil|Hsrcs].
  { rewrite decide_True by by left. by rewrite Hnil. }
  rewrite ConflictFacts.match_nonempty by by rewrite ResolveFacts.tag_all_nil.
  destruct (decide (key_set {["_source"; "_weight"]} (tables aligned) = ∅)) as [HK|HK].
  { rewrite decide_True by by right. by rewrite HK, elements_empty. }
  rewrite decide_False by tauto.
  by rewrite ConflictFacts.match_nonempty by by apply ResolveFacts.key_set_elements_nonempty.
Qed.

Lemma time_based_cases `{Pandas} aligned :
  resolve_conflicts_time_based aligned
  = if decide (timed_tables aligned = []
               \/ key_set {["_source"; "timestamp"]} (timed_tables aligned) = ∅)
    then aligned
    else resolved_data (time_resolved aligned).
Proof.
  case_decide as Hd.
  - apply ResolveFacts.time_based_no_op. tauto.
  - apply ResolveFacts.resolve_conflicts_time_based_eq; tauto.
Qed.

Lemma filter_all {A} (T : A -> Prop) `{forall x, Decision (T x)} (l : list A) :
  Forall T l -> filter T l = l.
Proof.
  induction 1 as [|x l Hx _ IH]; [done|]. by rewrite filter_cons_True, IH.
Qed.

Lemma unique_NoDup {A} `{EqDecision A} (l : list A) : NoDup l -> unique l = l.
Proof.
  induction 1 as [|x l Hx Hl IH]; [done|]. cbn [unique]. rewrite IH. f_equal.
  apply filter_all. apply Forall_forall. intros y Hy ->. done.
Qed.

Lemma drop_duplicate_rows_NoDup keys (l : list (gmap string value)) :
  NoDup (map (key_tuple keys) l) -> drop_duplicate_rows keys l = l.
Proof.
  induction l as [|r l IH]; [done|]. cbn [map drop_duplicate_rows].
  intros [Hr Hl]%NoDup_cons. rewrite IH by done. f_equal.
  apply filter_all. apply Forall_forall. intros r' Hr' Heq. apply Hr.
  rewrite <- Heq. by apply (list_elem_of_fmap_2 (key_tuple keys)).
Qed.

Lemma columns_rank_tag_fresh col rank s df :
  col <> "_source" -> "_source" ∉ columns df -> col ∉ columns df ->
  columns (rank_tag col rank s df) = (columns df ++ ["_source"; col])%list.
Proof.
  intros Hcol H1 H2. unfold rank_tag, set_column. cbn [columns].
  rewrite (decide_False (P := "_source" ∈ columns df)) by done.
  rewrite decide_False.
  - by rewrite <- app_assoc.
  - rewrite elem_of_app, list_elem_of_singleton. tauto.
Qed.

(** The shape of the table a ranking strategy makes. *)
Section ranked_shape.
Context {P : Pandas}.
Variables (col : string) (asc : bool) (rank : string -> Z).
Hypothesis col_not_source : col <> "_source".
Variable srcs : list (string * DataFrame).

Lemma elem_of_ranked_columns c :
  c ∈ columns (ranked_out col asc rank srcs)
  <-> c <> "_source" /\ c <> col /\ exists s df, (s, df) ∈ srcs /\ c ∈ columns df.
Proof.
  unfold ranked_out.
  cbn [columns drop drop_duplicates sort_values concat].
  rewrite list_elem_of_filter, elem_of_unique, elem_of_list_concat.
  split.
  - intros (Hc & l & (df' & -> & ([s df] & -> & Hsd)%list_elem_of_fmap)%list_elem_of_fmap
            & Hin).
    assert (c <> "_source" /\ c <> col) as [H1 H2].
    { split; intros ->; apply Hc; set_solver. }
    split; [done|]. split; [done|]. exists s, df. split; [done|].
    cbn [fst snd] in Hin. unfold rank_tag in Hin.
    rewrite !elem_of_columns_set_column in Hin. tauto.
  - intros (H1 & H2 & s & df & Hsd & Hin). split.
    + intros [?|[?|?%not_elem_of_nil]%elem_of_cons]%elem_of_cons; done.
    + exists (columns (rank_tag col rank s df)). split.
      * apply list_elem_of_fmap. exists (rank_tag col rank s df). split; [done|].
        apply list_elem_of_fmap. by exists (s, df).
      * unfold rank_tag. rewrite !elem_of_columns_set_column. tauto.
Qed.

Lemma NoDup_ranked_columns : NoDup (columns (ranked_out col asc rank srcs)).
Proof. apply NoDup_filter, NoDup_unique. Qed.

Lemma ranked_rows_unbound w :
  w ∈ rows (ranked_out col asc rank srcs) -> w !! "_source" = None /\ w !! col = None.
Proof.
  intros (r & -> & _)%list_elem_of_fmap.
  change (foldr delete r ["_source"; col]) with (strip ["_source"; col] r).
  rewrite !lookup_strip. split; by rewrite decide_True by set_solver.
Qed.

Lemma key_set_columns c :
  c ∈ key_set {["_source"; col]} srcs -> c ∈ columns (ranked_out col asc rank srcs).
Proof.
  unfold key_set. intros [Hc HB]%elem_of_difference.
  destruct srcs as [|[s df] rest] eqn:E; [by apply not_elem_of_empty in Hc|].
  rewrite <- E in *. apply elem_of_ranked_columns.
  split; [set_solver|]. split; [set_solver|]. exists s, df.
  split; [rewrite E; left|].
  rewrite elem_of_common_columns in Hc by by rewrite E.
  apply Hc. rewrite E. left.
Qed.

End ranked_shape.

Lemma tables_resolved_data out : tables (resolved_data out) = [("resolved_data", out)].
Proof. done. Qed.

Lemma key_set_single B s df : key_set B [(s, df)] = list_to_set (columns df) ∖ B.
Proof. done. Qed.

(** A ranking strategy applied to what a ranking strategy made. *)
Section ranked_again.
Context {P : Pandas} {HP : PandasSpec P}.
Variables (col : string) (asc asc' : bool) (rank rank' : string -> Z).
Hypothesis col_not_source : col <> "_source".
Variable srcs : list (string * DataFrame).
Hypothesis keyed : key_set {["_source"; col]} srcs <> ∅.

Let out := ranked_out col asc rank srcs.
Let again := ranked_out col asc' rank' [("resolved_data", out)].

Lemma key_set_again :
  key_set {["_source"; col]} [("resolved_data", out)] = list_to_set (columns out).
Proof.
  rewrite key_set_single. apply set_eq. intros c.
  rewrite elem_of_difference, elem_of_list_to_set. split; [tauto|].
  intros Hc. split; [done|]. apply elem_of_ranked_columns in Hc; [|done]. set_solver.
Qed.

Lemma key_set_again_nonempty : key_set {["_source"; col]} [("resolved_data", out)] <> ∅.
Proof.
  rewrite key_set_again. apply set_choose_L in keyed as [c Hc].
  apply (key_set_columns col asc rank col_not_source) in Hc. fold out in Hc. set_solver.
Qed.

Lemma columns_again : columns again = columns out.
Proof.
  unfold again, ranked_out at 1.
  cbn [columns drop drop_duplicates sort_values concat tag_all map List.concat fst snd].
  rewrite app_nil_r.
  assert (("_source" ∉ columns out) /\ (col ∉ columns out)) as [H1 H2].
  { split; intros Hc; apply elem_of_ranked_columns in Hc; tauto. }
  rewrite (columns_rank_tag_fresh col rank' "resolved_data" out) by done.
  rewrite unique_NoDup.
  2: { apply NoDup_app. split; [apply NoDup_ranked_columns|split].
       - intros c Hc [->|[->|?%not_elem_of_nil]%elem_of_cons]%elem_of_cons; done.
       - apply NoDup_cons. split; [|apply NoDup_singleton].
         intros Heq%list_elem_of_singleton. congruence. }
  rewrite filter_app, !filter_cons, !filter_nil.
  rewrite decide_False by (intros Hn; apply Hn; left).
  rewrite decide_False by (intros Hn; apply Hn; right; left).
  rewrite !app_nil_r. apply filter_all, Forall_forall.
  intros c Hc [->|[->|?%not_elem_of_nil]%elem_of_cons]%elem_of_cons; done.
Qed.

Lemma rows_again : rows again ≡ₚ rows out.
Proof.
  unfold again, ranked_out at 1.
  cbn [rows drop drop_duplicates sort_values].
  rewrite (ResolveFacts.rows_concat_tagged (rank_tag col rank') (rank_tag_row col rank'))
    by apply ResolveFacts.rows_rank_tag.
  unfold source_rows. cbn [map List.concat fst snd]. rewrite app_nil_r, map_map.
  cbn [fst snd].
  set (l2 := map (fun r => rank_tag_row col rank' "resolved_data" r) (rows out)).
  set (keys2 := elements (key_set {["_source"; col]} [("resolved_data", out)])).
  assert (NoDup (map (key_tuple keys2) l2)) as Hnd.
  { apply NoDup_alt. intros i j kt Hi Hj.
    change (map ?f ?l) with (f <$> l) in Hi, Hj.
    apply list_lookup_fmap_Some in Hi as (a' & -> & Hi).
    apply list_lookup_fmap_Some in Hj as (b' & Hk & Hj).
    unfold l2 in Hi, Hj. change (map ?f ?l) with (f <$> l) in Hi, Hj.
    apply list_lookup_fmap_Some in Hi as (a & -> & Hi).
    apply list_lookup_fmap_Some in Hj as (b & -> & Hj).
    destruct (ResolveFacts.ranked_resolution col asc rank col_not_source srcs)
      as (_ & _ & Hinj & _).
    apply (Hinj i j a b Hi Hj).
    intros c Hc.
    assert (c ∈ keys2) as Hc2.
    { unfold keys2. rewrite elem_of_elements, key_set_again, elem_of_list_to_set.
      by apply key_set_columns. }
    assert (c <> "_source" /\ c <> col) as [H1 H2].
    { unfold key_set in Hc. set_solver. }
    pose proof (proj1 (key_tuple_eq keys2 _ _) Hk c Hc2) as Hcell.
    unfold rank_tag_row in Hcell. by rewrite !lookup_insert_ne in Hcell by done. }
  assert (sort_rows col asc' l2 ≡ₚ l2) as Hperm by apply sort_rows_perm.
  rewrite drop_duplicate_rows_NoDup.
  2: { change (map ?f ?l) with (f <$> l). rewrite Hperm. done. }
  change (map ?f (sort_rows col asc' l2)) with (f <$> sort_rows col asc' l2).
  rewrite Hperm. unfold l2. change (?f <$> map ?g ?l) with (map f (map g l)).
  rewrite map_map.
  assert (forall l : list (gmap string value),
            Forall (fun w => w !! "_source" = None /\ w !! col = None) l ->
            map (fun x => foldr delete (rank_tag_row col rank' "resolved_data" x)
                            ["_source"; col]) l = l) as Hid.
  { induction 1 as [|w l [H1 H2] _ IH]; [done|]. cbn [map]. rewrite IH. f_equal.
    apply map_eq. intros c.
    change (foldr delete ?r ["_source"; col]) with (strip ["_source"; col] r).
    rewrite lookup_strip. case_decide as Hc.
    - apply elem_of_cons in Hc as [->|[->|?%not_elem_of_nil]%elem_of_cons]; done.
    - unfold rank_tag_row. rewrite !lookup_insert_ne; [done|..];
        intros <-; apply Hc; set_solver. }
  rewrite Hid; [done|]. apply Forall_forall. intros w Hw.
  by apply (ranked_rows_unbound col asc rank col_not_source srcs).
Qed.

End ranked_again.

Lemma resolve_conflicts_shape `{Pandas} aligned conflicts strategy ws h :
  resolve_conflicts aligned conflicts strategy ws h = aligned
  \/ exists out, resolve_conflicts aligned conflicts strategy ws h = resolved_data out.
Proof.
  unfold resolve_conflicts. repeat case_decide; try by left.
  - rewrite hierarchy_cases. case_decide; [by left|right; by eexists].
  - rewrite weighted_cases. case_decide; [by left|right; by eexists].
  - rewrite time_based_cases. case_decide; [by left|right; by eexists].
Qed.

(** X4. The dispatcher never looks at the conflicts it is handed; under
    [Manual] and under any strategy name it does not know it returns its
    input; and whatever the strategy, the result is either the input list
    itself or a single fragment named [resolved_data] that holds one
    table, so that source names and non-tabular fragments do not survive
    a resolution that goes through. *)
Theorem resolve_conflicts_dispatch `{Pandas} aligned conflicts strategy
    (source_weights : gmap string Z) (source_hierarchy : list string) :
  let result :=
    resolve_conflicts aligned conflicts strategy source_weights source_hierarchy in
  (forall conflicts',
     resolve_conflicts aligned conflicts' strategy source_weights source_hierarchy
     = result)
  /\ (strategy ∉ ["Hierarchy-based"; "Weight-based"; "Time-based"] -> result = aligned)
  /\ (result = aligned
      \/ exists out, result = [ {| file := "resolved_data"; data := Tabular out |} ]).
Proof.
  intros result. split; [done|]. split.
  - intros Hs. unfold result, resolve_conflicts.
    repeat case_decide; try done; exfalso; apply Hs; subst strategy; set_solver.
  - apply resolve_conflicts_shape.
Qed.

Lemma detect_conflicts_one_table name df :
  detect_conflicts [ {| file := name; data := Tabular df |} ] = ∅.
Proof.
  apply map_empty. intros k.
  destruct (detect_conflicts _ !! k) as [cf|] eqn:E; [exfalso|done].
  assert (is_Some (detect_conflicts [ {| file := name; data := Tabular df |} ] !! k))
    as Hsome by by exists cf.
  apply ConflictFacts.detect_conflicts_is_Some in Hsome
    as (_ & (s1 & r1 & s2 & r2 & [H1 _] & [H2 _] & Hne) & _).
  apply elem_of_source_rows in H1 as (df1 & H1 & _).
  apply elem_of_source_rows in H2 as (df2 & H2 & _).
  cbn in H1, H2. apply list_elem_of_singleton in H1, H2. congruence.
Qed.

Lemma verify_data_types_one_table `{Pandas} name df :
  verify_data_types [ {| file := name; data := Tabular df |} ] = ∅.
Proof.
  apply map_empty. intros p.
  destruct (verify_data_types _ !! p) as [l|] eqn:E; [exfalso|done].
  apply TypesFacts.verify_data_types_lookup in E as (s & Hs & Hsz & _).
  apply TypesFacts.size_two in Hsz as (t1 & t2 & H1 & H2 & Hne).
  assert (types_at (field_types_of [ {| file := name; data := Tabular df |} ]) p = s)
    as Hat by (unfold types_at; by rewrite Hs).
  rewrite <- Hat in H1, H2.
  apply TypesFacts.types_at_field_types_of in H1 as (i1 & Hi1 & Hs1).
  apply TypesFacts.types_at_field_types_of in H2 as (i2 & Hi2 & Hs2).
  apply list_elem_of_singleton in Hi1, Hi2. subst i1 i2.
  unfold seen_in in Hs1, Hs2. cbn in Hs1, Hs2. destruct Hs1 as [_ ->], Hs2 as [_ ->].
  done.
Qed.

(** X5. Whenever resolution does not hand back its input, what it
    returns is settled: conflict detection run on the result reports
    nothing, and type verification run on the result reports no
    incompatible field. *)
Theorem resolved_data_is_settled `{Pandas} aligned conflicts strategy
    (source_weights : gmap string Z) (source_hierarchy : list string) :
  let result :=
    resolve_conflicts aligned conflicts strategy source_weights source_hierarchy in
  result = aligned
  \/ (exists out, result = resolved_data out)
     /\ detect_conflicts result = ∅
     /\ verify_data_types result = ∅.
Proof.
  intros result.
  destruct (resolve_conflicts_shape aligned conflicts strategy source_weights
              source_hierarchy) as [Heq|[out Heq]]; [by left|right].
  fold result in Heq. rewrite Heq. split; [by exists out|].
  split; [apply detect_conflicts_one_table|apply verify_data_types_one_table].
Qed.

(** Three sources resolved by hierarchy: nothing is left to detect. *)
Lemma resolved_data_is_settled_witness :
  detect_conflicts
    (resolve_conflicts (H := Reference.pandas)
       [Examples.item_a; Examples.item_b; Examples.item_c] ∅ "Hierarchy-based" ∅
       ["A"; "B"]) = ∅
  /\ verify_data_types (H := Reference.pandas)
       (resolve_conflicts (H := Reference.pandas)
          [Examples.item_a; Examples.item_b; Examples.item_c] ∅ "Hierarchy-based" ∅
          ["A"; "B"]) = ∅.
Proof.
  destruct (resolved_data_is_settled (H := Reference.pandas)
              [Examples.item_a; Examples.item_b; Examples.item_c] ∅ "Hierarchy-based" ∅
              ["A"; "B"]) as [Heq|(_ & Hd & Hv)].
  - exfalso. apply (f_equal length) in Heq. by vm_compute in Heq.
  - split; [exact Hd|exact Hv].
Defined.

(** X6. When hierarchy-based or weight-based resolution makes a table,
    its columns are the columns of the source tables other than the two
    bookkeeping names of the strategy, each once, and no row keeps a cell
    under a bookkeeping name: a column that a source itself has under
    one of the two names is overwritten by the tag and lost with it. *)
Theorem ranked_resolution_drops_bookkeeping `{Pandas} aligned
    (source_hierarchy : list string) (source_weights : gmap string Z) :
  (tables aligned <> [] ->
   key_set {["_source"; "_priority"]} (tables aligned) <> ∅ ->
   exists out,
     resolve_conflicts_hierarchy aligned source_hierarchy = resolved_data out
     /\ NoDup (columns out)
     /\ (forall c, c ∈ columns out
           <-> c <> "_source" /\ c <> "_priority"
               /\ exists s df, (s, df) ∈ tables aligned /\ c ∈ columns df)
     /\ (forall w, w ∈ rows out -> w !! "_source" = None /\ w !! "_priority" = None))
  /\ (tables aligned <> [] ->
      key_set {["_source"; "_weight"]} (tables aligned) <> ∅ ->
      exists out,
        resolve_conflicts_weighted aligned source_weights = resolved_data out
        /\ NoDup (columns out)
        /\ (forall c, c ∈ columns out
              <-> c <> "_source" /\ c <> "_weight"
                  /\ exists s df, (s, df) ∈ tables aligned /\ c ∈ columns df)
        /\ (forall w, w ∈ rows out -> w !! "_source" = None /\ w !! "_weight" = None)).
Proof.
  split; intros Hsrcs HK; eexists.
  - split; [rewrite hierarchy_cases; by rewrite decide_False by tauto|].
    split; [apply NoDup_ranked_columns|].
    split; [intros c; by apply elem_of_ranked_columns|].
    intros w. by apply ranked_rows_unbound.
  - split; [rewrite weighted_cases; by rewrite decide_False by tauto|].
    split; [apply NoDup_ranked_columns|].
    split; [intros c; by apply elem_of_ranked_columns|].
    intros w. by apply ranked_rows_unbound.
Qed.

(** Three sources resolved by hierarchy: the columns left are [id]
    and [v]. *)
Lemma ranked_resolution_drops_bookkeeping_witness :
  exists out,
    resolve_conflicts_hierarchy (H := Reference.pandas)
      [Examples.item_a; Examples.item_b; Examples.item_c] ["A"; "B"] = resolved_data out
    /\ NoDup (columns out)
    /\ columns out = ["id"; "v"].
Proof.
  assert (tables [Examples.item_a; Examples.item_b; Examples.item_c] <> []) as H1 by done.
  assert (key_set {["_source"; "_priority"]}
            (tables [Examples.item_a; Examples.item_b; Examples.item_c]) <> ∅)
    as H2 by by vm_compute.
  destruct (ranked_resolution_drops_bookkeeping (H := Reference.pandas)
              [Examples.item_a; Examples.item_b; Examples.item_c] ["A"; "B"] ∅)
    as [Hh _].
  destruct (Hh H1 H2) as (out & Heq & Hnd & _).
  exists out. split; [exact Heq|]. split; [exact Hnd|].
  vm_compute in Heq. by injection Heq as <-.
Defined.

(** A table that has a [_weight] column of its own, next to one that has
    not: the column is gone after weight-based resolution. *)
Example own_weight_column_is_lost :
  resolve_conflicts_weighted (H := Reference.pandas)
    [ {| file := "A";
         data := Tabular (mkDataFrame ["id"; "_weight"]
                            [ {[ "id" := VInt 1; "_weight" := VInt 70 ]} ]) |};
      Examples.item_c ] ∅
  = resolved_data (mkDataFrame ["id"] [ {[ "id" := VInt 1 ]} ]).
Proof. vm_compute. reflexivity. Qed.

Lemma same_up_to_row_order_refl a : same_up_to_row_order a a.
Proof.
  unfold same_up_to_row_order. induction a as [|x a IH]; constructor; [|done].
  split; [done|]. by destruct (data x).
Qed.

Lemma timed_tables_time_resolved `{Pandas} aligned :
  timed_tables (resolved_data (time_resolved aligned)) = [].
Proof.
  unfold timed_tables. rewrite tables_resolved_data, filter_cons_False; [done|].
  cbn [snd]. rewrite ResolveFacts.elem_of_time_resolved_columns. tauto.
Qed.

(** X7. Time-based resolution is idempotent: the table it makes has no
    [timestamp] column left, so a second run hands it back as it is. *)
Theorem time_based_idempotent `{Pandas} aligned :
  resolve_conflicts_time_based (resolve_conflicts_time_based aligned)
  = resolve_conflicts_time_based aligned.
Proof.
  rewrite (time_based_cases aligned). case_decide as Hd.
  - rewrite time_based_cases. by rewrite decide_True.
  - rewrite time_based_cases. rewrite decide_True; [done|]. left.
    apply timed_tables_time_resolved.
Qed.

(** X8. Hierarchy-based and weight-based resolution are idempotent up
    to the order of rows: run again on their own result, under any
    hierarchy or any weights, they return the same fragments, every table
    with the same columns and the same rows, possibly rearranged. *)
Theorem ranked_resolution_idempotent {P : Pandas} {HP : PandasSpec P} aligned
    (h h' : list string) (ws ws' : gmap string Z) :
  same_up_to_row_order
    (resolve_conflicts_hierarchy (resolve_conflicts_hierarchy aligned h) h')
    (resolve_conflicts_hierarchy aligned h)
  /\ same_up_to_row_order
       (resolve_conflicts_weighted (resolve_conflicts_weighted aligned ws) ws')
       (resolve_conflicts_weighted aligned ws).
Proof.
  split.
  - rewrite (hierarchy_cases aligned h). case_decide as Hd.
    + rewrite hierarchy_cases. rewrite decide_True by done.
      apply same_up_to_row_order_refl.
    + assert (key_set {["_source"; "_priority"]} (tables aligned) <> ∅) as HK by tauto.
      rewrite hierarchy_cases, tables_resolved_data.
      rewrite decide_False.
      2: { intros [?|HK2]; [done|]. revert HK2. by apply key_set_again_nonempty. }
      constructor; [|constructor]. split; [done|]. cbn [data resolved_data].
      split; [by apply columns_again|by apply rows_again].
  - rewrite (weighted_cases aligned ws). case_decide as Hd.
    + rewrite weighted_cases. rewrite decide_True by done.
      apply same_up_to_row_order_refl.
    + assert (key_set {["_source"; "_weight"]} (tables aligned) <> ∅) as HK by tauto.
      rewrite weighted_cases, tables_resolved_data.
      rewrite decide_False.
      2: { intros [?|HK2]; [done|]. revert HK2. by apply key_set_again_nonempty. }
      constructor; [|constructor]. split; [done|]. cbn [data resolved_data].
      split; [by apply columns_again|by apply rows_again].
Qed.

(** Three sources resolved by hierarchy, and again with the hierarchy
    reversed. *)
Lemma ranked_resolution_idempotent_witness :
  same_up_to_row_order
    (resolve_conflicts_hierarchy (H := Reference.pandas)
       (resolve_conflicts_hierarchy (H := Reference.pandas)
          [Examples.item_a; Examples.item_b; Examples.item_c] ["A"; "B"])
       ["B"; "A"])
    (resolve_conflicts_hierarchy (H := Reference.pandas)
       [Examples.item_a; Examples.item_b; Examples.item_c] ["A"; "B"])
  /\ same_up_to_row_order
       (resolve_conflicts_weighted (H := Reference.pandas)
          (resolve_conflicts_weighted (H := Reference.pandas)
             [Examples.item_a; Examples.item_b; Examples.item_c] {[ "B" := 5 ]})
          ∅)
       (resolve_conflicts_weighted (H := Reference.pandas)
          [Examples.item_a; Examples.item_b; Examples.item_c] {[ "B" := 5 ]}).
Proof.
  exact (ranked_resolution_idempotent (P := Reference.pandas)
           (HP := ReferenceFacts.pandas_spec)
           [Examples.item_a; Examples.item_b; Examples.item_c]
           ["A"; "B"] ["B"; "A"] {[ "B" := 5 ]} ∅).
Defined.

End ResolveMoreFacts.

(** ** What detection cannot see *)

Module DetectMoreFacts.
Import Frame Conflicts Spec FrameFacts.

Lemma not_common_column (srcs : list (string * DataFrame)) c :
  srcs <> [] -> c ∉ common_columns srcs.*2 ->
  exists s df, (s, df) ∈ srcs /\ c ∉ columns df.
Proof.
  intros Hne Hc.
  destruct (decide (Forall (fun sd : string * DataFrame => c ∈ columns sd.2) srcs))
    as [Hall|Hex].
  - exfalso. apply Hc. apply elem_of_common_columns; [by destruct srcs|].
    intros df ([s df'] & -> & Hin)%list_elem_of_fmap.
    rewrite Forall_forall in Hall. by apply (Hall (s, df')).
  - apply not_Forall_Exists in Hex; [|apply _].
    apply Exists_exists in Hex as ([s df] & Hin & Hnot). by exists s, df.
Qed.

(** X9. Every column that all tables share is a key column, so a
    conflict is only ever reported on a column that some table lacks; in
    particular tables that all have the same columns never conflict,
    whatever their rows hold.  Sources are told apart by file name
    alone: tables that all carry one name never conflict either. *)
Theorem conflicts_need_a_missing_column aligned :
  (forall k cf c, detect_conflicts aligned !! k = Some cf -> is_Some (cf !! c) ->
     (exists s df, (s, df) ∈ tables aligned /\ c ∈ columns df)
     /\ (exists s df, (s, df) ∈ tables aligned /\ c ∉ columns df))
  /\ ((forall s df s' df' c, (s, df) ∈ tables aligned -> (s', df') ∈ tables aligned ->
         c ∈ columns df -> c ∈ columns df') ->
      detect_conflicts aligned = ∅)
  /\ ((forall s df s' df', (s, df) ∈ tables aligned -> (s', df') ∈ tables aligned ->
         s = s') ->
      detect_conflicts aligned = ∅).
Proof.
  assert (forall k cf c, detect_conflicts aligned !! k = Some cf -> is_Some (cf !! c) ->
     (exists s df, (s, df) ∈ tables aligned /\ c ∈ columns df)
     /\ (exists s df, (s, df) ∈ tables aligned /\ c ∉ columns df)) as Hmissing.
  { intros k cf c Hk Hc.
    apply ConflictFacts.detect_conflicts_entry in Hk as (Hd & _).
    apply Hd in Hc as (Hcol & HK & Hsrc & _). split; [done|].
    destruct Hcol as (s & df & Hin & _).
    apply not_common_column.
    - intros Hnil. rewrite Hnil in Hin. by apply not_elem_of_nil in Hin.
    - intros Hcc. apply HK. unfold key_set. apply elem_of_difference.
      split; [done|]. by intros ?%elem_of_singleton. }
  split; [done|]. split.
  - intros Hsame. apply map_empty. intros k.
    destruct (detect_conflicts aligned !! k) as [cf|] eqn:E; [exfalso|done].
    pose proof E as Hk.
    apply ConflictFacts.detect_conflicts_entry in Hk as (Hd & _).
    assert (is_Some (detect_conflicts aligned !! k)) as Hsome by by exists cf.
    apply ConflictFacts.detect_conflicts_is_Some in Hsome as (_ & _ & c & Hc).
    apply Hd in Hc.
    destruct (Hmissing k cf c E Hc) as ((s & df & Hin & Hcol) & (s' & df' & Hin' & Hnot)).
    apply Hnot. by apply (Hsame s df s' df' c).
  - intros Hsame. apply map_empty. intros k.
    destruct (detect_conflicts aligned !! k) as [cf|] eqn:E; [exfalso|done].
    assert (is_Some (detect_conflicts aligned !! k)) as Hsome by by exists cf.
    apply ConflictFacts.detect_conflicts_is_Some in Hsome
      as (_ & (s1 & r1 & s2 & r2 & [H1 _] & [H2 _] & Hne) & _).
    apply elem_of_source_rows in H1 as (df1 & H1 & _).
    apply elem_of_source_rows in H2 as (df2 & H2 & _).
    apply Hne. by apply (Hsame s1 df1 s2 df2).
Qed.

(** [A] and [B] have the same columns, and disagree on [v] for
    [id = 1]: nothing is reported. *)
Lemma conflicts_need_a_missing_column_witness :
  detect_conflicts [Examples.item_a; Examples.item_b] = ∅.
Proof.
  destruct (conflicts_need_a_missing_column [Examples.item_a; Examples.item_b])
    as (_ & Hsame & _).
  assert (forall s df, (s, df) ∈ tables [Examples.item_a; Examples.item_b] ->
            columns df = ["id"; "v"]) as Hcols.
  { intros s df Hin.
    change (tables [Examples.item_a; Examples.item_b])
      with [("A", mkDataFrame ["id"; "v"] [Examples.row_a]);
            ("B", mkDataFrame ["id"; "v"] [Examples.row_b])] in Hin.
    apply elem_of_cons in Hin as [Heq|Hin].
    - by apply (f_equal (fun sd : string * DataFrame => columns sd.2)) in Heq.
    - apply list_elem_of_singleton in Hin.
      by apply (f_equal (fun sd : string * DataFrame => columns sd.2)) in Hin. }
  apply Hsame. intros s df s' df' c Hin Hin' Hc.
  rewrite (Hcols s' df' Hin'). by rewrite (Hcols s df Hin) in Hc.
Defined.

End DetectMoreFacts.

(** ** Metadata of a table *)

Module TableMetadataFacts.
Import Frame Metadata Extract FrameFacts.

Lemma foldl_insert_lookup {V} (f : string -> V) (cols : list string) :
  forall (m : gmap string V) c,
    foldl (fun acc c => <[c := f c]> acc) m cols !! c
    = if decide (c ∈ cols) then Some (f c) else m !! c.
Proof.
  induction cols as [|x cols IH]; intros m c; cbn [foldl].
  - by rewrite decide_False by apply not_elem_of_nil.
  - rewrite IH. destruct (decide (c ∈ cols)) as [Hin|Hin].
    + by rewrite decide_True by by right.
    + destruct (decide (x = c)) as [->|Hx].
      * rewrite lookup_insert_eq. by rewrite decide_True by left.
      * rewrite lookup_insert_ne by done. rewrite decide_False; [done|].
        intros [?|?]%elem_of_cons; congruence.
Qed.

Lemma extract_tabular_lookup `{Pandas} df c :
  extract_fields_metadata (Tabular df) !! c
  = if decide (c ∈ columns df)
    then Some (FieldMeta (series_dtype (column c (rows df)))
                 (take max_sample_values (unique (dropna (column c (rows df))))))
    else None.
Proof.
  unfold extract_fields_metadata.
  rewrite (foldl_insert_lookup
             (fun c => FieldMeta (series_dtype (column c (rows df)))
                         (take max_sample_values (unique (dropna (column c (rows df))))))).
  by rewrite lookup_empty.
Qed.

(** X10. The metadata of a table has an entry for exactly its columns.
    The entry of a column holds the dtype of the column and, as samples,
    the first five distinct non-null values of the column in order of
    first appearance: at most five, no value twice, each the cell of some
    row, and all the values of the column when it has no more than five
    distinct ones. *)
Theorem tabular_metadata `{Pandas} df c :
  (is_Some (extract_fields_metadata (Tabular df) !! c) <-> c ∈ columns df)
  /\ (forall fm, extract_fields_metadata (Tabular df) !! c = Some fm ->
        let distinct := unique (dropna (column c (rows df))) in
        dtype fm = series_dtype (column c (rows df))
        /\ sample_values fm = take 5 distinct
        /\ (length (sample_values fm) <= 5)%nat
        /\ NoDup (sample_values fm)
        /\ (forall v, v ∈ sample_values fm -> exists r, r ∈ rows df /\ r !! c = Some v)
        /\ ((length distinct <= 5)%nat ->
            forall r v, r ∈ rows df -> r !! c = Some v -> v ∈ sample_values fm)).
Proof.
  rewrite extract_tabular_lookup. split.
  - case_decide; [by split; [|eexists]|]. split; [by intros [? ?]|done].
  - intros fm. case_decide as Hc; [|done]. intros [= <-] distinct.
    cbn [dtype sample_values]. unfold max_sample_values. fold distinct.
    split; [done|]. split; [done|].
    split; [rewrite length_take; lia|].
    split; [eapply sublist_NoDup; [apply NoDup_unique|apply sublist_take]|].
    split.
    + intros v (i & Hv%list_elem_of_lookup_2 & _)%elem_of_take. unfold distinct in Hv.
      rewrite elem_of_unique in Hv.
      by apply ConflictFacts.elem_of_dropna_column in Hv.
    + intros Hlen r v Hr Hv. rewrite take_ge by done. unfold distinct.
      rewrite elem_of_unique. apply ConflictFacts.elem_of_dropna_column. by exists r.
Qed.

(** A column with the values 1, 1, null, 2. *)
Lemma tabular_metadata_witness :
  extract_fields_metadata (H := Reference.pandas)
    (Tabular (mkDataFrame ["n"]
                [ {[ "n" := VInt 1 ]}; {[ "n" := VInt 1 ]}; ∅; {[ "n" := VInt 2 ]} ]))
  !! "n" = Some (FieldMeta "object" [VInt 1; VInt 2])
  /\ NoDup [VInt 1; VInt 2].
Proof.
  assert (extract_fields_metadata (H := Reference.pandas)
            (Tabular (mkDataFrame ["n"]
                        [ {[ "n" := VInt 1 ]}; {[ "n" := VInt 1 ]}; ∅;
                          {[ "n" := VInt 2 ]} ]))
          !! "n" = Some (FieldMeta "object" [VInt 1; VInt 2])) as Heq
    by (vm_compute; reflexivity).
  split; [exact Heq|].
  destruct (tabular_metadata (H := Reference.pandas)
              (mkDataFrame ["n"]
                 [ {[ "n" := VInt 1 ]}; {[ "n" := VInt 1 ]}; ∅; {[ "n" := VInt 2 ]} ])
              "n") as [_ Hentry].
  by destruct (Hentry _ Heq) as (_ & _ & _ & Hnd & _).
Defined.

End TableMetadataFacts.

(** ** More on value conversion *)

Module ConvertMoreFacts.
Import Convert.

Lemma convert_int `{Builtins} v :
  convert v "int" = match py_int v with inr n => inr (VInt n) | inl e => inl e end.
Proof. reflexivity. Qed.


End ConvertMoreFacts.

(** ** Dictionaries in insertion order *)

Module DictFacts.
Import Frame Dict FrameFacts.

Section dict.
Context {V : Type}.
Implicit Types d l : list (string * V).

Lemma setitem_fresh k (v : V) d : k ∉ d.*1 -> setitem k v d = (d ++ [(k, v)])%list.
Proof.
  induction d as [|[k' v'] d IH]; intros Hk; [done|]. cbn [setitem].
  rewrite decide_False by (intros ->; apply Hk; left).
  rewrite IH; [done|]. intros Hin. apply Hk. by right.
Qed.

Lemma keys_setitem k (v : V) d :
  (setitem k v d).*1 = if decide (k ∈ d.*1) then d.*1 else (d.*1 ++ [k])%list.
Proof.
  induction d as [|[k' v'] d IH]; [done|]. cbn [setitem fmap list_fmap fst].
  destruct (decide (k' = k)) as [->|Hne].
  - by rewrite decide_True by left.
  - cbn [fmap list_fmap fst]. rewrite IH.
    destruct (decide (k ∈ d.*1)) as [Hin|Hin].
    + by rewrite decide_True by by right.
    + rewrite decide_False; [done|]. intros [?|?]%elem_of_cons; congruence.
Qed.

Lemma getitem_setitem_eq k (v : V) d : getitem k (setitem k v d) = Some v.
Proof.
  induction d as [|[k' v'] d IH]; cbn [setitem getitem].
  - by rewrite decide_True.
  - destruct (decide (k' = k)) as [->|Hne]; cbn [getitem].
    + by rewrite decide_True.
    + by rewrite decide_False.
Qed.

Lemma getitem_setitem_ne k k' (v : V) d :
  k <> k' -> getitem k' (setitem k v d) = getitem k' d.
Proof.
  intros Hne. induction d as [|[k0 v0] d IH]; cbn [setitem getitem].
  - by rewrite decide_False.
  - destruct (decide (k0 = k)) as [->|Hk0]; cbn [getitem].
    + by rewrite !decide_False by done.
    + by rewrite IH.
Qed.

Lemma getitem_None k d : getitem k d = None <-> k ∉ d.*1.
Proof.
  induction d as [|[k' v'] d IH]; cbn [getitem fmap list_fmap fst].
  - split; [intros _; apply not_elem_of_nil|done].
  - rewrite not_elem_of_cons. destruct (decide (k' = k)) as [->|Hne].
    + split; [done|]. by intros [? _].
    + rewrite IH. split; [by split|by intros [_ ?]].
Qed.

Lemma getitem_Some k (v : V) d : NoDup d.*1 -> getitem k d = Some v <-> (k, v) ∈ d.
Proof.
  induction d as [|[k' v'] d IH]; cbn [getitem fmap list_fmap fst]; intros Hnd.
  - split; [done|]. by intros ?%not_elem_of_nil.
  - apply NoDup_cons in Hnd as [Hk' Hnd]. rewrite elem_of_cons.
    destruct (decide (k' = k)) as [->|Hne].
    + split; [intros [= ->]; by left|].
      intros [[= ->]|Hin]; [done|]. exfalso. apply Hk'.
      by apply (list_elem_of_fmap_2 fst _ (k, v)).
    + rewrite IH by done. split; [by right|]. intros [[= ? ?]|?]; [congruence|done].
Qed.

Lemma from_items_snoc l kv : from_items (l ++ [kv])%list = setitem kv.1 kv.2 (from_items l).
Proof. unfold from_items. by rewrite foldl_app. Qed.

End dict.

Lemma unique_snoc {A} `{EqDecision A} (l : list A) x :
  unique (l ++ [x])%list = if decide (x ∈ l) then unique l else (unique l ++ [x])%list.
Proof.
  induction l as [|y l IH]; [done|].
  change ((y :: l) ++ [x])%list with (y :: (l ++ [x]))%list. cbn [unique]. rewrite IH.
  destruct (decide (x ∈ l)) as [Hin|Hin].
  - by rewrite decide_True by by right.
  - rewrite filter_app, filter_cons, filter_nil.
    destruct (decide (x = y)) as [->|Hne].
    + rewrite (decide_True (P := y ∈ y :: l)) by left.
      rewrite (decide_False (P := y <> y)) by (intros Hn; by apply Hn).
      by rewrite app_nil_r.
    + rewrite (decide_False (P := x ∈ y :: l)) by (intros [?|?]%elem_of_cons; congruence).
      by rewrite (decide_True (P := x <> y)) by done.
Qed.

Section from_items.
Context {V : Type}.
Implicit Types l : list (string * V).

(** The keys of the dictionary made from a list of items: the keys of
    the items, each at its first appearance. *)
Lemma keys_from_items l : (from_items l).*1 = unique l.*1.
Proof.
  induction l as [|kv l IH] using rev_ind; [done|].
  rewrite from_items_snoc, keys_setitem, IH, fmap_app. cbn [fmap list_fmap].
  rewrite unique_snoc.
  destruct (decide (kv.1 ∈ l.*1)) as [Hin|Hin].
  - by rewrite decide_True by by rewrite elem_of_unique.
  - by rewrite decide_False by by rewrite elem_of_unique.
Qed.

(** Its value under a key: the value of the last item with that key. *)
Lemma getitem_from_items l k :
  getitem k (from_items l) = snd <$> last (filter (fun kv => kv.1 = k) l).
Proof.
  induction l as [|kv l IH] using rev_ind; [done|].
  rewrite from_items_snoc, filter_app, filter_cons, filter_nil.
  destruct (decide (kv.1 = k)) as [<-|Hne].
  - by rewrite getitem_setitem_eq, last_snoc.
  - by rewrite getitem_setitem_ne, IH, app_nil_r by done.
Qed.

Lemma NoDup_keys_from_items l : NoDup (from_items l).*1.
Proof. rewrite keys_from_items. apply NoDup_unique. Qed.

(** Items with pairwise different keys make the dictionary that lists
    them as they come. *)
Lemma from_items_NoDup l : NoDup l.*1 -> from_items l = l.
Proof.
  induction l as [|kv l IH] using rev_ind; [done|].
  rewrite fmap_app. intros (Hl & Hkv & _)%NoDup_app.
  rewrite from_items_snoc, IH by done.
  rewrite setitem_fresh; [by destruct kv|].
  intros Hin. apply (Hkv _ Hin). cbn. left.
Qed.

End from_items.

End DictFacts.

(** ** Renaming the fields of nested data *)

Module RenameFacts.
Import Frame Dict Structure Spec StructureSpec FrameFacts DictFacts.

Lemma rename_dict kvs m :
  rename_fields_in_data_structure (JDict kvs) m
  = JDict (from_items
             (map (fun kv : string * json =>
                     (new_name m kv.1, rename_fields_in_data_structure kv.2 m)) kvs)).
Proof.
  cbn [rename_fields_in_data_structure]. f_equal. unfold from_items.
  generalize (@nil (string * json)).
  induction kvs as [|[k v] kvs IH]; intros acc; [done|]. cbn [map foldl]. apply IH.
Qed.

Lemma rename_list l m :
  rename_fields_in_data_structure (JList l) m
  = JList (map (fun item => rename_fields_in_data_structure item m) l).
Proof.
  reflexivity.
Qed.

Lemma rename_keys_dict f kvs :
  rename_keys f (JDict kvs)
  = JDict (map (fun kv : string * json => (f kv.1, rename_keys f kv.2)) kvs).
Proof.
  cbn [rename_keys]. f_equal.
  induction kvs as [|[k v] kvs IH]; [done|]. cbn [map]. by rewrite IH.
Qed.

Lemma rename_keys_list f l :
  rename_keys f (JList l) = JList (map (rename_keys f) l).
Proof.
  reflexivity.
Qed.

Lemma distinct_after_dict f kvs :
  distinct_after f (JDict kvs)
  <-> NoDup (f <$> kvs.*1)
      /\ Forall (fun kv : string * json => distinct_after f kv.2) kvs.
Proof.
  cbn [distinct_after].
  assert ((fix all (kvs : list (string * json)) : Prop :=
             match kvs with
             | [] => True
             | (_, v) :: rest => distinct_after f v /\ all rest
             end) kvs
          <-> Forall (fun kv : string * json => distinct_after f kv.2) kvs) as ->; [|done].
  induction kvs as [|[k v] kvs IH]; [by split; [constructor|]|].
  rewrite IH. split.
  - intros [? ?]. by constructor.
  - intros [? ?]%Forall_cons_1. done.
Qed.

Lemma distinct_after_list f l :
  distinct_after f (JList l) <-> Forall (distinct_after f) l.
Proof.
  cbn [distinct_after].
  induction l as [|x l IH]; [by split; [constructor|]|].
  rewrite IH. split.
  - intros [? ?]. by constructor.
  - intros [? ?]%Forall_cons_1. done.
Qed.

Lemma elem_of_all_keys_dict kvs k :
  k ∈ all_keys (JDict kvs)
  <-> k ∈ kvs.*1 \/ exists kv, kv ∈ kvs /\ k ∈ all_keys kv.2.
Proof.
  cbn [all_keys]. induction kvs as [|[k0 v0] kvs IH].
  - split; [by intros ?%not_elem_of_nil|].
    intros [?%not_elem_of_nil|(kv & ?%not_elem_of_nil & _)]; done.
  - rewrite elem_of_cons, elem_of_app, IH. cbn [fmap list_fmap fst].
    rewrite elem_of_cons. split.
    + intros [->|[Hv|[Hk|(kv & Hkv & Hin)]]].
      * by left; left.
      * right. exists (k0, v0). split; [left|done].
      * by left; right.
      * right. exists kv. split; [by right|done].
    + intros [[->|Hk]|(kv & [->|Hkv]%elem_of_cons & Hin)].
      * by left.
      * by right; right; left.
      * by right; left.
      * right; right; right. by exists kv.
Qed.

Lemma elem_of_all_keys_list l k :
  k ∈ all_keys (JList l) <-> exists item, item ∈ l /\ k ∈ all_keys item.
Proof.
  cbn [all_keys]. induction l as [|x l IH].
  - split; [by intros ?%not_elem_of_nil|]. by intros (? & ?%not_elem_of_nil & _).
  - rewrite elem_of_app, IH. split.
    + intros [Hx|(item & Hitem & Hin)].
      * exists x. split; [left|done].
      * exists item. split; [by right|done].
    + intros (item & [->|Hitem]%elem_of_cons & Hin); [by left|].
      right. by exists item.
Qed.

(** Where no two keys of a dictionary get the same name, renaming
    changes the keys and nothing else. *)
Lemma rename_distinct m data :
  distinct_after (new_name m) data ->
  rename_fields_in_data_structure data m = rename_keys (new_name m) data.
Proof.
  induction data as [kvs IH|l IH|v] using json_ind; [| |done].
  - intros [Hnd Hall]%distinct_after_dict.
    rewrite rename_dict, rename_keys_dict. f_equal.
    rewrite from_items_NoDup.
    + apply map_ext_Forall. rewrite Forall_forall in IH, Hall |- *.
      intros kv Hkv. f_equal. apply IH; [done|]. by apply Hall.
    + change (map ?f ?l) with (f <$> l). rewrite <- list_fmap_compose.
      rewrite <- list_fmap_compose in Hnd. exact Hnd.
  - intros Hall%distinct_after_list. rewrite rename_list, rename_keys_list. f_equal.
    apply map_ext_Forall. rewrite Forall_forall in IH, Hall |- *.
    intros x Hx. apply IH; [done|]. by apply Hall.
Qed.

Lemma rename_keys_compose f g data :
  rename_keys g (rename_keys f data) = rename_keys (fun k => g (f k)) data.
Proof.
  induction data as [kvs IH|l IH|v] using json_ind; [| |done].
  - rewrite !rename_keys_dict, map_map. f_equal.
    apply map_ext_Forall. rewrite Forall_forall in IH |- *.
    intros kv Hkv. cbn [fst snd]. f_equal. by apply IH.
  - rewrite !rename_keys_list, map_map. f_equal.
    apply map_ext_Forall. rewrite Forall_forall in IH |- *.
    intros x Hx. by apply IH.
Qed.

Lemma rename_keys_ext f g data :
  (forall k, k ∈ all_keys data -> f k = g k) ->
  rename_keys f data = rename_keys g data.
Proof.
  induction data as [kvs IH|l IH|v] using json_ind; intros Hfg; [| |done].
  - rewrite !rename_keys_dict. f_equal.
    apply map_ext_Forall. rewrite Forall_forall in IH |- *.
    intros [k v] Hkv. cbn [fst snd]. f_equal.
    + apply Hfg, elem_of_all_keys_dict. left.
      by apply (list_elem_of_fmap_2 fst _ (k, v)).
    + apply (IH (k, v) Hkv). intros k' Hk'. apply Hfg, elem_of_all_keys_dict.
      right. by exists (k, v).
  - rewrite !rename_keys_list. f_equal.
    apply map_ext_Forall. rewrite Forall_forall in IH |- *.
    intros x Hx. apply IH; [done|]. intros k Hk. apply Hfg, elem_of_all_keys_list.
    by exists x.
Qed.

Lemma rename_keys_id data : rename_keys (fun k => k) data = data.
Proof.
  induction data as [kvs IH|l IH|v] using json_ind; [| |done].
  - rewrite rename_keys_dict. f_equal. rewrite <- (map_id kvs) at 2.
    apply map_ext_Forall. rewrite Forall_forall in IH |- *.
    intros [k v] Hkv. cbn [fst snd]. f_equal. by apply (IH (k, v)).
  - rewrite rename_keys_list. f_equal. rewrite <- (map_id l) at 2.
    apply map_ext_Forall. rewrite Forall_forall in IH |- *.
    intros x Hx. by apply IH.
Qed.

Lemma distinct_after_inj f data :
  well_formed data ->
  (forall k1 k2, k1 ∈ all_keys data -> k2 ∈ all_keys data -> f k1 = f k2 -> k1 = k2) ->
  distinct_after f data.
Proof.
  unfold well_formed.
  induction data as [kvs IH|l IH|v] using json_ind; intros Hwf Hinj; [| |done].
  - apply distinct_after_dict in Hwf as [Hnd Hall]. apply distinct_after_dict. split.
    + rewrite list_fmap_id in Hnd. apply NoDup_fmap_2_strong; [|done].
      intros k1 k2 H1 H2. apply Hinj; apply elem_of_all_keys_dict; by left.
    + rewrite Forall_forall in IH, Hall |- *. intros kv Hkv.
      apply IH; [done|by apply Hall|].
      intros k1 k2 H1 H2. apply Hinj; apply elem_of_all_keys_dict; right; by exists kv.
  - apply distinct_after_list in Hwf. apply distinct_after_list.
    rewrite Forall_forall in IH, Hwf |- *. intros x Hx.
    apply IH; [done|by apply Hwf|].
    intros k1 k2 H1 H2. apply Hinj; apply elem_of_all_keys_list; by exists x.
Qed.

Lemma distinct_after_rename_keys f g data :
  distinct_after g (rename_keys f data) <-> distinct_after (fun k => g (f k)) data.
Proof.
  induction data as [kvs IH|l IH|v] using json_ind; [| |done].
  - rewrite rename_keys_dict, !distinct_after_dict.
    change (map ?h ?l) with (h <$> l).
    rewrite <- !list_fmap_compose, Forall_fmap.
    assert (Forall (fun kv : string * json => distinct_after g (rename_keys f kv.2)) kvs
            <-> Forall (fun kv : string * json =>
                          distinct_after (fun k => g (f k)) kv.2) kvs) as Hiff.
    { rewrite !Forall_forall. rewrite Forall_forall in IH.
      split; intros Hall kv Hkv; apply (IH kv Hkv), Hall, Hkv. }
    split; intros [Hnd Hall]; (split; [exact Hnd|by apply Hiff]).
  - rewrite rename_keys_list, !distinct_after_list.
    change (map ?h ?l) with (h <$> l). rewrite Forall_fmap.
    rewrite !Forall_forall. rewrite Forall_forall in IH.
    split; intros Hall x Hx; apply (IH x Hx), Hall, Hx.
Qed.

Lemma well_formed_rename m data :
  well_formed (rename_fields_in_data_structure data m).
Proof.
  unfold well_formed.
  induction data as [kvs IH|l IH|v] using json_ind; [| |done].
  - rewrite rename_dict. apply distinct_after_dict. split.
    + rewrite list_fmap_id. apply NoDup_keys_from_items.
    + set (items := map _ kvs).
      assert (Forall (fun kv : string * json => distinct_after (fun k => k) kv.2) items)
        as Hitems.
      { unfold items. change (map ?h ?l) with (h <$> l). rewrite Forall_fmap.
        eapply Forall_impl; [exact IH|]. done. }
      clearbody items. unfold from_items.
      assert (forall acc : list (string * json),
                Forall (fun kv : string * json => distinct_after (fun k => k) kv.2) acc ->
                Forall (fun kv : string * json => distinct_after (fun k => k) kv.2)
                  (foldl (fun d kv => setitem kv.1 kv.2 d) acc items)) as Hfold.
      { induction Hitems as [|kv items Hkv _ IHitems]; intros acc Hacc; [done|].
        cbn [foldl]. apply IHitems. clear -Hacc Hkv.
        induction Hacc as [|[k' v'] acc Hv' Hacc IHacc]; cbn [setitem].
        - by constructor.
        - case_decide; constructor; done. }
      by apply Hfold.
  - rewrite rename_list. apply distinct_after_list.
    change (map ?h ?l) with (h <$> l). by rewrite Forall_fmap.
Qed.

Lemma reached_values_rename_keys f data : forall p p',
  (reached_leaves (rename_keys f data) p).*2 = (reached_leaves data p').*2.
Proof.
  induction data as [kvs IH|l IH|v] using json_ind; intros p p'; [| |done].
  - cbn [rename_keys reached_leaves].
    induction IH as [|[k v] kvs Hv _ IHkvs]; [done|].
    rewrite !fmap_app, IHkvs. f_equal. apply Hv.
  - cbn [rename_keys reached_leaves].
    induction IH as [|x l Hx _ IHl]; [done|].
    rewrite !fmap_app, IHl. f_equal. apply Hx.
Qed.

(** X12. Where the mapping gives no two keys of one dictionary the same
    name, renaming changes keys and nothing else: the result is the same
    structure with every key replaced by its new name (a key the mapping
    does not list keeps its name), at every depth; it holds the same leaf
    values in the same order, and again no dictionary has a key twice. *)
Theorem rename_fields_without_collision data (field_name_mapping : gmap string string) :
  distinct_after (new_name field_name_mapping) data ->
  rename_fields_in_data_structure data field_name_mapping
  = rename_keys (new_name field_name_mapping) data
  /\ (reached_leaves (rename_fields_in_data_structure data field_name_mapping) "").*2
     = (reached_leaves data "").*2
  /\ well_formed (rename_fields_in_data_structure data field_name_mapping).
Proof.
  intros Hd. split; [by apply rename_distinct|]. split; [|apply well_formed_rename].
  rewrite rename_distinct by done. apply reached_values_rename_keys.
Qed.

(** [{"a": {"b": 1}, "c": [{"a": 2}]}] under [{"a": "x", "b": "y"}]. *)
Lemma rename_fields_without_collision_witness :
  rename_fields_in_data_structure MoreExamples.nested_ab MoreExamples.a_to_x
  = rename_keys (new_name MoreExamples.a_to_x) MoreExamples.nested_ab
  /\ (reached_leaves (rename_fields_in_data_structure MoreExamples.nested_ab
                        MoreExamples.a_to_x) "").*2
     = (reached_leaves MoreExamples.nested_ab "").*2
  /\ well_formed (rename_fields_in_data_structure MoreExamples.nested_ab
                    MoreExamples.a_to_x).
Proof.
  apply (rename_fields_without_collision MoreExamples.nested_ab MoreExamples.a_to_x).
  cbn [distinct_after MoreExamples.nested_ab]. repeat split; compute_done.
Defined.

Example rename_nested_ab :
  rename_fields_in_data_structure MoreExamples.nested_ab MoreExamples.a_to_x
  = JDict [("x", JDict [("y", JLeaf (VInt 1))]);
           ("c", JList [JDict [("x", JLeaf (VInt 2))]])].
Proof. vm_compute. reflexivity. Qed.

(** X13. Renaming and renaming back is the identity: on a structure in
    which no dictionary has a key twice, renaming under a mapping and
    then under a second mapping that sends every new name back to the key
    it was given to, and lists no key of the structure, returns the
    structure.  Under the empty mapping renaming changes nothing. *)
Theorem rename_fields_round_trip data (m m' : gmap string string) :
  well_formed data ->
  (forall k n, m !! k = Some n -> m' !! n = Some k) ->
  (forall k, k ∈ all_keys data -> m' !! k = None) ->
  rename_fields_in_data_structure (rename_fields_in_data_structure data m) m' = data
  /\ rename_fields_in_data_structure data ∅ = data.
Proof.
  intros Hwf Hback Hrest. split.
  - assert (forall k, k ∈ all_keys data -> new_name m' (new_name m k) = k) as Hid.
    { intros k Hk. unfold new_name at 2. destruct (m !! k) as [n|] eqn:E; cbn.
      - unfold new_name. by rewrite (Hback k n E).
      - unfold new_name. by rewrite (Hrest k Hk). }
    assert (distinct_after (new_name m) data) as Hd.
    { apply distinct_after_inj; [done|]. intros k1 k2 H1 H2 Heq.
      rewrite <- (Hid k1 H1), <- (Hid k2 H2). by rewrite Heq. }
    rewrite (rename_distinct m data Hd).
    rewrite rename_distinct.
    + rewrite rename_keys_compose.
      etrans; [by apply (rename_keys_ext _ (fun k => k))|apply rename_keys_id].
    + apply distinct_after_rename_keys. apply distinct_after_inj; [done|].
      intros k1 k2 H1 H2. by rewrite (Hid k1 H1), (Hid k2 H2).
  - rewrite rename_distinct.
    + etrans; [apply (rename_keys_ext _ (fun k => k))|apply rename_keys_id].
      intros k _. unfold new_name. by rewrite lookup_empty.
    + apply distinct_after_inj; [done|]. intros k1 k2 _ _.
      unfold new_name. by rewrite !lookup_empty.
Qed.

(** [{"a": {"b": 1}, "c": [{"a": 2}]}] under [{"a": "x", "b": "y"}] and
    back under [{"x": "a", "y": "b"}]. *)
Lemma rename_fields_round_trip_witness :
  rename_fields_in_data_structure
    (rename_fields_in_data_structure MoreExamples.nested_ab MoreExamples.a_to_x)
    MoreExamples.x_to_a
  = MoreExamples.nested_ab
  /\ rename_fields_in_data_structure MoreExamples.nested_ab ∅ = MoreExamples.nested_ab.
Proof.
  apply (rename_fields_round_trip MoreExamples.nested_ab MoreExamples.a_to_x
           MoreExamples.x_to_a).
  - cbn [distinct_after MoreExamples.nested_ab]. repeat split; compute_done.
  - intros k n Hk. unfold MoreExamples.a_to_x in Hk.
    apply lookup_insert_Some in Hk as [[<- <-]|[? Hk]]; [done|].
    apply lookup_singleton_Some in Hk as [<- <-]. done.
  - intros k Hk. vm_compute in Hk.
    repeat (apply elem_of_cons in Hk as [->|Hk]; [done|]).
    by apply not_elem_of_nil in Hk.
Defined.

(** X14. Renaming never makes a dictionary with a key twice.  The keys
    of a renamed dictionary are the new names of its keys in order of
    first appearance, and under each of them stands the renamed value of
    the last key that got this name: when two keys are given one name,
    the value of the earlier one is lost. *)
Theorem rename_fields_collisions (field_name_mapping : gmap string string) :
  (forall data, well_formed (rename_fields_in_data_structure data field_name_mapping))
  /\ (forall kvs, exists new_data,
        rename_fields_in_data_structure (JDict kvs) field_name_mapping = JDict new_data
        /\ new_data.*1 = unique (new_name field_name_mapping <$> kvs.*1)
        /\ (length new_data <= length kvs)%nat
        /\ forall k,
             getitem k new_data
             = (fun kv : string * json =>
                  rename_fields_in_data_structure kv.2 field_name_mapping)
               <$> last (filter (fun kv : string * json =>
                                   new_name field_name_mapping kv.1 = k) kvs)).
Proof.
  split; [intros data; apply well_formed_rename|].
  intros kvs. eexists. split; [apply rename_dict|].
  set (g := fun kv : string * json =>
              (new_name field_name_mapping kv.1,
               rename_fields_in_data_structure kv.2 field_name_mapping)).
  assert ((from_items (map g kvs)).*1 = unique (new_name field_name_mapping <$> kvs.*1))
    as Hkeys.
  { rewrite keys_from_items. change (map ?h ?l) with (h <$> l).
    by rewrite <- !list_fmap_compose. }
  split; [exact Hkeys|]. split.
  - rewrite <- (length_fmap fst (from_items (map g kvs))), Hkeys.
    assert (length kvs = length (new_name field_name_mapping <$> kvs.*1)) as ->
      by by rewrite !length_fmap.
    generalize (new_name field_name_mapping <$> kvs.*1). intros l.
    induction l as [|x l IH]; [done|]. cbn [unique length].
    pose proof (length_filter (fun y => y <> x) (unique l)). lia.
  - intros k. rewrite getitem_from_items.
    clear Hkeys. induction kvs as [|kv kvs IH] using rev_ind; [done|].
    rewrite map_app. cbn [map]. rewrite !filter_app, !filter_cons, !filter_nil.
    unfold g at 2. cbn [fst].
    destruct (decide (new_name field_name_mapping kv.1 = k)) as [Hk|Hk].
    + by rewrite !last_snoc.
    + by rewrite !app_nil_r.
Qed.

(** [{"a": 1, "b": 2, "c": 3}] under [{"a": "c"}]: the value of [a] is
    gone, and [c] comes first. *)
Example rename_onto_existing_key :
  rename_fields_in_data_structure
    (JDict [("a", JLeaf (VInt 1)); ("b", JLeaf (VInt 2)); ("c", JLeaf (VInt 3))])
    {[ "a" := "c" ]}
  = JDict [("c", JLeaf (VInt 3)); ("b", JLeaf (VInt 2))].
Proof. vm_compute. reflexivity. Qed.

End RenameFacts.

(** ** Converting the fields of nested data *)

Module ConvertFieldsFacts.
Import Metadata Dict Structure Spec SpecMore StructureSpec DictFacts RenameFacts.

Section convert.
Context {B : Convert.Builtins} {C : Containers}.
Variable m : gmap string string.

Lemma convert_dict kvs path :
  convert_field_types_in_data_structure (JDict kvs) m path
  = (JDict (from_items (map (fun kv : string * json => (kv.1, (new_value m path kv).1)) kvs)),
     List.concat (map (fun kv : string * json => (new_value m path kv).2) kvs)).
Proof.
  cbn [convert_field_types_in_data_structure]. unfold from_items.
  set (items := fix items (kvs : list (string * json))
                          (acc : list (string * json) * list report) := _).
  assert (forall kvs acc,
            items kvs acc
            = (foldl (fun d kv => setitem kv.1 kv.2 d) acc.1
                 (map (fun kv : string * json => (kv.1, (new_value m path kv).1)) kvs),
               (acc.2 ++ List.concat
                           (map (fun kv : string * json => (new_value m path kv).2) kvs))%list))
    as Hitems.
  { clear kvs. induction kvs as [|[k v] kvs IH]; intros acc.
    - cbn. rewrite app_nil_r. by destruct acc.
    - cbn [items map foldl List.concat]. rewrite IH. cbn [fst snd].
      unfold new_value at 3 4. cbn [fst snd]. by rewrite app_assoc. }
  by rewrite Hitems.
Qed.

Lemma convert_list l path :
  convert_field_types_in_data_structure (JList l) m path
  = (JList (map (fun x => (convert_field_types_in_data_structure x m path).1) l),
     List.concat (map (fun x => (convert_field_types_in_data_structure x m path).2) l)).
Proof.
  cbn [convert_field_types_in_data_structure].
  induction l as [|x l IH]; [done|]. cbn [map List.concat].
  injection IH as -> ->. done.
Qed.

(** In a structure without repeated keys the new dictionary lists the
    keys as they were. *)
Lemma convert_dict_wf kvs path :
  NoDup kvs.*1 ->
  convert_field_types_in_data_structure (JDict kvs) m path
  = (JDict (map (fun kv : string * json => (kv.1, (new_value m path kv).1)) kvs),
     List.concat (map (fun kv : string * json => (new_value m path kv).2) kvs)).
Proof.
  intros Hnd. rewrite convert_dict, from_items_NoDup; [done|].
  change (map ?h ?l) with (h <$> l). by rewrite <- list_fmap_compose.
Qed.

Lemma well_formed_dict kvs :
  well_formed (JDict kvs)
  <-> NoDup kvs.*1 /\ Forall (fun kv : string * json => well_formed kv.2) kvs.
Proof. unfold well_formed. by rewrite distinct_after_dict, list_fmap_id. Qed.

Lemma well_formed_list l : well_formed (JList l) <-> Forall well_formed l.
Proof. unfold well_formed. by rewrite distinct_after_list. Qed.

Lemma keyed_nodes_cons k v kvs path :
  keyed_nodes (JDict ((k, v) :: kvs)) path
  = ((current_path path k, v) :: keyed_nodes v (current_path path k)
       ++ keyed_nodes (JDict kvs) path)%list.
Proof. done. Qed.

Lemma keyed_nodes_list_cons x l path :
  keyed_nodes (JList (x :: l)) path
  = (keyed_nodes x path ++ keyed_nodes (JList l) path)%list.
Proof. done. Qed.

Lemma keyed_leaves_cons k v kvs path :
  keyed_leaves (JDict ((k, v) :: kvs)) path
  = (match v with
     | JLeaf x => [(current_path path k, x)]
     | _ => keyed_leaves v (current_path path k)
     end ++ keyed_leaves (JDict kvs) path)%list.
Proof. done. Qed.

Lemma keyed_leaves_list_cons x l path :
  keyed_leaves (JList (x :: l)) path
  = (keyed_leaves x path ++ keyed_leaves (JList l) path)%list.
Proof. done. Qed.

(** A mapping that names no key path of the structure changes
    nothing. *)
Lemma convert_unmapped data : forall path,
  well_formed data ->
  (forall p v, (p, v) ∈ keyed_nodes data path -> m !! p = None) ->
  convert_field_types_in_data_structure data m path = (data, []).
Proof.
  induction data as [kvs IH|l IH|v] using json_ind; intros path Hwf Hun; [| |done].
  - apply well_formed_dict in Hwf as [Hnd Hwf]. rewrite convert_dict_wf by done.
    clear Hnd.
    assert (map (fun kv : string * json => (kv.1, (new_value m path kv).1)) kvs = kvs
            /\ List.concat (map (fun kv : string * json => (new_value m path kv).2) kvs)
               = []) as [-> ->]; [|done].
    induction IH as [|[k v] kvs Hv _ IHkvs]; [done|].
    apply Forall_cons_1 in Hwf as [Hwfv Hwf].
    assert (new_value m path (k, v) = (v, [])) as Hnew.
    { unfold new_value. cbn [fst snd].
      rewrite (Hun (current_path path k) v) by (rewrite keyed_nodes_cons; left).
      apply Hv; [done|]. intros p w Hin. apply (Hun p w).
      rewrite keyed_nodes_cons. right. apply elem_of_app. by left. }
    cbn [map List.concat]. rewrite Hnew. cbn [fst snd].
    destruct IHkvs as [-> ->]; [done| |done].
    intros p w Hin. apply (Hun p w). rewrite keyed_nodes_cons. right.
    apply elem_of_app. by right.
  - apply well_formed_list in Hwf. rewrite convert_list.
    assert (map (fun x => (convert_field_types_in_data_structure x m path).1) l = l
            /\ List.concat
                 (map (fun x => (convert_field_types_in_data_structure x m path).2) l)
               = []) as [-> ->]; [|done].
    induction IH as [|x l Hx _ IHl]; [done|].
    apply Forall_cons_1 in Hwf as [Hwfx Hwf].
    cbn [map List.concat]. rewrite Hx; [|done|].
    + cbn [fst snd]. destruct IHl as [-> ->]; [done| |done].
      intros p w Hin. apply (Hun p w). rewrite keyed_nodes_list_cons.
      apply elem_of_app. by right.
    + intros p w Hin. apply (Hun p w). rewrite keyed_nodes_list_cons.
      apply elem_of_app. by left.
Qed.

Lemma new_value_leaf path k x :
  new_value m path (k, JLeaf x)
  = (JLeaf (converted_leaf m (current_path path k, x)).1,
     map of_value_report (converted_leaf m (current_path path k, x)).2).
Proof.
  unfold new_value, converted_leaf. cbn [fst snd].
  by destruct (m !! current_path path k).
Qed.

(** Where the mapped paths hold leaves only, the conversion works leaf
    by leaf. *)
Lemma convert_leaves data : forall path,
  well_formed data ->
  (forall p v, (p, v) ∈ keyed_nodes data path -> is_Some (m !! p) ->
     exists x, v = JLeaf x) ->
  keyed_leaves (convert_field_types_in_data_structure data m path).1 path
  = map (fun pv => (pv.1, (converted_leaf m pv).1)) (keyed_leaves data path)
  /\ (convert_field_types_in_data_structure data m path).2
     = List.concat (map (fun pv => map of_value_report (converted_leaf m pv).2)
                      (keyed_leaves data path)).
Proof.
  induction data as [kvs IH|l IH|v] using json_ind; intros path Hwf Hleaf; [| |done].
  - apply well_formed_dict in Hwf as [Hnd Hwf]. rewrite convert_dict_wf by done.
    clear Hnd. cbn [fst snd].
    induction IH as [|[k v] kvs Hv _ IHkvs]; [done|].
    apply Forall_cons_1 in Hwf as [Hwfv Hwf].
    cbn [map List.concat]. cbn [fst].
    rewrite !keyed_leaves_cons, !map_app, List.concat_app.
    destruct IHkvs as [-> ->]; [done| |].
    { intros p w Hin. apply (Hleaf p w). rewrite keyed_nodes_cons. right.
      apply elem_of_app. by right. }
    assert (forall kvs0 l0,
              (v = JDict kvs0 \/ v = JList l0) ->
              new_value m path (k, v)
              = convert_field_types_in_data_structure v m (current_path path k))
      as Hcontainer.
    { intros kvs0 l0 Hv0. unfold new_value. cbn [fst snd].
      destruct (m !! current_path path k) as [t|] eqn:E; [exfalso|done].
      destruct (Hleaf (current_path path k) v) as [x ->]; [|by eexists|].
      - rewrite keyed_nodes_cons. left.
      - by destruct Hv0. }
    assert (forall p w, (p, w) ∈ keyed_nodes v (current_path path k) ->
              is_Some (m !! p) -> exists x, w = JLeaf x) as Hleafv.
    { intros p w Hin. apply (Hleaf p w). rewrite keyed_nodes_cons. right.
      apply elem_of_app. by left. }
    cbn [snd] in Hv.
    destruct (Hv (current_path path k) Hwfv Hleafv) as [Hl Hr].
    destruct v as [kvs0|l0|x].
    + rewrite (Hcontainer kvs0 []) by by left. rewrite <- Hl, <- Hr.
      by rewrite convert_dict.
    + rewrite (Hcontainer [] l0) by by right. rewrite <- Hl, <- Hr.
      by rewrite convert_list.
    + rewrite new_value_leaf. cbn [fst snd map List.concat]. by rewrite app_nil_r.
  - apply well_formed_list in Hwf. rewrite convert_list. cbn [fst snd].
    induction IH as [|x l Hx _ IHl]; [done|].
    apply Forall_cons_1 in Hwf as [Hwfx Hwf].
    cbn [map List.concat].
    rewrite !keyed_leaves_list_cons, !map_app, List.concat_app.
    destruct IHl as [-> ->]; [done| |].
    { intros p w Hin. apply (Hleaf p w). rewrite keyed_nodes_list_cons.
      apply elem_of_app. by right. }
    destruct (Hx path Hwfx) as [-> ->]; [|done].
    intros p w Hin. apply (Hleaf p w). rewrite keyed_nodes_list_cons.
    apply elem_of_app. by left.
Qed.

(** Conversions to ["str"] always go through. *)
Lemma convert_value_to_str data :
  exists s, convert_value_to_type data "str" = (JLeaf (VStr s), []).
Proof. destruct data; by eexists. Qed.

Lemma convert_all_str data :
  (forall p t, m !! p = Some t -> t = "str") ->
  forall path,
    well_formed data ->
    (convert_field_types_in_data_structure data m path).2 = []
    /\ forall p v,
         (p, v) ∈ keyed_leaves (convert_field_types_in_data_structure data m path).1 path ->
         is_Some (m !! p) -> exists s, v = VStr s.
Proof.
  intros Hstr.
  induction data as [kvs IH|l IH|v] using json_ind; intros path Hwf.
  - apply well_formed_dict in Hwf as [Hnd Hwf]. rewrite convert_dict_wf by done.
    clear Hnd. cbn [fst snd].
    induction IH as [|[k v] kvs Hv _ IHkvs].
    { split; [done|]. by intros p v ?%not_elem_of_nil. }
    apply Forall_cons_1 in Hwf as [Hwfv Hwf].
    destruct (IHkvs Hwf) as [Hlog Hleaves]. clear IHkvs.
    cbn [map List.concat]. cbn [fst]. rewrite Hlog, app_nil_r.
    unfold new_value at 1 2. cbn [fst snd].
    destruct (m !! current_path path k) as [t|] eqn:E.
    + rewrite (Hstr _ _ E). destruct (convert_value_to_str v) as [s ->].
      split; [done|]. intros p w. rewrite keyed_leaves_cons. cbn [fst].
      intros [Hin|Hin]%elem_of_app; [|by apply Hleaves].
      apply list_elem_of_singleton in Hin as [= -> ->]. by eexists.
    + cbn [snd] in Hv.
      destruct (Hv (current_path path k) Hwfv) as [Hvlog Hvleaves].
      split; [done|]. intros p w. rewrite keyed_leaves_cons.
      intros [Hin|Hin]%elem_of_app; [|by apply Hleaves].
      destruct v as [kvs0|l0|x].
      * rewrite convert_dict in Hin, Hvleaves. cbn [fst] in Hin, Hvleaves.
        by apply Hvleaves.
      * rewrite convert_list in Hin, Hvleaves. cbn [fst] in Hin, Hvleaves.
        by apply Hvleaves.
      * cbn in Hin. apply list_elem_of_singleton in Hin as [= -> ->].
        rewrite E. by intros [? ?].
  - apply well_formed_list in Hwf. rewrite convert_list. cbn [fst snd].
    induction IH as [|x l Hx _ IHl].
    { split; [done|]. by intros p v ?%not_elem_of_nil. }
    apply Forall_cons_1 in Hwf as [Hwfx Hwf].
    destruct (IHl Hwf) as [Hlog Hleaves]. clear IHl.
    destruct (Hx path Hwfx) as [Hxlog Hxleaves].
    cbn [map List.concat]. rewrite Hlog, Hxlog. split; [done|].
    intros p w. rewrite keyed_leaves_list_cons.
    intros [Hin|Hin]%elem_of_app; [by apply Hxleaves|by apply Hleaves].
  - split; [done|]. by intros p w ?%not_elem_of_nil.
Qed.

End convert.

(** X15. On a structure in which no dictionary has a key twice: a
    mapping that names no key path of the structure returns the structure
    as it is, without a report; and where every key path the mapping
    names holds a leaf, the conversion works leaf by leaf: the result has
    the same keyed leaves in the same order and under the same paths,
    every leaf at a mapped path converted to the mapped type as
    [convert_value_to_type] does it (so kept as it was when that fails)
    and every other leaf unchanged, and the reports are those of the leaf
    conversions, in the order of the traversal. *)
Theorem convert_field_types_leaf_by_leaf `{Convert.Builtins} `{Containers}
    data (field_type_mapping : gmap string string) :
  well_formed data ->
  ((forall p v, (p, v) ∈ keyed_nodes data "" -> field_type_mapping !! p = None) ->
   convert_field_types_in_data_structure data field_type_mapping "" = (data, []))
  /\ ((forall p v, (p, v) ∈ keyed_nodes data "" -> is_Some (field_type_mapping !! p) ->
         exists x, v = JLeaf x) ->
      let r := convert_field_types_in_data_structure data field_type_mapping "" in
      keyed_leaves r.1 ""
      = map (fun pv => (pv.1, (converted_leaf field_type_mapping pv).1))
          (keyed_leaves data "")
      /\ r.2 = List.concat
                 (map (fun pv => map of_value_report
                                   (converted_leaf field_type_mapping pv).2)
                    (keyed_leaves data ""))).
Proof.
  intros Hwf. split.
  - intros Hun. by apply convert_unmapped.
  - intros Hleaf. by apply convert_leaves.
Qed.

(** [{"id": "7", "tags": [{"n": "12"}, {"n": "twelve"}]}] under
    [{"id": "int", "tags.n": "int"}]: [7], [12], and ["twelve"] kept with
    one report. *)
Lemma convert_field_types_leaf_by_leaf_witness :
  convert_field_types_in_data_structure (H := Reference.builtins)
       (H0 := MoreExamples.containers)
    MoreExamples.readings MoreExamples.to_int ""
  = (JDict [("id", JLeaf (VInt 7));
            ("tags", JList [JDict [("n", JLeaf (VInt 12))];
                            JDict [("n", JLeaf (VStr "twelve"))]])],
     [Report (JLeaf (VStr "twelve")) "int"
        (Convert.ValueError "invalid literal for int() with base 10")])
  /\ keyed_leaves
       (convert_field_types_in_data_structure (H := Reference.builtins)
       (H0 := MoreExamples.containers)
          MoreExamples.readings MoreExamples.to_int "").1 ""
     = [("id", VInt 7); ("tags.n", VInt 12); ("tags.n", VStr "twelve")].
Proof.
  assert (well_formed MoreExamples.readings) as Hwf.
  { unfold well_formed. cbn [distinct_after MoreExamples.readings].
    repeat split; compute_done. }
  destruct (convert_field_types_leaf_by_leaf (H := Reference.builtins)
              (H0 := MoreExamples.containers) MoreExamples.readings MoreExamples.to_int Hwf) as [_ Hleaves].
  destruct Hleaves as [Hl _].
  { intros p v Hin Hp. vm_compute in Hin.
    repeat (apply elem_of_cons in Hin as [[= -> ->]|Hin];
            [first [by eexists|by vm_compute in Hp; destruct Hp]|]).
    by apply not_elem_of_nil in Hin. }
  split; [vm_compute; reflexivity|]. rewrite Hl. vm_compute. reflexivity.
Defined.

(** A list under a mapped key is converted as a whole, not element by
    element: [{"a": [1, 2]}] under [{"a": "int"}] stays as it is, with a
    report. *)
Example list_under_mapped_key :
  exists e,
    convert_field_types_in_data_structure (H := Reference.builtins)
       (H0 := MoreExamples.containers)
      Examples.leaves_in_list {[ "a" := "int" ]} ""
    = (Examples.leaves_in_list,
       [Report (JList [JLeaf (VInt 1); JLeaf (VInt 2)]) "int" (Convert.TypeError e)]).
Proof. eexists. vm_compute. reflexivity. Qed.

Lemma verify_one_structure `{Pandas} name j p :
  (forall v w, (p, v) ∈ keyed_leaves j "" -> (p, w) ∈ keyed_leaves j "" ->
     type_name v = type_name w) ->
  Types.verify_data_types [ {| file := name; data := Nested j |} ] !! p = None.
Proof.
  intros Hsame.
  destruct (Types.verify_data_types _ !! p) as [l|] eqn:E; [exfalso|done].
  apply TypesFacts.verify_data_types_lookup in E as (s & Hs & Hsz & _).
  apply TypesFacts.size_two in Hsz as (t1 & t2 & H1 & H2 & Hne).
  assert (types_at (Types.field_types_of [ {| file := name; data := Nested j |} ]) p = s)
    as Hat by (unfold types_at; by rewrite Hs).
  rewrite <- Hat in H1, H2.
  apply TypesFacts.types_at_field_types_of in H1 as (i1 & Hi1 & Hs1).
  apply TypesFacts.types_at_field_types_of in H2 as (i2 & Hi2 & Hs2).
  apply list_elem_of_singleton in Hi1, Hi2. subst i1 i2.
  unfold seen_in in Hs1, Hs2. cbn in Hs1, Hs2.
  destruct Hs1 as (v & Hv & ->), Hs2 as (w & Hw & ->).
  apply Hne. by apply Hsame.
Qed.



End ConvertFieldsFacts.

(** ** Converting the types of resolved data *)

Module DataTypesFacts.
Import Frame Structure DataTypes DataTypesSpec.

#[export] Instance astype_spec : AstypeSpec MoreExamples.astype.
Proof.
  split. intros s new_type s'. cbn. case_decide; [|done].
  intros [= <-]. apply length_map.
Qed.

Lemma column_assign_other c field :
  c <> field ->
  forall (rs : list (gmap string value)) (s : list (option value)),
    length s = length rs ->
    column c (zip_with (set_cell field) rs s) = column c rs.
Proof.
  intros Hc. unfold column.
  induction rs as [|r rs IH]; intros [|x s] Hlen; try done.
  cbn [zip_with map]. rewrite (IH s) by (cbn in Hlen; lia). f_equal.
  unfold set_cell. destruct x; [by rewrite lookup_insert_ne|by rewrite lookup_delete_ne].
Qed.

Section table.
Context {A : Astype} {AS : AstypeSpec A}.

Lemma convert_column_framed df field new_type :
  framed [field] df (convert_column df field new_type).1.
Proof.
  unfold convert_column. case_decide as Hin; [|done].
  destruct (series_astype (column field (rows df)) new_type) as [e|s] eqn:E; [done|].
  apply series_astype_length in E. unfold column in E. rewrite length_map in E.
  cbn [fst]. split; [done|]. split.
  - unfold assign_column. cbn [rows]. rewrite length_zip_with. lia.
  - intros c Hc. unfold assign_column. cbn [rows].
    apply column_assign_other; [|done]. intros ->. apply Hc. left.
Qed.

Lemma convert_table_snoc df cs field new_type :
  convert_table df (cs ++ [(field, new_type)])
  = ((convert_column (convert_table df cs).1 field new_type).1,
     ((convert_table df cs).2
      ++ (convert_column (convert_table df cs).1 field new_type).2)%list).
Proof. unfold convert_table. by rewrite foldl_app. Qed.

Lemma convert_table_framed df cs : framed cs.*1 df (convert_table df cs).1.
Proof.
  induction cs as [|[field new_type] cs IH] using rev_ind; [done|].
  rewrite convert_table_snoc. cbn [fst].
  destruct IH as (Hcols & Hlen & Hcells).
  destruct (convert_column_framed (convert_table df cs).1 field new_type)
    as (Hcols' & Hlen' & Hcells').
  split; [congruence|]. split; [congruence|].
  intros c Hc. rewrite fmap_app, not_elem_of_app in Hc. destruct Hc as [Hc1 Hc2].
  rewrite Hcells' by done. by apply Hcells.
Qed.

(** A conversion that names a column the table lacks is reported. *)
Lemma convert_table_missing df cs field new_type :
  (field, new_type) ∈ cs -> field ∉ columns df ->
  FieldError field new_type (Convert.OtherError "KeyError" field) ∈ (convert_table df cs).2.
Proof.
  intros Hin Hmiss. induction cs as [|[f t] cs IH] using rev_ind.
  { by apply not_elem_of_nil in Hin. }
  rewrite convert_table_snoc. cbn [snd]. apply elem_of_app.
  apply elem_of_app in Hin as [Hin|Hin]; [left; by apply IH|right].
  apply list_elem_of_singleton in Hin as [= <- <-].
  unfold convert_column. rewrite decide_False; [left|].
  by destruct (convert_table_framed df cs) as (-> & _).
Qed.

End table.

(** X17. Converting the types of resolved data keeps the fragments in
    place: the same file names in the same order, a table stays a table
    with the same column labels and the same number of rows, and every
    column that no conversion names keeps its cells; a nested structure is
    replaced by what converting its fields gives.  A conversion that names
    a column a table lacks is reported as a [KeyError] for that table, and
    the other conversions are still applied. *)
Theorem convert_data_types_frame {A : Astype} {AS : AstypeSpec A}
    `{Convert.Builtins} `{Containers} resolved_data
    (user_conversions : list (string * string)) :
  let r := convert_data_types resolved_data user_conversions in
  Forall2 (fun x y : aligned_item =>
             file y = file x
             /\ match data x, data y with
                | Tabular df, Tabular df' =>
                    columns df' = columns df
                    /\ length (rows df') = length (rows df)
                    /\ (forall c, c ∉ user_conversions.*1 ->
                          column c (rows df') = column c (rows df))
                    /\ df' = (convert_table df user_conversions).1
                | Nested j, Nested j' =>
                    j' = (convert_field_types_in_data_structure j
                            (list_to_map user_conversions) "").1
                | _, _ => False
                end) resolved_data r.1
  /\ (forall item df field new_type,
        item ∈ resolved_data -> data item = Tabular df ->
        (field, new_type) ∈ user_conversions -> field ∉ columns df ->
        FieldError field new_type (Convert.OtherError "KeyError" field) ∈ r.2).
Proof.
  intros r. split.
  - unfold r, convert_data_types. cbn [fst].
    induction resolved_data as [|item items IH]; [constructor|].
    cbn [map fmap list_fmap]. constructor; [|apply IH].
    unfold convert_item. destruct (data item) as [df|j] eqn:E; cbn [fst file data].
    + split; [done|].
      destruct (convert_table_framed df user_conversions) as (H1 & H2 & H3). done.
    + done.
  - intros item df field new_type Hitem Hdf Hconv Hmiss.
    unfold r, convert_data_types. cbn [snd].
    apply FrameFacts.elem_of_list_concat.
    exists (convert_item user_conversions item).2. split.
    + apply list_elem_of_fmap. exists (convert_item user_conversions item).
      split; [done|]. change (map ?f ?l) with (f <$> l).
      by apply list_elem_of_fmap_2.
    + unfold convert_item. rewrite Hdf. cbn [snd].
      by apply convert_table_missing.
Qed.

(** The table of [A] and a nested structure, with the conversions
    [{"id": "str", "missing": "str"}]. *)
Lemma convert_data_types_frame_witness :
  convert_data_types (H := MoreExamples.astype) (H0 := Reference.builtins)
    (H1 := MoreExamples.containers)
    [Examples.item_a; mkItem "N" (Nested MoreExamples.readings)]
    [("id", "str"); ("missing", "str")]
  = ([ {| file := "A";
          data := Tabular (mkDataFrame ["id"; "v"]
                             [ {[ "id" := VStr "1"; "v" := VStr "a" ]} ]) |};
       mkItem "N" (Nested MoreExamples.readings) ],
     [FieldError "missing" "str" (Convert.OtherError "KeyError" "missing")])
  /\ FieldError "missing" "str" (Convert.OtherError "KeyError" "missing")
     ∈ (convert_data_types (H := MoreExamples.astype) (H0 := Reference.builtins)
          (H1 := MoreExamples.containers)
          [Examples.item_a; mkItem "N" (Nested MoreExamples.readings)]
          [("id", "str"); ("missing", "str")]).2.
Proof.
  split; [vm_compute; reflexivity|].
  destruct (convert_data_types_frame (A := MoreExamples.astype) (AS := astype_spec)
              (H := Reference.builtins) (H0 := MoreExamples.containers)
              [Examples.item_a; mkItem "N" (Nested MoreExamples.readings)]
              [("id", "str"); ("missing", "str")]) as [_ Hmiss].
  apply (Hmiss Examples.item_a (mkDataFrame ["id"; "v"] [Examples.row_a])).
  - left.
  - done.
  - right. left.
  - compute_done.
Defined.

End DataTypesFacts.

(** ** Overlapping fields *)

Module OverlapsFacts.
Import Frame Dict Overlaps OverlapsSpec FrameFacts DictFacts.

Lemma collect_field_info_entries fm :
  collect_field_info fm = foldl add_entry [] (entries fm).
Proof.
  unfold collect_field_info, entries. generalize (@nil (string * list (string * field_meta))).
  induction fm as [|[s fields] fm IH]; intros acc; [done|].
  cbn [foldl map List.concat fst snd]. rewrite foldl_app, IH. f_equal.
  clear. revert acc. induction fields as [|[f x] fields IH]; intros acc; [done|].
  cbn [foldl map]. by rewrite IH.
Qed.

Lemma setitem_in_map {V} (G : string -> V) f v (l : list string) :
  NoDup l -> f ∈ l ->
  setitem f v (map (fun g => (g, G g)) l)
  = map (fun g => (g, if decide (g = f) then v else G g)) l.
Proof.
  induction l as [|g l IH]; intros Hnd Hf; [by apply not_elem_of_nil in Hf|].
  apply NoDup_cons in Hnd as [Hg Hnd]. cbn [map setitem].
  destruct (decide (g = f)) as [->|Hne].
  - f_equal. apply map_ext_Forall, Forall_forall. intros g Hin.
    rewrite decide_False; [done|]. by intros ->.
  - apply elem_of_cons in Hf as [->|Hf]; [done|]. by rewrite IH.
Qed.

Lemma setitem_twice {V} k (v w : V) d : setitem k w (setitem k v d) = setitem k w d.
Proof.
  induction d as [|[k' y] d IH]; cbn [setitem].
  - by rewrite decide_True.
  - destruct (decide (k' = k)) as [->|Hne]; cbn [setitem].
    + by rewrite decide_True.
    + by rewrite decide_False, IH.
Qed.

Lemma keys_map {V} (G : string -> V) (l : list string) :
  (map (fun g => (g, G g)) l).*1 = l.
Proof. induction l as [|g l IH]; [done|]. cbn. by rewrite IH. Qed.

Lemma getitem_map {V} (G : string -> V) f (l : list string) :
  getitem f (map (fun g => (g, G g)) l) = if decide (f ∈ l) then Some (G f) else None.
Proof.
  induction l as [|g l IH]; [done|]. cbn [map getitem].
  destruct (decide (g = f)) as [->|Hne].
  - by rewrite decide_True by left.
  - rewrite IH. destruct (decide (f ∈ l)) as [Hin|Hin].
    + by rewrite decide_True by by right.
    + rewrite decide_False; [done|]. intros [?|?]%elem_of_cons; congruence.
Qed.

Lemma entries_of_snoc f es e :
  entries_of f (es ++ [e])
  = if decide (e.1 = f) then (entries_of f es ++ [e.2])%list else entries_of f es.
Proof.
  unfold entries_of. rewrite filter_app, filter_cons, filter_nil.
  case_decide; [by rewrite fmap_app|by rewrite app_nil_r].
Qed.

(** The first pass groups the entries by field name: the field names in
    order of first appearance, each with the dictionary made of its
    entries. *)
Lemma foldl_add_entry es :
  foldl add_entry [] es
  = map (fun f => (f, from_items (entries_of f es))) (unique es.*1).
Proof.
  induction es as [|[f [s x]] es IH] using rev_ind; [done|].
  rewrite foldl_app. cbn [foldl]. rewrite IH. clear IH.
  rewrite fmap_app. cbn [fmap list_fmap fst]. rewrite unique_snoc.
  unfold add_entry, add_field. cbn [fst snd].
  rewrite (getitem_map (fun f => from_items (entries_of f es))).
  destruct (decide (f ∈ es.*1)) as [Hin|Hin].
  - rewrite decide_True by by rewrite elem_of_unique.
    rewrite (getitem_map (fun f => from_items (entries_of f es))).
    rewrite decide_True by by rewrite elem_of_unique.
    cbn [default]. rewrite setitem_in_map; [|apply NoDup_unique|by rewrite elem_of_unique].
    apply map_ext. intros g. f_equal. rewrite entries_of_snoc. cbn [fst snd].
    destruct (decide (g = f)) as [->|Hne].
    + rewrite decide_True by done. by rewrite from_items_snoc.
    + rewrite decide_False; [done|]. by intros ->.
  - rewrite decide_False by by rewrite elem_of_unique.
    set (d := map _ (unique es.*1)).
    assert (f ∉ d.*1) as Hfresh.
    { unfold d. rewrite keys_map. by rewrite elem_of_unique. }
    rewrite getitem_setitem_eq. cbn [default setitem].
    rewrite setitem_twice, (setitem_fresh f _ d Hfresh). unfold d.
    rewrite map_app. cbn [map]. f_equal.
    + apply map_ext_Forall, Forall_forall. intros g Hg. f_equal.
      rewrite entries_of_snoc. cbn [fst]. rewrite decide_False; [done|].
      intros ->. by rewrite elem_of_unique in Hg.
    + rewrite entries_of_snoc. cbn [fst snd]. rewrite decide_True by done.
      assert (entries_of f es = []) as ->; [|done].
      unfold entries_of. clear -Hin. induction es as [|[g y] es IH]; [done|].
      rewrite filter_cons. cbn [fst]. cbn [fmap list_fmap fst] in Hin.
      apply not_elem_of_cons in Hin as [Hne Hin].
      rewrite decide_False by done. by apply IH.
Qed.

Lemma entries_keys fm : (entries fm).*1 = field_names fm.
Proof.
  unfold entries, field_names. induction fm as [|[s fields] fm IH]; [done|].
  cbn [map List.concat fst snd]. rewrite fmap_app, IH. f_equal.
  change (map ?h ?l) with (h <$> l). by rewrite <- list_fmap_compose.
Qed.

Lemma entries_of_source f s (fields : list (string * field_meta)) :
  NoDup fields.*1 ->
  entries_of f (map (fun field : string * field_meta => (field.1, (s, field.2))) fields)
  = match getitem f fields with Some x => [(s, x)] | None => [] end.
Proof.
  unfold entries_of. induction fields as [|[g x] fields IH]; [done|].
  cbn [fmap list_fmap fst]. intros [Hg Hnd]%NoDup_cons.
  cbn [map getitem fst snd]. rewrite filter_cons. cbn [fst].
  destruct (decide (g = f)) as [->|Hne].
  - cbn [fmap list_fmap snd]. f_equal.
    change (list_fmap _ _ snd ?l) with (l.*2). rewrite IH by done.
    by rewrite (proj2 (getitem_None f fields) Hg).
  - by apply IH.
Qed.

Lemma entries_of_app f es es' :
  entries_of f (es ++ es') = (entries_of f es ++ entries_of f es')%list.
Proof. unfold entries_of. by rewrite filter_app, fmap_app. Qed.

Lemma entries_of_entries fm f : proper fm -> entries_of f (entries fm) = holders fm f.
Proof.
  intros [_ Hfields]. unfold entries, holders.
  induction Hfields as [|[s fields] fm Hnd _ IH]; [done|].
  cbn [map List.concat omap list_omap fst snd].
  rewrite entries_of_app, IH, entries_of_source by done.
  by destruct (getitem f fields).
Qed.

Lemma elem_of_holders fm f s x :
  proper fm ->
  (s, x) ∈ holders fm f <-> exists fields, (s, fields) ∈ fm /\ (f, x) ∈ fields.
Proof.
  intros [_ Hfields]. unfold holders. rewrite list_elem_of_omap. split.
  - intros ([s' fields] & Hin & Hx). cbn [fst snd] in Hx.
    apply fmap_Some in Hx as (x' & Hx & [= -> ->]).
    exists fields. split; [done|]. apply getitem_Some; [|done].
    rewrite Forall_forall in Hfields. by apply (Hfields (s', fields)).
  - intros (fields & Hin & Hx). exists (s, fields). split; [done|]. cbn [fst snd].
    assert (NoDup fields.*1) as Hnd.
    { rewrite Forall_forall in Hfields. by apply (Hfields (s, fields)). }
    by rewrite (proj2 (getitem_Some f x fields Hnd) Hx).
Qed.

Lemma holders_sources fm f : (holders fm f).*1 `sublist_of` fm.*1.
Proof.
  unfold holders. induction fm as [|[s fields] fm IH]; [done|].
  cbn [omap list_omap fmap list_fmap fst snd].
  destruct (getitem f fields); cbn [fmap option_fmap option_map list_fmap fst].
  - by apply sublist_skip.
  - by apply sublist_cons.
Qed.

Lemma NoDup_holders fm f : proper fm -> NoDup (holders fm f).*1.
Proof. intros [Hnd _]. eapply sublist_NoDup; [exact Hnd|apply holders_sources]. Qed.

(** The first pass in closed form. *)
Lemma collect_field_info_holders fm :
  proper fm ->
  collect_field_info fm
  = map (fun f => (f, holders fm f)) (unique (field_names fm)).
Proof.
  intros Hp. rewrite collect_field_info_entries, foldl_add_entry, entries_keys.
  apply map_ext. intros f. f_equal. rewrite entries_of_entries by done.
  apply from_items_NoDup. by apply NoDup_holders.
Qed.

Lemma overlap_of_from_items f (hs : list (string * field_meta)) :
  overlap_of f hs
  = {| field_name := f;
       sources := hs.*1;
       data_types :=
         from_items (map (fun sm : string * field_meta => (sm.1, dtype sm.2)) hs);
       value_patterns :=
         from_items (map (fun sm : string * field_meta =>
                            (sm.1, map type_name (sample_values sm.2))) hs) |}.
Proof.
  unfold overlap_of, from_items. f_equal.
  - generalize (@nil (string * string)) (@nil (string * list string)).
    induction hs as [|[s x] hs IH]; intros a b; [done|]. cbn [foldl map]. apply IH.
  - generalize (@nil (string * string)) (@nil (string * list string)).
    induction hs as [|[s x] hs IH]; intros a b; [done|]. cbn [foldl map]. apply IH.
Qed.

Lemma more_than_one {A B} (l : list (A * B)) :
  NoDup l.*1 ->
  (1 < length l)%nat
  <-> exists a a' b b', (a, b) ∈ l /\ (a', b') ∈ l /\ a <> a'.
Proof.
  intros Hnd. split.
  - destruct l as [|[a b] [|[a' b'] l]]; cbn [length]; [lia|lia|]. intros _.
    exists a, a', b, b'. split; [left|]. split; [right; left|].
    cbn in Hnd. apply NoDup_cons in Hnd as [Ha _]. intros ->. apply Ha. left.
  - intros (a & a' & b & b' & Hin & Hin' & Hne).
    destruct l as [|x [|y l]]; cbn [length]; [|exfalso|lia].
    + by apply not_elem_of_nil in Hin.
    + apply list_elem_of_singleton in Hin, Hin'. congruence.
Qed.

(** X18. On dictionaries as Python has them (no source listed twice,
    no field twice within a source), the overlaps are reported for
    exactly the field names that two different sources have, whatever
    their types; every such field is reported once, in the order in which
    the field names first appear; and the record of a field lists the
    sources that have it, in their order, with the dtype each of them
    gives for the field and the type names of its sample values. *)
Theorem identify_overlaps_spec field_metadata :
  proper field_metadata ->
  let out := identify_overlaps field_metadata in
  map field_name out
  = filter (fun f => (1 < length (holders field_metadata f))%nat)
      (unique (field_names field_metadata))
  /\ NoDup (map field_name out)
  /\ (forall f, f ∈ map field_name out
        <-> exists s s' x x', s <> s'
              /\ (exists fields, (s, fields) ∈ field_metadata /\ (f, x) ∈ fields)
              /\ (exists fields, (s', fields) ∈ field_metadata /\ (f, x') ∈ fields))
  /\ (forall o, o ∈ out ->
        let hs := holders field_metadata (field_name o) in
        sources o = hs.*1
        /\ data_types o = map (fun sm : string * field_meta => (sm.1, dtype sm.2)) hs
        /\ value_patterns o
           = map (fun sm : string * field_meta =>
                    (sm.1, map type_name (sample_values sm.2))) hs).
Proof.
  intros Hp out.
  assert (out = omap (fun f => if decide (1 < length (holders field_metadata f))%nat
                               then Some (overlap_of f (holders field_metadata f))
                               else None)
                  (unique (field_names field_metadata))) as Hout.
  { unfold out, identify_overlaps. rewrite collect_field_info_holders by done.
    generalize (unique (field_names field_metadata)). intros l.
    induction l as [|f l IH]; [done|]. cbn [map omap list_omap fst snd].
    by rewrite IH. }
  assert (map field_name out
          = filter (fun f => (1 < length (holders field_metadata f))%nat)
              (unique (field_names field_metadata))) as Hnames.
  { rewrite Hout. generalize (unique (field_names field_metadata)). intros l.
    induction l as [|f l IH]; [done|]. cbn [omap list_omap]. rewrite filter_cons.
    case_decide; [|done]. cbn [map]. by rewrite IH. }
  split; [done|]. split; [rewrite Hnames; apply NoDup_filter, NoDup_unique|]. split.
  - intros f. rewrite Hnames, list_elem_of_filter.
    rewrite (more_than_one _ (NoDup_holders _ f Hp)). split.
    + intros [(s & s' & x & x' & Hs & Hs' & Hne) _].
      exists s, s', x, x'. split; [done|]. split; by apply elem_of_holders.
    + intros (s & s' & x & x' & Hne & Hs & Hs').
      assert ((s, x) ∈ holders field_metadata f) as Hh by by apply elem_of_holders.
      split; [exists s, s', x, x'; split; [done|]; split; [by apply elem_of_holders|done]|].
      rewrite elem_of_unique, <- entries_keys.
      destruct Hs as (fields & Hin & Hx). unfold entries.
      apply list_elem_of_fmap. exists (f, (s, x)). split; [done|].
      apply elem_of_list_concat. eexists. split.
      * apply list_elem_of_fmap. by exists (s, fields).
      * cbn [fst snd]. apply list_elem_of_fmap. by exists (f, x).
  - intros o Ho hs. rewrite Hout in Ho. apply list_elem_of_omap in Ho as (f & _ & Ho).
    case_decide; [|done]. injection Ho as <-. subst hs.
    rewrite overlap_of_from_items. cbn [field_name sources data_types value_patterns].
    split; [done|].
    split; apply from_items_NoDup; change (map ?h ?l) with (h <$> l);
      rewrite <- list_fmap_compose; by apply NoDup_holders.
Qed.

(** [A] has [id] and [v], [B] has [id]: one overlap, for [id]. *)
Lemma identify_overlaps_spec_witness :
  identify_overlaps MoreExamples.two_sources
  = [ {| field_name := "id";
         sources := ["A"; "B"];
         data_types := [("A", "int64"); ("B", "object")];
         value_patterns := [("A", ["int"]); ("B", ["str"; "NoneType"])] |} ]
  /\ map field_name (identify_overlaps MoreExamples.two_sources)
     = filter (fun f => (1 < length (holders MoreExamples.two_sources f))%nat)
         (unique (field_names MoreExamples.two_sources)).
Proof.
  assert (proper MoreExamples.two_sources) as Hp.
  { split; [compute_done|]. repeat constructor; compute_done. }
  destruct (identify_overlaps_spec MoreExamples.two_sources Hp) as (Hnames & _).
  split; [vm_compute; reflexivity|exact Hnames].
Defined.

End OverlapsFacts.

(** ** Saving and loading the mapping dictionary *)

Module MappingsFacts.
Import Convert Mappings MappingsSpec.

Example version_after_ten :
  version_mapping_dictionary (H := MoreExamples.os) (Some MoreExamples.two_versions)
  = inr 11.
Proof. vm_compute. reflexivity. Qed.

Example load_latest :
  load_mapping_dictionary (H := MoreExamples.os) (H0 := MoreExamples.yaml)
    (Some MoreExamples.two_versions)
  = inr "ten".
Proof. vm_compute. reflexivity. Qed.

(** *** File names *)

Lemma length_append (a b : string) :
  String.length (a ++ b) = (String.length a + String.length b)%nat.
Proof. induction a as [|c a IH]; [done|]. simpl. by rewrite IH. Qed.

Lemma substring_append a b n : substring (String.length a) n (a ++ b) = substring 0 n b.
Proof. induction a as [|c a IH]; [done|]. simpl. apply IH. Qed.

Lemma substring_whole a b : substring 0 (String.length a) (a ++ b) = a.
Proof.
  induction a as [|c a IH]; [by destruct b|].
  simpl. by rewrite IH.
Qed.

Lemma prefix_append p s : String.prefix p (p ++ s) = true.
Proof.
  induction p as [|c p IH]; [by destruct s|]. simpl.
  destruct (ascii_dec c c); [apply IH|done].
Qed.

Lemma startswith_append p s : startswith (p ++ s) p = true.
Proof. apply prefix_append. Qed.

Lemma append_empty (a : string) : a ++ "" = a.
Proof.
  induction a as [|c a IH]; [done|].
  change (String c a ++ "") with (String c (a ++ "")). by rewrite IH.
Qed.

Lemma endswith_append a p : endswith (a ++ p) p = true.
Proof.
  unfold endswith. rewrite length_append. apply andb_true_iff. split.
  - apply Nat.leb_le. lia.
  - replace (String.length a + String.length p - String.length p)%nat
      with (String.length a) by lia.
    rewrite substring_append. rewrite <- (append_empty p) at 2.
    rewrite substring_whole. apply String.eqb_refl.
Qed.

Lemma between_append a s b : between a b (a ++ s ++ b) = s.
Proof.
  unfold between. rewrite !length_append.
  replace (String.length a + (String.length s + String.length b)
           - String.length b - String.length a)%nat with (String.length s) by lia.
  by rewrite substring_append, substring_whole.
Qed.

Lemma append_assoc (a b c : string) : (a ++ b) ++ c = a ++ (b ++ c).
Proof.
  induction a as [|x a IH]; [done|].
  change ((String x a ++ b) ++ c) with (String x ((a ++ b) ++ c)). by rewrite IH.
Qed.

Lemma is_mapping_file_name v : is_mapping_file (file_name v).
Proof.
  unfold is_mapping_file, file_name. apply andb_true_iff. split.
  - apply startswith_append.
  - rewrite <- append_assoc. apply endswith_append.
Qed.

(** The version read off the name of a saved file is the version it
    was saved under. *)
Lemma version_key_file_name v : version_key (file_name v) = Some v.
Proof.
  unfold version_key, file_name. rewrite between_append.
  apply ConvertFacts.int_of_str_of_int.
Qed.

(** *** Sorting by version *)

Lemma insert_by_key_perm kx l : insert_by_key kx l ≡ₚ kx :: l.
Proof.
  induction l as [|ky l IH]; [done|]. cbn [insert_by_key]. case_decide; [done|].
  rewrite IH. apply Permutation_swap.
Qed.

Lemma sort_by_key_perm l : sort_by_key l ≡ₚ l.
Proof.
  induction l as [|kx l IH]; [done|]. cbn [sort_by_key foldr].
  rewrite insert_by_key_perm. by constructor.
Qed.

Lemma insert_by_key_sorted kx l : key_sorted l -> key_sorted (insert_by_key kx l).
Proof.
  unfold key_sorted. induction 1 as [|ky l Hl IH Hky]; cbn [insert_by_key].
  - repeat constructor.
  - case_decide as Hle.
    + constructor; [by constructor|]. constructor; [done|].
      eapply Forall_impl; [exact Hky|]. intros kz Hz. cbn in Hz. lia.
    + constructor; [done|]. rewrite insert_by_key_perm. constructor; [lia|done].
Qed.

Lemma sort_by_key_sorted l : key_sorted (sort_by_key l).
Proof.
  induction l as [|kx l IH]; [constructor|]. by apply insert_by_key_sorted.
Qed.

Lemma last_sorted l kx :
  key_sorted l -> last l = Some kx -> forall ky, ky ∈ l -> ky.1 <= kx.1.
Proof.
  unfold key_sorted. induction 1 as [|kz l Hl IH Hkz]; [done|].
  intros Hlast ky Hin. destruct l as [|kw l].
  - cbn in Hlast. injection Hlast as <-. apply list_elem_of_singleton in Hin as ->. lia.
  - change (last (kz :: kw :: l)) with (last (kw :: l)) in Hlast.
    apply elem_of_cons in Hin as [->|Hin]; [|by apply IH].
    rewrite Forall_forall in Hkz. apply Hkz. by apply last_Some_elem_of.
Qed.

(** The last element after sorting has the greatest key. *)
Lemma last_sort_by_key l :
  l <> [] ->
  exists kx, last (sort_by_key l) = Some kx /\ kx ∈ l /\ forall ky, ky ∈ l -> ky.1 <= kx.1.
Proof.
  intros Hne. destruct (last (sort_by_key l)) as [kx|] eqn:E.
  - exists kx. split; [done|]. split.
    + rewrite <- (sort_by_key_perm l). by apply last_Some_elem_of.
    + intros ky Hky. apply (last_sorted (sort_by_key l)); [apply sort_by_key_sorted|done|].
      by rewrite sort_by_key_perm.
  - apply last_None in E. exfalso. apply Hne.
    apply Permutation_nil_r. by rewrite <- E, sort_by_key_perm.
Qed.

Lemma keyed_names names keyed :
  mapM (fun x => (fun k => (k, x)) <$> version_key x) names = Some keyed ->
  keyed = map with_key names.
Proof.
  rewrite mapM_Some. induction 1 as [|x ky names keyed Hx _ IH]; [done|].
  cbn [map]. rewrite IH. f_equal. unfold with_key.
  destruct (version_key x); [|done]. cbn in Hx. by injection Hx as <-.
Qed.

(** Sorting goes through when every name has a version, and then the
    last name is one of greatest version. *)
Lemma sort_mapping_files_latest names :
  names <> [] -> Forall (fun x => is_Some (version_key x)) names ->
  exists sorted x v,
    sort_mapping_files names = inr sorted /\ latest sorted = inr x
    /\ x ∈ names /\ version_key x = Some v
    /\ forall y w, y ∈ names -> version_key y = Some w -> w <= v.
Proof.
  intros Hne Hall. unfold sort_mapping_files.
  destruct (mapM (fun x => (fun k => (k, x)) <$> version_key x) names) as [keyed|] eqn:E.
  2: { exfalso. apply mapM_None in E. apply Exists_exists in E as (x & Hx & Hn).
       rewrite Forall_forall in Hall. destruct (Hall x Hx) as [v Hv].
       rewrite Hv in Hn. done. }
  apply keyed_names in E as ->.
  destruct (last_sort_by_key (map with_key names)) as (kx & Hlast & Hin & Hmax).
  { by destruct names. }
  apply list_elem_of_fmap in Hin as (x & -> & Hx).
  rewrite Forall_forall in Hall. destruct (Hall x Hx) as [v Hv].
  exists (sort_by_key (map with_key names)).*2, x, v.
  split; [done|]. split.
  { unfold latest. by rewrite fmap_last, Hlast. }
  split; [done|]. split; [done|]. intros y w Hy Hw.
  assert (with_key y ∈ map with_key names) as Hin
    by by apply (list_elem_of_fmap_2 with_key).
  apply Hmax in Hin. unfold with_key in Hin. by rewrite Hv, Hw in Hin.
Qed.

Lemma sort_mapping_files_fails names x :
  x ∈ names -> version_key x = None ->
  sort_mapping_files names = inl (ValueError "invalid literal for int() with base 10").
Proof.
  intros Hx Hn. unfold sort_mapping_files.
  rewrite (proj2 (mapM_None _ names)); [done|].
  apply Exists_exists. exists x. split; [done|]. by rewrite Hn.
Qed.

#[export] Instance os_spec : OSSpec MoreExamples.os.
Proof.
  split.
  - intros files name. cbn. by rewrite elem_of_elements, elem_of_dom.
  - intros files. cbn. apply NoDup_elements.
Qed.

#[export] Instance yaml_spec : YamlSpec MoreExamples.yaml.
Proof. by split. Qed.

Section directory.
Context {O : OS} {OS_ok : OSSpec O}.

Lemma elem_of_mapping_files files name :
  name ∈ mapping_files files <-> is_Some (files !! name) /\ is_mapping_file name.
Proof. unfold mapping_files. rewrite list_elem_of_filter, listdir_elem. tauto. Qed.

(** The next version, case by case. *)
Lemma version_cases files :
  (mapping_files files = [] /\ version_mapping_dictionary (Some files) = inr 1)
  \/ (exists x, x ∈ mapping_files files /\ version_key x = None
        /\ version_mapping_dictionary (Some files)
           = inl (ValueError "invalid literal for int() with base 10"))
  \/ (exists x v, x ∈ mapping_files files /\ version_key x = Some v
        /\ (forall y, y ∈ mapping_files files -> exists w, version_key y = Some w /\ w <= v)
        /\ version_mapping_dictionary (Some files) = inr (v + 1)).
Proof.
  unfold version_mapping_dictionary, list_mapping_files, and_then.
  fold (mapping_files files).
  destruct (mapping_files files) as [|n0 names] eqn:E; [by left|right].
  rewrite <- E. assert (mapping_files files <> []) as Hne by by rewrite E.
  clear E n0 names.
  destruct (decide (Forall (fun x => is_Some (version_key x)) (mapping_files files)))
    as [Hall|Hex].
  - right.
    destruct (sort_mapping_files_latest _ Hne Hall)
      as (sorted & x & v & -> & -> & Hx & Hv & Hmax).
    exists x, v. split; [done|]. split; [done|]. split; [|by rewrite Hv].
    intros y Hy. rewrite Forall_forall in Hall. destruct (Hall y Hy) as [w Hw].
    exists w. split; [done|]. by apply (Hmax y).
  - left. apply not_Forall_Exists in Hex; [|apply _].
    apply Exists_exists in Hex as (x & Hx & Hn).
    exists x. split; [done|].
    assert (version_key x = None) as Hnone.
    { cbn in Hn. destruct (version_key x); [|done]. exfalso. apply Hn. by eexists. }
    split; [done|]. by rewrite (sort_mapping_files_fails _ x).
Qed.

Lemma load_cases `{Yaml} files x v :
  x ∈ mapping_files files -> version_key x = Some v ->
  (forall y, y ∈ mapping_files files -> y <> x -> exists w, version_key y = Some w /\ w < v) ->
  load_mapping_dictionary (Some files)
  = match files !! x with
    | Some text => safe_load text
    | None => inl (OtherError "FileNotFoundError" x)
    end.
Proof.
  intros Hx Hv Hless.
  unfold load_mapping_dictionary, list_mapping_files, and_then.
  fold (mapping_files files).
  destruct (mapping_files files) as [|n0 names] eqn:E.
  { by apply not_elem_of_nil in Hx. }
  rewrite <- E in *. assert (mapping_files files <> []) as Hne by by rewrite E.
  clear E n0 names.
  assert (Forall (fun y => is_Some (version_key y)) (mapping_files files)) as Hall.
  { apply Forall_forall. intros y Hy. destruct (decide (y = x)) as [->|Hyx].
    - by eexists.
    - destruct (Hless y Hy Hyx) as (w & -> & _). by eexists. }
  destruct (sort_mapping_files_latest _ Hne Hall)
    as (sorted & x' & v' & -> & -> & Hx' & Hv' & Hmax).
  assert (x' = x) as ->; [|done].
  destruct (decide (x' = x)) as [|Hne']; [done|exfalso].
  destruct (Hless x' Hx' Hne') as (w & Hw & Hlt).
  specialize (Hmax x v Hx Hv). rewrite Hv' in Hw. injection Hw as ->. lia.
Qed.

Lemma version_inr files v :
  version_mapping_dictionary (Some files) = inr v ->
  (forall name w, stored_version files name w -> w < v)
  /\ (forall name, is_Some (files !! name) -> is_mapping_file name ->
        is_Some (version_key name)).
Proof.
  intros Hv.
  destruct (version_cases files)
    as [[Hnil Heq]|[(x & Hx & Hn & Heq)|(x & v' & Hx & Hv' & Hmax & Heq)]].
  - assert (forall name, is_Some (files !! name) -> is_mapping_file name -> False) as Hno.
    { intros name Hin Hm.
      assert (name ∈ mapping_files files) as Hmem by by apply elem_of_mapping_files.
      rewrite Hnil in Hmem. by apply not_elem_of_nil in Hmem. }
    split; [intros name w (Hin & Hm & _)|intros name Hin Hm]; by destruct (Hno name).
  - congruence.
  - rewrite Heq in Hv. injection Hv as <-. split.
    + intros name w (Hin & Hm & Hw).
      destruct (Hmax name) as (w' & Hw' & Hle); [by apply elem_of_mapping_files|].
      rewrite Hw in Hw'. injection Hw' as <-. lia.
    + intros name Hin Hm.
      destruct (Hmax name) as (w' & Hw' & _); [by apply elem_of_mapping_files|].
      by eexists.
Qed.

(** Saving under a version above every stored one makes the saved file
    the latest. *)
Lemma after_save `{Yaml} {Y_ok : YamlSpec H} files (doc : document) v :
  (forall name w, stored_version files name w -> w < v) ->
  (forall name, is_Some (files !! name) -> is_mapping_file name ->
     is_Some (version_key name)) ->
  load_mapping_dictionary (Some (<[file_name v := dump doc]> files)) = inr doc
  /\ version_mapping_dictionary (Some (<[file_name v := dump doc]> files)) = inr (v + 1).
Proof.
  intros Hless Hparse.
  set (files' := <[file_name v := dump doc]> files).
  assert (file_name v ∈ mapping_files files') as Hnew.
  { apply elem_of_mapping_files. split; [|apply is_mapping_file_name].
    unfold files'. by rewrite lookup_insert_eq. }
  assert (forall y, y ∈ mapping_files files' -> y <> file_name v ->
            exists w, version_key y = Some w /\ w < v) as Hold.
  { intros y [Hin Hm]%elem_of_mapping_files Hy.
    unfold files' in Hin. rewrite lookup_insert_ne in Hin by done.
    destruct (Hparse y Hin Hm) as [w Hw]. exists w. split; [done|].
    by apply (Hless y w). }
  split.
  - rewrite (load_cases files' (file_name v) v Hnew (version_key_file_name v) Hold).
    unfold files'. rewrite lookup_insert_eq. apply load_dump.
  - destruct (version_cases files')
      as [[Hnil _]|[(x & Hx & Hn & _)|(x & v' & Hx & Hv' & Hmax & ->)]].
    + rewrite Hnil in Hnew. by apply not_elem_of_nil in Hnew.
    + exfalso. destruct (decide (x = file_name v)) as [->|Hne].
      * by rewrite version_key_file_name in Hn.
      * destruct (Hold x Hx Hne) as (w & Hw & _). congruence.
    + do 2 f_equal. destruct (Hmax _ Hnew) as (w & Hw & Hle).
      rewrite version_key_file_name in Hw. injection Hw as <-.
      destruct (decide (x = file_name v)) as [->|Hne].
      * rewrite version_key_file_name in Hv'. by injection Hv' as <-.
      * destruct (Hold x Hx Hne) as (w & Hw & Hlt). rewrite Hv' in Hw.
        injection Hw as <-. lia.
Qed.

End directory.







End MappingsFacts.
